(** * Campus access control: verification matcher and ID-card field extractor

    A shallow embedding of the matcher and of the readers that feed it, and
    the properties of the specification that concern them.

    - [Matcher]: the pending-verification bookkeeping of
      [campus-access-control/access_control_system.py]
      ([match_vehicle_and_id], [check_pending_verification],
      [process_vehicle_detection], [process_id_card_detection],
      [save_access_log]), with the three settings it reads from
      [config/config.py].
    - [Text]: the [str] methods and the fragment of [re] that the extractor
      uses, the latter as a backtracking matcher.
    - [Extractor]: the OCR post-processing of
      [campus-access-control/offline_id_card_recognizer.py]
      ([is_valid_name], [normalize_department], [parse_id_card_data],
      [extract_photo_region]).
    - [Plates]: the plate reader of
      [campus-access-control/vehicle_plate_recognizer.py]
      ([extract_text_from_roi], [clean_plate_text], [format_indian_plate],
      [validate_indian_plate], [detect_and_extract]), with the patterns, the
      character corrections and the state codes of [config/config.py].
    - [Verifier]: the field readers of
      [campus-access-control/id_card_verifier.py]
      ([extract_text_from_region], [extract_name], [extract_moodle_id],
      [detect_and_extract_id_card]); [Pipeline]: their detections as the
      driver loop hands them to the matcher.
    - [Saver]: the throttles on saving a card, [save_card_data] of the
      offline recognizer and the auto-save of the verifier.
    - [MatcherSpec], [RegexSpec], [ExtractorSpec], [MatcherLedger],
      [PlatesSpec], [VerifierSpec], [ExtractorMore]: the predicates in which
      the properties are stated.
    - [MatcherFacts], [RegexFacts], [ExtractorFacts], [MatcherLedgerFacts],
      [PlatesFacts], [VerifierFacts], [PipelineFacts], [ExtractorMoreFacts],
      [SaverFacts]: the proofs.

    Conventions.  A Python [dict] whose iteration order matters is an
    association list in insertion order.  A Python exception is a value of
    [exn] carried by [outcome]; the state at the moment of the raise is kept,
    because the mutations done before it are not rolled back.  Wall-clock
    reads ([datetime.now()], [get_timestamp()]) are inputs, in microseconds.
    Console output is left out, except that the arguments of a [print] are
    evaluated.  OCR text is a list of characters, read as Python reads the
    codes 0 to 127; confidences and region fractions are rationals. *)

From Stdlib Require Import ZArith QArith Qround List String Ascii Bool Lia.
From Stdlib Require Import Sorted.
Import ListNotations.

Local Open Scope Z_scope.

(** ** Python dictionaries in insertion order *)

Section Dict.
Context {K V : Type} (keq : K -> K -> bool).

Definition dict := list (K * V).

(** [d[k] = v]: an existing key keeps its position, a new one goes last. *)
Fixpoint dict_set (k : K) (v : V) (d : dict) : dict :=
  match d with
  | [] => [(k, v)]
  | (k', v') :: t =>
      if keq k' k then (k, v) :: t else (k', v') :: dict_set k v t
  end.

(** [d.pop(k)]: [None] stands for the [KeyError] of a missing key. *)
Fixpoint dict_pop (k : K) (d : dict) : option (V * dict) :=
  match d with
  | [] => None
  | (k', v') :: t =>
      if keq k' k then Some (v', t)
      else match dict_pop k t with
           | Some (v, t') => Some (v, (k', v') :: t')
           | None => None
           end
  end.
End Dict.

(** ** Exceptions *)

Inductive exn := AttributeError | KeyError | TypeError.

Inductive outcome (A : Type) :=
| Returned (a : A)
| Raised (e : exn).
Arguments Returned {A} a.
Arguments Raised {A} e.

(** ** The verification matcher *)

Module Matcher.

(** The three settings of [config/config.py] the matcher reads. *)
Record config := {
  REQUIRE_BOTH_VERIFICATIONS : bool;
  ACCESS_TIME_WINDOW : Z;
  SEND_ALERTS : bool
}.

Definition shipped : config :=
  {| REQUIRE_BOTH_VERIFICATIONS := true;
     ACCESS_TIME_WINDOW := 30;
     SEND_ALERTS := true |}.

(** The keys of the detection dictionaries that the matcher looks at.  A
    missing key reads as [None] through [dict.get]; [is_valid] holds the
    truth value of the entry. *)
Record vehicle_data := {
  v_is_valid : bool;
  plate_text : option string
}.

Record id_card_data := {
  c_is_valid : bool;
  moodle_id : option string;
  name : option string
}.

(** A value of [self.pending_verifications]. *)
Record pending_entry := {
  timestamp : Z;
  vehicle : option vehicle_data;
  id_card : option id_card_data
}.

(** A record handed to [save_access_log]: either the dictionary built by
    [match_vehicle_and_id] or an expired pending entry with its two added
    keys (no ['match_status'] then). *)
Record access_record := {
  r_timestamp : Z;
  r_vehicle : option vehicle_data;
  r_id_card : option id_card_data;
  r_match_status : option string;
  r_access_decision : string;
  r_reason : option string
}.

Record stats_t := {
  total_attempts : nat;
  access_granted : nat;
  access_denied : nat;
  vehicle_only : nat;
  id_card_only : nat;
  both_verified : nat
}.

Inductive kind := KVehicle | KIdCard.

(** The key [f"vehicle_{plate_number}_{get_timestamp()}"] (resp. [id_card_]).
    The three parts are kept apart: the ISO timestamp has a fixed shape, so
    the formatted string determines them. *)
Record pending_key := {
  pk_kind : kind;
  pk_text : string;
  pk_time : Z
}.

Definition kind_eqb (a b : kind) : bool :=
  match a, b with
  | KVehicle, KVehicle | KIdCard, KIdCard => true
  | _, _ => false
  end.

Definition key_eqb (a b : pending_key) : bool :=
  kind_eqb (pk_kind a) (pk_kind b)
  && String.eqb (pk_text a) (pk_text b)
  && Z.eqb (pk_time a) (pk_time b).

(** [f"{x}"] of an optional string. *)
Definition fmt (o : option string) : string :=
  match o with
  | Some s => s
  | None => "None"%string
  end.

Record system := {
  pending_verifications : list (pending_key * pending_entry);
  access_log : list access_record;
  alerts : list access_record;
  stats : stats_t
}.

Definition init : system :=
  {| pending_verifications := [];
     access_log := [];
     alerts := [];
     stats := {| total_attempts := 0; access_granted := 0;
                 access_denied := 0; vehicle_only := 0;
                 id_card_only := 0; both_verified := 0 |} |}.

Definition set_pending (s : system) (d : list (pending_key * pending_entry))
  : system :=
  {| pending_verifications := d;
     access_log := access_log s;
     alerts := alerts s;
     stats := stats s |}.

Definition set_stats (s : system) (st : stats_t) : system :=
  {| pending_verifications := pending_verifications s;
     access_log := access_log s;
     alerts := alerts s;
     stats := st |}.

(** Truth value of an optional string: [None] and the empty string are
    false. *)
Definition truthy (o : option string) : bool :=
  match o with
  | Some s => negb (String.eqb s "")
  | None => false
  end.

(** [a == b] on optional strings. *)
Definition opt_eqb (a b : option string) : bool :=
  match a, b with
  | Some x, Some y => String.eqb x y
  | None, None => true
  | _, _ => false
  end.

(** [timedelta.seconds]: the seconds field of the normalised difference
    (days, seconds, microseconds), between 0 and 86399. *)
Definition timedelta_seconds (d : Z) : Z :=
  (d mod (86400 * 1000000)) / 1000000.

(** [x and x.get('is_valid', False)] as a truth value. *)
Definition vehicle_valid (v : option vehicle_data) : bool :=
  match v with
  | Some d => v_is_valid d
  | None => false
  end.

Definition id_card_valid (c : option id_card_data) : bool :=
  match c with
  | Some d => c_is_valid d
  | None => false
  end.

Definition bump (b : bool) (n : nat) : nat := if b then S n else n.

(** [match_vehicle_and_id]; [ts] is its [get_timestamp()]. *)
Definition match_vehicle_and_id (cfg : config) (ts : Z)
    (vehicle_data0 : option vehicle_data) (id_card_data0 : option id_card_data)
    (st : stats_t) : access_record * stats_t :=
  let vv := vehicle_valid vehicle_data0 in
  let iv := id_card_valid id_card_data0 in
  let mk status decision reason :=
    {| r_timestamp := ts;
       r_vehicle := vehicle_data0;
       r_id_card := id_card_data0;
       r_match_status := Some status;
       r_access_decision := decision;
       r_reason := reason |} in
  if REQUIRE_BOTH_VERIFICATIONS cfg then
    if vv && iv then
      (mk "matched"%string "granted"%string None,
       {| total_attempts := S (total_attempts st);
          access_granted := S (access_granted st);
          access_denied := access_denied st;
          vehicle_only := vehicle_only st;
          id_card_only := id_card_only st;
          both_verified := S (both_verified st) |})
    else
      (mk "incomplete"%string "denied"%string
          (Some "Both vehicle and ID card required"%string),
       {| total_attempts := S (total_attempts st);
          access_granted := access_granted st;
          access_denied := S (access_denied st);
          vehicle_only := vehicle_only st;
          id_card_only := id_card_only st;
          both_verified := both_verified st |})
  else
    if vv || iv then
      (mk "partial"%string "granted"%string None,
       {| total_attempts := S (total_attempts st);
          access_granted := S (access_granted st);
          access_denied := access_denied st;
          vehicle_only := bump (vv && negb iv) (vehicle_only st);
          id_card_only := bump (negb (vv && negb iv) && (iv && negb vv))
                               (id_card_only st);
          both_verified := both_verified st |})
    else
      (mk "failed"%string "denied"%string
          (Some "No valid identification"%string),
       {| total_attempts := S (total_attempts st);
          access_granted := access_granted st;
          access_denied := S (access_denied st);
          vehicle_only := vehicle_only st;
          id_card_only := id_card_only st;
          both_verified := both_verified st |}).

(** [save_access_log]: the in-memory log and, for a denied record when
    alerts are on, [send_alert].  The JSON and text files mirror the two
    lists. *)
Definition save_access_log (cfg : config) (r : access_record) (s : system)
  : system :=
  {| pending_verifications := pending_verifications s;
     access_log := (access_log s ++ [r])%list;
     alerts :=
       if SEND_ALERTS cfg && String.eqb (r_access_decision r) "denied"
       then (alerts s ++ [r])%list else alerts s;
     stats := stats s |}.

(** An expired entry after [expired['access_decision'] = 'denied'] and
    [expired['reason'] = 'Verification timeout']. *)
Definition expire_record (e : pending_entry) : access_record :=
  {| r_timestamp := timestamp e;
     r_vehicle := vehicle e;
     r_id_card := id_card e;
     r_match_status := None;
     r_access_decision := "denied"%string;
     r_reason := Some "Verification timeout"%string |}.

(** [pending.get('id_card', {}).get('moodle_id')]: the key ['id_card'] is
    always present, so the default [{}] is never used and a [None] value
    has no [get]. *)
Definition pending_moodle_id (p : pending_entry) : outcome (option string) :=
  match id_card p with
  | Some c => Returned (moodle_id c)
  | None => Raised AttributeError
  end.

Definition pending_plate_text (p : pending_entry) : outcome (option string) :=
  match vehicle p with
  | Some v => Returned (plate_text v)
  | None => Raised AttributeError
  end.

Definition pending_name (p : pending_entry) : outcome (option string) :=
  match id_card p with
  | Some c => Returned (name c)
  | None => Raised AttributeError
  end.

(** [self.pending_verifications.pop(key)] inside the loop. *)
Definition pop_pending (key : pending_key) (s : system)
  : outcome (pending_entry * system) :=
  match dict_pop key_eqb key (pending_verifications s) with
  | Some (e, d) => Returned (e, set_pending s d)
  | None => Raised KeyError
  end.

(** The loop of [check_pending_verification] over the snapshot
    [list(self.pending_verifications.items())]. *)
Fixpoint scan (cfg : config) (current_time : Z)
    (moodle plate : option string)
    (items : list (pending_key * pending_entry)) (s : system)
  : system * outcome (option pending_entry) :=
  match items with
  | [] => (s, Returned None)
  | (key, pending) :: rest =>
      if ACCESS_TIME_WINDOW cfg
           <? timedelta_seconds (current_time - timestamp pending)
      then
        match pop_pending key s with
        | Raised e => (s, Raised e)
        | Returned (expired, s1) =>
            scan cfg current_time moodle plate rest
                 (save_access_log cfg (expire_record expired) s1)
        end
      else
        let try_plate :=
          if truthy plate then
            match pending_plate_text pending with
            | Raised e => (s, Raised e)
            | Returned p =>
                if opt_eqb p plate then
                  match pop_pending key s with
                  | Raised e => (s, Raised e)
                  | Returned (found, s1) => (s1, Returned (Some found))
                  end
                else scan cfg current_time moodle plate rest s
            end
          else scan cfg current_time moodle plate rest s in
        if truthy moodle then
          match pending_moodle_id pending with
          | Raised e => (s, Raised e)
          | Returned m =>
              if opt_eqb m moodle then
                match pop_pending key s with
                | Raised e => (s, Raised e)
                | Returned (found, s1) => (s1, Returned (Some found))
                end
              else try_plate
          end
        else try_plate
  end.

Definition check_pending_verification (cfg : config) (current_time : Z)
    (moodle plate : option string) (s : system)
  : system * outcome (option pending_entry) :=
  scan cfg current_time moodle plate (pending_verifications s) s.

(** The clock reads of one call: [now] is the [datetime.now()] of
    [check_pending_verification]; [ts1] and [ts2] are the next two
    [get_timestamp()] reads (the record's timestamp on a match; the key and
    the entry's timestamp when the observation is parked). *)
Record clock := {
  now : Z;
  ts1 : Z;
  ts2 : Z
}.

Definition store_pending (k : pending_key) (e : pending_entry) (s : system)
  : system :=
  set_pending s (dict_set key_eqb k e (pending_verifications s)).

Definition process_vehicle_detection (cfg : config) (clk : clock)
    (vehicle_data0 : option vehicle_data) (s : system)
  : system * outcome unit :=
  match vehicle_data0 with
  | None => (s, Returned tt)
  | Some vd =>
      if negb (v_is_valid vd) then (s, Returned tt)
      else
        let plate_number := plate_text vd in
        match check_pending_verification cfg (now clk) None plate_number s with
        | (s1, Raised e) => (s1, Raised e)
        | (s1, Returned (Some pending)) =>
            let pending :=
              {| timestamp := timestamp pending;
                 vehicle := Some vd;
                 id_card := id_card pending |} in
            let '(result, st) :=
              match_vehicle_and_id cfg (ts1 clk) (Some vd) (id_card pending)
                                   (stats s1) in
            let s2 := save_access_log cfg result (set_stats s1 st) in
            match pending_name pending with
            | Raised e => (s2, Raised e)
            | Returned _ => (s2, Returned tt)
            end
        | (s1, Returned None) =>
            let pending_key0 :=
              {| pk_kind := KVehicle;
                 pk_text := fmt plate_number;
                 pk_time := ts1 clk |} in
            (store_pending pending_key0
               {| timestamp := ts2 clk;
                  vehicle := Some vd;
                  id_card := None |} s1,
             Returned tt)
        end
  end.

Definition process_id_card_detection (cfg : config) (clk : clock)
    (id_card_data0 : option id_card_data) (s : system)
  : system * outcome unit :=
  match id_card_data0 with
  | None => (s, Returned tt)
  | Some cd =>
      if negb (c_is_valid cd) then (s, Returned tt)
      else
        let moodle := moodle_id cd in
        match check_pending_verification cfg (now clk) moodle None s with
        | (s1, Raised e) => (s1, Raised e)
        | (s1, Returned (Some pending)) =>
            let pending :=
              {| timestamp := timestamp pending;
                 vehicle := vehicle pending;
                 id_card := Some cd |} in
            let '(result, st) :=
              match_vehicle_and_id cfg (ts1 clk) (vehicle pending) (Some cd)
                                   (stats s1) in
            let s2 := save_access_log cfg result (set_stats s1 st) in
            match pending_plate_text pending with
            | Raised e => (s2, Raised e)
            | Returned _ => (s2, Returned tt)
            end
        | (s1, Returned None) =>
            let pending_key0 :=
              {| pk_kind := KIdCard;
                 pk_text := fmt moodle;
                 pk_time := ts1 clk |} in
            (store_pending pending_key0
               {| timestamp := ts2 clk;
                  vehicle := None;
                  id_card := Some cd |} s1,
             Returned tt)
        end
  end.

(** Observations as the driver loops feed them, each with its clock reads. *)
Inductive observation :=
| ObsVehicle (v : vehicle_data)
| ObsIdCard (c : id_card_data).

Definition observe (cfg : config) (ev : clock * observation) (s : system)
  : system * outcome unit :=
  match snd ev with
  | ObsVehicle v => process_vehicle_detection cfg (fst ev) (Some v) s
  | ObsIdCard c => process_id_card_detection cfg (fst ev) (Some c) s
  end.

(** The state after a sequence of observations, whether or not a caller that
    catches the exception of one goes on with the next. *)
Fixpoint run (cfg : config) (evs : list (clock * observation)) (s : system)
  : system :=
  match evs with
  | [] => s
  | ev :: rest => run cfg rest (fst (observe cfg ev s))
  end.

(** The scenario of the specification. *)
Definition seconds (n : Z) : Z := n * 1000000.

Definition at_time (t : Z) : clock := {| now := t; ts1 := t; ts2 := t |}.

Definition car_MH12 : vehicle_data :=
  {| v_is_valid := true; plate_text := Some "MH12AB1234"%string |}.

Definition card_JOHN : id_card_data :=
  {| c_is_valid := true;
     moodle_id := Some "20230001"%string;
     name := Some "JOHN SMITH"%string |}.

End Matcher.

(** ** Text: characters, [str] methods and the regular expressions of [re] *)

Module Text.

Local Open Scope nat_scope.

Definition text := list ascii.

(** A string literal as a text. *)
Definition T (s : string) : text := list_ascii_of_string s.

Definition code (c : ascii) : nat := nat_of_ascii c.

(** The characters the model covers: the classes and case maps below are
    those of Python on the codes 0 to 127. *)
Definition seven_bit (t : text) : bool :=
  forallb (fun c => code c <? 128) t.

Definition between (lo hi : nat) (c : ascii) : bool :=
  (lo <=? code c) && (code c <=? hi).

(** [\d] and [str.isdigit] on 7-bit characters. *)
Definition is_digit (c : ascii) : bool := between 48 57 c.

(** [A-Z] and [a-z]. *)
Definition is_upper (c : ascii) : bool := between 65 90 c.
Definition is_lower (c : ascii) : bool := between 97 122 c.

(** [str.isalpha] on 7-bit characters. *)
Definition is_alpha (c : ascii) : bool := is_upper c || is_lower c.

(** [\s], [str.isspace] and the characters removed by [str.strip()]: tab to
    carriage return, the four separators 28 to 31, and the space. *)
Definition is_space (c : ascii) : bool :=
  between 9 13 c || between 28 32 c.

(** [\w] on 7-bit characters: letters, digits and the underscore. *)
Definition is_word (c : ascii) : bool :=
  is_alpha c || is_digit c || (code c =? 95).

Definition upper_char (c : ascii) : ascii :=
  if is_lower c then ascii_of_nat (code c - 32) else c.

Definition lower_char (c : ascii) : ascii :=
  if is_upper c then ascii_of_nat (code c + 32) else c.

Definition upper (t : text) : text := map upper_char t.
Definition lower (t : text) : text := map lower_char t.

Fixpoint lstrip (t : text) : text :=
  match t with
  | c :: r => if is_space c then lstrip r else t
  | [] => []
  end.

Definition rstrip (t : text) : text := rev (lstrip (rev t)).

(** [str.strip()]. *)
Definition strip (t : text) : text := rstrip (lstrip t).

(** [str.split()]: the maximal runs of non-space characters. *)
Fixpoint split_ws_aux (cur : text) (t : text) : list text :=
  match t with
  | [] => match cur with [] => [] | _ => [rev cur] end
  | c :: r =>
      if is_space c
      then match cur with
           | [] => split_ws_aux [] r
           | _ => rev cur :: split_ws_aux [] r
           end
      else split_ws_aux (c :: cur) r
  end.

Definition split_ws (t : text) : list text := split_ws_aux [] t.

Fixpoint text_eqb (a b : text) : bool :=
  match a, b with
  | [], [] => true
  | x :: a', y :: b' => Ascii.eqb x y && text_eqb a' b'
  | _, _ => false
  end.

Fixpoint starts_with (p t : text) : bool :=
  match p, t with
  | [], _ => true
  | x :: p', y :: t' => Ascii.eqb x y && starts_with p' t'
  | _ :: _, [] => false
  end.

(** [needle in hay]. *)
Fixpoint contains (needle hay : text) : bool :=
  starts_with needle hay
  || match hay with
     | [] => false
     | _ :: r => contains needle r
     end.

(** [sep.join(parts)]. *)
Fixpoint join (sep : text) (parts : list text) : text :=
  match parts with
  | [] => []
  | [p] => p
  | p :: rest => p ++ sep ++ join sep rest
  end.

(** *** A backtracking matcher for the fragment of [re] the source uses

    Repetition is over a character class only, which is all the patterns
    need, and is greedy.  The matcher works on a cursor into the text (the
    characters before it, nearest first, and those after it) and passes every
    way of matching to its continuation in the order [re] tries them. *)

Inductive regex :=
| Eps
| Chr (p : ascii -> bool)
| Rep (lo : nat) (hi : option nat) (p : ascii -> bool)
| Seq (a b : regex)
| Alt (a b : regex)
| Group (r : regex)
| WordB.

Record cursor := {
  before : text;
  after : text;
  group1 : option text
}.

Definition below (hi : option nat) (n : nat) : bool :=
  match hi with
  | Some h => n <? h
  | None => true
  end.

(** Greedy [p{lo,hi}], having taken [n] characters already. *)
Fixpoint rep {A : Type} (p : ascii -> bool) (lo : nat) (hi : option nat)
    (n : nat) (bef aft : text) (g : option text)
    (k : cursor -> option A) : option A :=
  let stop :=
    if lo <=? n
    then k {| before := bef; after := aft; group1 := g |}
    else None in
  match aft with
  | c :: t =>
      if p c && below hi n
      then match rep p lo hi (S n) (c :: bef) t g k with
           | Some r => Some r
           | None => stop
           end
      else stop
  | [] => stop
  end.

(** [\b]: exactly one of the two neighbours is a word character. *)
Definition at_boundary (bef aft : text) : bool :=
  xorb (match bef with c :: _ => is_word c | [] => false end)
       (match aft with c :: _ => is_word c | [] => false end).

Fixpoint rmatch {A : Type} (r : regex) (s : cursor)
    (k : cursor -> option A) : option A :=
  match r with
  | Eps => k s
  | Chr p =>
      match after s with
      | c :: t =>
          if p c
          then k {| before := c :: before s; after := t;
                    group1 := group1 s |}
          else None
      | [] => None
      end
  | Rep lo hi p => rep p lo hi 0 (before s) (after s) (group1 s) k
  | Seq a b => rmatch a s (fun s1 => rmatch b s1 k)
  | Alt a b =>
      match rmatch a s k with
      | Some x => Some x
      | None => rmatch b s k
      end
  | Group r1 =>
      rmatch r1 s (fun s1 =>
        k {| before := before s1; after := after s1;
             group1 :=
               Some (rev (firstn (List.length (before s1)
                                  - List.length (before s))
                                 (before s1))) |})
  | WordB => if at_boundary (before s) (after s) then k s else None
  end.

(** A match: where it starts and the cursor at its end. *)
Record re_match := {
  m_start : nat;
  m_end : cursor
}.

Fixpoint search_from (r : regex) (bef aft : text) : option re_match :=
  match rmatch r {| before := bef; after := aft; group1 := None |} Some with
  | Some e => Some {| m_start := List.length bef; m_end := e |}
  | None =>
      match aft with
      | [] => None
      | c :: t => search_from r (c :: bef) t
      end
  end.

(** [re.search(pattern, text)]. *)
Definition re_search (r : regex) (t : text) : option re_match :=
  search_from r [] t.

(** [match.group(1)]. *)
Definition group (m : re_match) : option text := group1 (m_end m).

(** [match.group(0)]. *)
Definition group0 (m : re_match) : text :=
  rev (firstn (List.length (before (m_end m)) - m_start m) (before (m_end m))).

(** [re.finditer(pattern, text)]: the matches from left to right, each
    search resuming where the previous match ended ([skip] characters
    further on). *)
Fixpoint finditer_from (r : regex) (skip : nat) (bef aft : text)
  : list re_match :=
  match skip with
  | S n =>
      match aft with
      | [] => []
      | c :: t => finditer_from r n (c :: bef) t
      end
  | 0 =>
      match rmatch r {| before := bef; after := aft; group1 := None |} Some
      with
      | Some e =>
          {| m_start := List.length bef; m_end := e |}
          :: match aft with
             | [] => []
             | c :: t =>
                 finditer_from r (List.length (before e) - List.length bef - 1)
                               (c :: bef) t
             end
      | None =>
          match aft with
          | [] => []
          | c :: t => finditer_from r 0 (c :: bef) t
          end
      end
  end.

Definition re_finditer (r : regex) (t : text) : list re_match :=
  finditer_from r 0 [] t.

(** Pattern builders. *)
Definition is_char (x : ascii) (c : ascii) : bool := Ascii.eqb c x.

(** A literal character under [re.IGNORECASE]. *)
Definition is_char_i (x : ascii) (c : ascii) : bool :=
  Ascii.eqb (lower_char c) (lower_char x).

Fixpoint lit (t : text) : regex :=
  match t with
  | [] => Eps
  | c :: r => Seq (Chr (is_char c)) (lit r)
  end.

Fixpoint lit_i (t : text) : regex :=
  match t with
  | [] => Eps
  | c :: r => Seq (Chr (is_char_i c)) (lit_i r)
  end.

Definition star (p : ascii -> bool) : regex := Rep 0 None p.
Definition plus (p : ascii -> bool) : regex := Rep 1 None p.
Definition times (n : nat) (p : ascii -> bool) : regex := Rep n (Some n) p.

Fixpoint seq (rs : list regex) : regex :=
  match rs with
  | [] => Eps
  | [r] => r
  | r :: rest => Seq r (seq rest)
  end.

End Text.

(** ** The field extractor of the offline ID-card recognizer *)

Module Extractor.

Import Text.

Local Open Scope nat_scope.

Definition colon_or_space (c : ascii) : bool := is_char ":" c || is_space c.
Definition upper_or_space (c : ascii) : bool := is_upper c || is_space c.
Definition alpha_or_space (c : ascii) : bool := is_alpha c || is_space c.
Definition dash_or_slash (c : ascii) : bool := is_char "-" c || is_char "/" c.

(** [moodle_patterns], all searched with [re.IGNORECASE]:
    [ID\s*NO[:\s]*(\d{8})], [ID[:\s]*(\d{8})] and [\b(2\d{7})\b]. *)
Definition pat_id_no : regex :=
  seq [lit_i (T "ID"); star is_space; lit_i (T "NO"); star colon_or_space;
       Group (times 8 is_digit)].

Definition pat_id : regex :=
  seq [lit_i (T "ID"); star colon_or_space; Group (times 8 is_digit)].

Definition pat_moodle : regex :=
  seq [WordB; Group (Seq (Chr (is_char_i "2")) (times 7 is_digit)); WordB].

Definition moodle_patterns : list regex := [pat_id_no; pat_id; pat_moodle].

(** The fallback [\b(\d{8})\b]. *)
Definition pat_any8 : regex := seq [WordB; Group (times 8 is_digit); WordB].

(** The loop over [moodle_patterns] with its [break]. *)
Fixpoint first_group (pats : list regex) (t : text) : option text :=
  match pats with
  | [] => None
  | p :: rest =>
      match re_search p t with
      | Some m => group m
      | None => first_group rest t
      end
  end.

(** [not x] for an optional text. *)
Definition falsy (o : option text) : bool :=
  match o with
  | None | Some [] => true
  | Some (_ :: _) => false
  end.

Definition extract_moodle_id (all_text : text) : option text :=
  let found := first_group moodle_patterns all_text in
  if falsy found then
    match re_search pat_any8 all_text with
    | Some m => group m
    | None => found
    end
  else found.

(** [self.invalid_name_patterns]. *)
Definition invalid_name_patterns : list text :=
  map T ["apsit"; "engineering"; "comp"; "engineer"; "technology";
         "institute"; "department"; "mech"; "civil"; "elect";
         "principal"; "charitable"; "trust"; "address"; "addross";
         "shah"; "parshvanalh"]%string.

Definition is_vowel (c : ascii) : bool :=
  existsb (Ascii.eqb c) (T "aeiou").

Definition vowel_count (t : text) : nat := List.length (filter is_vowel t).

(** [is_valid_name].  The last test [vowel_count / len < 0.2] divides two
    small integers in floating point; the quotient is below the double 0.2
    exactly when [5 * vowel_count < len], which is what is computed here. *)
Definition is_valid_name (t : text) : bool :=
  let text_clean := upper (strip t) in
  let text_lower := lower text_clean in
  if negb (forallb (fun c => is_alpha c || is_space c) text_clean) then false
  else if (List.length text_clean <? 6) || (30 <? List.length text_clean)
  then false
  else if existsb (fun pat => contains pat text_lower) invalid_name_patterns
  then false
  else if negb (existsb (Ascii.eqb " ") text_clean)
          && (List.length text_clean <? 8)
  then false
  else if match split_ws text_clean with
          | [w] => List.length w <? 8
          | _ => false
          end
  then false
  else if (0 <? List.length text_clean)
          && (5 * vowel_count text_lower <? List.length text_clean)
  then false
  else true.

(** [name_patterns]: [([A-Z][A-Z\s]{10,50})] and
    [Name[:\s]+([A-Z][A-Za-z\s]+)]. *)
Definition pat_name_caps : regex :=
  Group (Seq (Chr is_upper) (Rep 10 (Some 50) upper_or_space)).

Definition pat_name_label : regex :=
  seq [lit (T "Name"); plus colon_or_space;
       Group (Seq (Chr is_upper) (plus alpha_or_space))].

Definition name_patterns : list regex := [pat_name_caps; pat_name_label].

Definition group_text (m : re_match) : text :=
  match group m with
  | Some g => g
  | None => []
  end.

(** The nested loops that fill [name_candidates]. *)
Definition name_candidates (all_text : text) : list text :=
  flat_map
    (fun p =>
       filter is_valid_name
              (map (fun m => strip (group_text m)) (re_finditer p all_text)))
    name_patterns.

(** [max(xs, key=len)] keeps the first of the longest. *)
Fixpoint max_by_len (best : text) (xs : list text) : text :=
  match xs with
  | [] => best
  | x :: rest =>
      if List.length best <? List.length x
      then max_by_len x rest
      else max_by_len best rest
  end.

Definition extract_name (all_text : text) : option text :=
  match name_candidates all_text with
  | [] => None
  | x :: rest => Some (max_by_len x rest)
  end.

(** [self.valid_departments], in the order of the dictionary literal. *)
Definition valid_departments : list (text * text) :=
  [(T "computer", T "COMPUTER ENGINEERING");
   (T "mechanical", T "MECHANICAL ENGINEERING");
   (T "civil", T "CIVIL ENGINEERING");
   (T "electrical", T "ELECTRICAL ENGINEERING");
   (T "electronics", T "ELECTRONICS ENGINEERING");
   (T "information", T "INFORMATION TECHNOLOGY");
   (T "it", T "INFORMATION TECHNOLOGY")].

Fixpoint first_keyword (table : list (text * text)) (text_lower : text)
  : option text :=
  match table with
  | [] => None
  | (keyword, standard_name) :: rest =>
      if contains keyword text_lower then Some standard_name
      else first_keyword rest text_lower
  end.

Definition normalize_department (t : text) : option text :=
  let text_lower := lower t in
  match first_keyword valid_departments text_lower with
  | Some standard_name => Some standard_name
  | None =>
      if contains (T "engineer") text_lower || contains (T "engin") text_lower
      then
        if contains (T "compu") text_lower || contains (T "comp") text_lower
        then Some (T "COMPUTER ENGINEERING")
        else if contains (T "mech") text_lower
        then Some (T "MECHANICAL ENGINEERING")
        else if contains (T "civil") text_lower
        then Some (T "CIVIL ENGINEERING")
        else if contains (T "elect") text_lower
        then Some (T "ELECTRICAL ENGINEERING")
        else if contains (T "electron") text_lower
        then Some (T "ELECTRONICS ENGINEERING")
        else if contains (T "info") text_lower || contains (T "it") text_lower
        then Some (T "INFORMATION TECHNOLOGY")
        else None
      else None
  end.

Definition dept_keywords : list text :=
  map T ["COMPUTER ENGINEERING"; "MECHANICAL ENGINEERING";
         "CIVIL ENGINEERING"; "ELECTRICAL ENGINEERING";
         "ELECTRONICS ENGINEERING"; "INFORMATION TECHNOLOGY";
         "IT"; "CSE"; "ECE"; "EEE";
         "COMPUTER"; "MECHANICAL"; "CIVIL"; "ELECTRICAL";
         "ELECTRONICS"]%string.

(** The department loop: the [break] is taken only when the normalised
    name is a non-empty string. *)
Fixpoint find_department (keywords : list text) (all_text : text)
  : option text :=
  match keywords with
  | [] => None
  | keyword :: rest =>
      if contains keyword (upper all_text) then
        match normalize_department keyword with
        | Some (c :: n) => Some (c :: n)
        | _ => find_department rest all_text
        end
      else find_department rest all_text
  end.

Definition extract_department (all_text : text) : option text :=
  find_department dept_keywords all_text.

Definition institute_keywords : list text :=
  map T ["INSTITUTE"; "COLLEGE"; "UNIVERSITY"; "TECHNOLOGY"]%string.

(** The pattern built around [keyword]: a capturing group holding the
    keyword between two greedy runs of capitals and spaces. *)
Definition pat_institute (keyword : text) : regex :=
  Group (seq [star upper_or_space; lit keyword; star upper_or_space]).

Fixpoint find_institute (keywords : list text) (all_text : text)
  : option text :=
  match keywords with
  | [] => None
  | keyword :: rest =>
      if contains keyword (upper all_text) then
        match re_search (pat_institute keyword) (upper all_text) with
        | Some m => Some (strip (group_text m))
        | None => find_institute rest all_text
        end
      else find_institute rest all_text
  end.

(** [20\d{2}[-/]20\d{2}|20\d{2}]. *)
Definition pat_year : regex :=
  Alt (seq [lit (T "20"); times 2 is_digit; Chr dash_or_slash;
            lit (T "20"); times 2 is_digit])
      (seq [lit (T "20"); times 2 is_digit]).

Definition extract_academic_year (all_text : text) : option text :=
  match re_search pat_year all_text with
  | Some m => Some (group0 m)
  | None => None
  end.

(** *** The photo region *)

(** A value of [ID_CARD_REGIONS]: the shipped file has 4-tuples, the reader
    in [extract_photo_region] expects a dictionary with string keys.
    Fractions are rationals. *)
Inductive region :=
| RegionTuple (xs : list Q)
| RegionDict (d : list (string * Q)).

Definition ID_CARD_REGIONS : list (string * region) :=
  [("photo"%string, RegionTuple [0.25; 0.15; 0.75; 0.50]%Q);
   ("name"%string, RegionTuple [0.1; 0.52; 0.9; 0.62]%Q);
   ("department"%string, RegionTuple [0.1; 0.63; 0.9; 0.73]%Q);
   ("moodle_id"%string, RegionTuple [0.1; 0.80; 0.7; 0.92]%Q)].

Fixpoint lookup {V : Type} (k : string) (d : list (string * V)) : outcome V :=
  match d with
  | [] => Raised KeyError
  | (k', v) :: rest => if String.eqb k' k then Returned v else lookup k rest
  end.

(** [r[k]] for a string [k]: a tuple takes integer indices only. *)
Definition subscript (r : region) (k : string) : outcome Q :=
  match r with
  | RegionTuple _ => Raised TypeError
  | RegionDict d => lookup k d
  end.

Definition bind {A B : Type} (x : outcome A) (f : A -> outcome B)
  : outcome B :=
  match x with
  | Returned a => f a
  | Raised e => Raised e
  end.

Notation "x <- e ;; k" := (bind e (fun x => k))
  (at level 61, e at next level, right associativity).

(** An image by its shape: rows, columns and values per pixel. *)
Record image := {
  img_h : Z;
  img_w : Z;
  img_c : Z
}.

(** [int(q)]: truncation towards zero. *)
Definition py_int (q : Q) : Z :=
  if Qle_bool 0 q then Qfloor q else Qceiling q.

(** The bound of a slice of a sequence of length [n]. *)
Definition slice_bound (n i : Z) : Z :=
  if (i <? 0)%Z then Z.max 0 (i + n) else Z.min i n.

Definition slice_len (n a b : Z) : Z :=
  Z.max 0 (slice_bound n b - slice_bound n a).

(** [photo.size]. *)
Definition size (p : image) : Z := (img_h p * img_w p * img_c p)%Z.

(** The body of the [try] block. *)
Definition photo_region_body (regions : list (string * region))
    (card_image : option image) : outcome image :=
  im <- match card_image with
        | Some im => Returned im
        | None => Raised AttributeError
        end ;;
  let h := inject_Z (img_h im) in
  let w := inject_Z (img_w im) in
  let field k := (r <- lookup "photo"%string regions ;; subscript r k) in
  px <- field "x"%string ;;
  let x1 := py_int (w * px) in
  py <- field "y"%string ;;
  let y1 := py_int (h * py) in
  px' <- field "x"%string ;;
  pw <- field "width"%string ;;
  let x2 := py_int (w * (px' + pw)) in
  py' <- field "y"%string ;;
  ph <- field "height"%string ;;
  let y2 := py_int (h * (py' + ph)) in
  Returned {| img_h := slice_len (img_h im) y1 y2;
              img_w := slice_len (img_w im) x1 x2;
              img_c := img_c im |}.

(** [extract_photo_region]: any exception of the body is caught and turned
    into [None]. *)
Definition extract_photo_region (regions : list (string * region))
    (card_image : option image) : option image :=
  match photo_region_body regions card_image with
  | Returned photo => Some photo
  | Raised _ => None
  end.

(** *** [parse_id_card_data] *)

(** One OCR result [(bbox, text, confidence)]; the box is not read. *)
Record ocr_result := {
  o_text : text;
  o_confidence : Q
}.

Record card_data := {
  moodle_id : option text;
  name : option text;
  department : option text;
  institute : option text;
  academic_year : option text;
  raw_text : text;
  confidence : Q;
  photo_extracted : bool
}.

Definition average (qs : list Q) : Q :=
  match qs with
  | [] => 0%Q
  | _ => (fold_left Qplus qs 0 / inject_Z (Z.of_nat (List.length qs)))%Q
  end.

Definition parse_id_card_data (regions : list (string * region))
    (ocr_results : list ocr_result) (card_image : option image)
  : card_data * option image :=
  let all_text := join (T " ") (map o_text ocr_results) in
  let photo := extract_photo_region regions card_image in
  ({| moodle_id := extract_moodle_id all_text;
      name := extract_name all_text;
      department := extract_department all_text;
      institute := find_institute institute_keywords all_text;
      academic_year := extract_academic_year all_text;
      raw_text := all_text;
      confidence := average (map o_confidence ocr_results);
      photo_extracted :=
        match photo with
        | Some p => (0 <? size p)%Z
        | None => false
        end |},
   photo).

End Extractor.

(** * The vocabulary of the statements *)

(** ** About the matcher *)

Module MatcherSpec.

Import Matcher.

Local Open Scope Z_scope.

Definition car_KA01 : vehicle_data :=
  {| v_is_valid := true; plate_text := Some "KA01CD5678"%string |}.

(** The state after the vehicle of the scenario has been seen at t = 0. *)
Definition after_car : system :=
  fst (process_vehicle_detection shipped (at_time 0) (Some car_MH12) init).

Definition entry_MH12 : pending_entry :=
  {| timestamp := 0; vehicle := Some car_MH12; id_card := None |}.

Definition entry_KA01 : pending_entry :=
  {| timestamp := seconds 20; vehicle := Some car_KA01; id_card := None |}.

Definition sample_run : list (clock * observation) :=
  [(at_time 0, ObsVehicle car_MH12);
   (at_time (seconds 5), ObsVehicle car_KA01);
   (at_time (seconds 7), ObsVehicle car_MH12)].

Definition two_cars : list (clock * observation) :=
  [(at_time 0, ObsVehicle car_MH12);
   (at_time (seconds 20), ObsVehicle car_KA01)].

(** A well-formed observation: when it is valid, it carries its key, a
    non-empty plate string or a non-empty subject identifier.  (Invalid
    observations are dropped by the matcher whatever they carry.) *)
Definition well_formed (o : observation) : Prop :=
  match o with
  | ObsVehicle v => v_is_valid v = true -> truthy (plate_text v) = true
  | ObsIdCard c => c_is_valid c = true -> truthy (moodle_id c) = true
  end.

(** Entries pending under a given plate, or under a given identifier. *)
Definition has_plate (x : string) (ke : pending_key * pending_entry) : bool :=
  match vehicle (snd ke) with
  | Some v => opt_eqb (plate_text v) (Some x)
  | None => false
  end.

Definition has_moodle (x : string) (ke : pending_key * pending_entry) : bool :=
  match id_card (snd ke) with
  | Some c => opt_eqb (moodle_id c) (Some x)
  | None => false
  end.

Definition unique_keys (d : list (pending_key * pending_entry)) : Prop :=
  forall x,
    (List.length (filter (has_plate x) d) <= 1)%nat
    /\ (List.length (filter (has_moodle x) d) <= 1)%nat.

(** [shrinks d d']: [d'] is [d] with some bindings taken out. *)
Definition shrinks (d d' : list (pending_key * pending_entry)) : Prop :=
  (forall f, (List.length (filter f d') <= List.length (filter f d))%nat)
  /\ (NoDup (map fst d) -> NoDup (map fst d')).

(** Not expired at time [t], as the scan tests it. *)
Definition fresh (cfg : config) (t : Z) (e : pending_entry) : Prop :=
  timedelta_seconds (t - timestamp e) <= ACCESS_TIME_WINDOW cfg.

(** Looked at by the scan for [m] and [p] and passed over. *)
Definition checked (cfg : config) (t : Z) (m p : option string)
    (e : pending_entry) : Prop :=
  fresh cfg t e
  /\ (truthy m = true ->
      exists c, id_card e = Some c /\ opt_eqb (moodle_id c) m = false)
  /\ (truthy p = true ->
      exists v, vehicle e = Some v /\ opt_eqb (plate_text v) p = false).

(** Returned by the scan for [m] and [p] as the match. *)
Definition hit (cfg : config) (t : Z) (m p : option string)
    (e : pending_entry) : Prop :=
  fresh cfg t e
  /\ ((truthy m = true
       /\ exists c, id_card e = Some c /\ opt_eqb (moodle_id c) m = true)
      \/ (truthy p = true
          /\ exists v, vehicle e = Some v
                       /\ opt_eqb (plate_text v) p = true)).

(** An entry, or a record, that holds at most one of the two sides. *)
Definition one_sided (e : pending_entry) : bool :=
  match vehicle e, id_card e with
  | Some _, Some _ => false
  | _, _ => true
  end.

Definition record_one_sided (r : access_record) : bool :=
  match r_vehicle r, r_id_card r with
  | Some _, Some _ => false
  | _, _ => true
  end.

Definition car_no_plate : vehicle_data :=
  {| v_is_valid := true; plate_text := Some ""%string |}.

(** The expiry test of the scan, on a binding of the dictionary. *)
Definition expired (cfg : config) (t : Z) (ke : pending_key * pending_entry)
  : bool :=
  ACCESS_TIME_WINDOW cfg <? timedelta_seconds (t - timestamp (snd ke)).

(** The age of an entry at time [t], in whole seconds, is within the window;
    stated for ages from zero up to one day. *)
Definition within_window (cfg : config) (t : Z) (e : pending_entry) : Prop :=
  0 <= t - timestamp e < 86400 * 1000000 ->
  (t - timestamp e) / 1000000 <= ACCESS_TIME_WINDOW cfg.

End MatcherSpec.

(** ** About regular expressions: what it means for a pattern to match *)

Module RegexSpec.

Import Text.

Local Open Scope nat_scope.

(** The upper bound of a repetition. *)
Definition within (hi : option nat) (n : nat) : Prop :=
  match hi with
  | Some h => n <= h
  | None => True
  end.

Definition cur (bef aft : text) (g : option text) : cursor :=
  {| before := bef; after := aft; group1 := g |}.

(** [matches r s s']: read from the cursor [s], the pattern [r] can match the
    characters up to the cursor [s']. *)
Inductive matches : regex -> cursor -> cursor -> Prop :=
| m_eps : forall s, matches Eps s s
| m_chr : forall p c bef aft g,
    p c = true ->
    matches (Chr p)
      {| before := bef; after := c :: aft; group1 := g |}
      {| before := c :: bef; after := aft; group1 := g |}
| m_rep : forall lo hi p x bef aft g,
    Forall (fun c => p c = true) x ->
    lo <= List.length x ->
    within hi (List.length x) ->
    matches (Rep lo hi p)
      {| before := bef; after := x ++ aft; group1 := g |}
      {| before := rev x ++ bef; after := aft; group1 := g |}
| m_seq : forall a b s s1 s2,
    matches a s s1 -> matches b s1 s2 -> matches (Seq a b) s s2
| m_alt_l : forall a b s s1, matches a s s1 -> matches (Alt a b) s s1
| m_alt_r : forall a b s s1, matches b s s1 -> matches (Alt a b) s s1
| m_group : forall r s s1,
    matches r s s1 ->
    matches (Group r) s
      {| before := before s1; after := after s1;
         group1 :=
           Some (rev (firstn (List.length (before s1)
                              - List.length (before s))
                             (before s1))) |}
| m_wordb : forall s,
    at_boundary (before s) (after s) = true -> matches WordB s s.

(** The pattern matches the text [t] at offset [i]. *)
Definition matches_at (r : regex) (t : text) (i : nat) (e : cursor) : Prop :=
  exists pre post,
    t = pre ++ post /\ List.length pre = i
    /\ matches r (cur (rev pre) post None) e.

End RegexSpec.

(** ** About the field extractor *)

Module ExtractorSpec.

Import Text Extractor RegexSpec.

Local Open Scope nat_scope.

(** OCR results whose texts are made of 7-bit characters. *)
Definition plain_ocr (rs : list ocr_result) : Prop :=
  forallb (fun o => seven_bit (o_text o)) rs = true.

Definition labelled_fragment : list ocr_result :=
  [{| o_text := T "A.P. SHAH INSTITUTE"; o_confidence := 0.8 |};
   {| o_text := T "ID NO: 22102003"; o_confidence := 0.9 |}].

(** [n] decimal digits. *)
Definition digits (n : nat) (w : text) : Prop :=
  List.length w = n /\ Forall (fun c => is_digit c = true) w.

(** No word character just before, resp. just after, a place in the text. *)
Definition not_word_at_end (pre : text) : Prop :=
  match rev pre with
  | c :: _ => is_word c = false
  | [] => True
  end.

Definition not_word_at_start (post : text) : Prop :=
  match post with
  | c :: _ => is_word c = false
  | [] => True
  end.

(** An 8-digit number standing on its own at offset [i] of [t]: no letter,
    digit or underscore touches it.  With [lead2] it starts with a 2. *)
Definition standalone (lead2 : bool) (t : text) (i : nat) (w : text) : Prop :=
  exists pre post,
    t = pre ++ w ++ post /\ List.length pre = i
    /\ digits 8 w
    /\ (if lead2 then exists r, w = "2"%char :: r else True)
    /\ not_word_at_end pre /\ not_word_at_start post.

(** The label "ID" in any case at offset [i], then colons and spaces, then
    the 8 digits [w]. *)
Definition labelled_id (t : text) (i : nat) (w : text) : Prop :=
  exists pre l seps post,
    t = pre ++ l ++ seps ++ w ++ post /\ List.length pre = i
    /\ lower l = T "id"
    /\ Forall (fun c => colon_or_space c = true) seps
    /\ digits 8 w.

(** The label "ID NO" in any case at offset [i], with any spaces between
    its two words, then colons and spaces, then the 8 digits [w]. *)
Definition labelled_id_no (t : text) (i : nat) (w : text) : Prop :=
  exists pre l1 ws l2 seps post,
    t = pre ++ l1 ++ ws ++ l2 ++ seps ++ w ++ post /\ List.length pre = i
    /\ lower l1 = T "id"
    /\ Forall (fun c => is_space c = true) ws
    /\ lower l2 = T "no"
    /\ Forall (fun c => colon_or_space c = true) seps
    /\ digits 8 w.

(** The leftmost place where a form occurs, and its absence. *)
Definition leftmost (Q : text -> nat -> text -> Prop) (t w : text) : Prop :=
  exists i, Q t i w /\ forall j w', j < i -> ~ Q t j w'.

Definition nowhere (Q : text -> nat -> text -> Prop) (t : text) : Prop :=
  forall i w, ~ Q t i w.

(** What identifier extraction finds: the digits after the leftmost
    "ID NO" label; failing any, those after the leftmost "ID" label; failing
    any, the leftmost stand-alone 8-digit number that starts with 2; failing
    any, the leftmost stand-alone 8-digit number. *)
Definition id_found (t w : text) : Prop :=
  leftmost labelled_id_no t w
  \/ (nowhere labelled_id_no t /\ leftmost labelled_id t w)
  \/ (nowhere labelled_id_no t /\ nowhere labelled_id t
      /\ leftmost (standalone true) t w)
  \/ (nowhere labelled_id_no t /\ nowhere labelled_id t
      /\ nowhere (standalone true) t
      /\ leftmost (standalone false) t w).

Definition id_absent (t : text) : Prop :=
  nowhere labelled_id_no t /\ nowhere labelled_id t
  /\ nowhere (standalone true) t /\ nowhere (standalone false) t.

(** The filters of [is_valid_name], on the stripped, upper-cased text. *)
Definition valid_name (t : text) : Prop :=
  let u := upper (strip t) in
  Forall (fun c => is_alpha c || is_space c = true) u
  /\ 6 <= List.length u <= 30
  /\ Forall (fun pat => contains pat (lower u) = false) invalid_name_patterns
  /\ (In " "%char u \/ 8 <= List.length u)
  /\ (forall w, split_ws u = [w] -> 8 <= List.length w)
  /\ List.length u <= 5 * vowel_count (lower u).

(** [n] is the first of the longest elements of [xs]. *)
Definition first_longest (xs : list text) (n : text) : Prop :=
  exists pre post,
    xs = pre ++ n :: post
    /\ Forall (fun c => List.length c < List.length n) pre
    /\ Forall (fun c => List.length c <= List.length n) post.

(** The same OCR fragments with other confidences. *)
Definition reweigh (f : ocr_result -> Q) (rs : list ocr_result)
  : list ocr_result :=
  map (fun o => {| o_text := o_text o; o_confidence := f o |}) rs.

Definition three_fragments : list ocr_result :=
  [{| o_text := T "AVANISH VADKE"; o_confidence := 0.99 |};
   {| o_text := T "12345"; o_confidence := 0.9 |};
   {| o_text := T "RAMESH KUMAR SINGH"; o_confidence := 0.4 |}].

(** The values of the normalisation table. *)
Definition canonical_departments : list text :=
  map T ["COMPUTER ENGINEERING"; "MECHANICAL ENGINEERING";
         "CIVIL ENGINEERING"; "ELECTRICAL ENGINEERING";
         "ELECTRONICS ENGINEERING"; "INFORMATION TECHNOLOGY"]%string.

Definition canonical_or_null (d : option text) : Prop :=
  match d with
  | Some x => In x canonical_departments
  | None => True
  end.

End ExtractorSpec.

(** ** About the bookkeeping of the matcher *)

Module MatcherLedger.

Import Matcher MatcherSpec.

(** The decision of a record, and whether the policy produced it (a timeout
    record has no ['match_status']). *)
Definition denied (r : access_record) : bool :=
  String.eqb (r_access_decision r) "denied".

Definition granted (r : access_record) : bool :=
  String.eqb (r_access_decision r) "granted".

Definition from_policy (r : access_record) : bool :=
  match r_match_status r with
  | Some _ => true
  | None => false
  end.

Definition timed_out (r : access_record) : bool := negb (from_policy r).

Definition count {A : Type} (f : A -> bool) (l : list A) : nat :=
  List.length (filter f l).

(** A pending entry that holds a vehicle only, resp. an identity only. *)
Definition vehicle_entry (ke : pending_key * pending_entry) : bool :=
  match vehicle (snd ke), id_card (snd ke) with
  | Some _, None => true
  | _, _ => false
  end.

Definition identity_entry (ke : pending_key * pending_entry) : bool :=
  match vehicle (snd ke), id_card (snd ke) with
  | None, Some _ => true
  | _, _ => false
  end.

(** What a scan leaves behind: a timeout record for each entry of [es], in
    the log and, when alerts are on, among the alerts; the counters are not
    touched. *)
Definition timeouts (cfg : config) (es : list pending_entry)
    (s s' : system) : Prop :=
  access_log s' = (access_log s ++ map expire_record es)%list
  /\ alerts s'
     = (alerts s
        ++ (if SEND_ALERTS cfg then map expire_record es else []))%list
  /\ stats s' = stats s.

(** One evaluation of the policy on a valid observation and nothing on the
    other side. *)
Definition policy_step (cfg : config) (s s' : system) : Prop :=
  exists ts v c,
    ((exists vd, v = Some vd /\ v_is_valid vd = true /\ c = None)
     \/ (exists cd, c = Some cd /\ c_is_valid cd = true /\ v = None))
    /\ let r := fst (match_vehicle_and_id cfg ts v c (stats s)) in
       access_log s' = (access_log s ++ [r])%list
       /\ alerts s'
          = (alerts s ++ (if SEND_ALERTS cfg && denied r then [r] else []))%list
       /\ stats s' = snd (match_vehicle_and_id cfg ts v c (stats s)).

(** The bookkeeping that holds of every reachable state. *)
Definition ledger (cfg : config) (s : system) : Prop :=
  alerts s = (if SEND_ALERTS cfg then filter denied (access_log s) else [])
  /\ total_attempts (stats s) = count from_policy (access_log s)
  /\ access_granted (stats s) = count granted (access_log s)
  /\ (access_granted (stats s) + access_denied (stats s)
      = total_attempts (stats s))%nat
  /\ both_verified (stats s) = 0%nat
  /\ count denied (access_log s)
     = (access_denied (stats s) + count timed_out (access_log s))%nat
  /\ if REQUIRE_BOTH_VERIFICATIONS cfg
     then Forall (fun r => denied r = true) (access_log s)
          /\ access_granted (stats s) = 0%nat
          /\ vehicle_only (stats s) = 0%nat
          /\ id_card_only (stats s) = 0%nat
     else Forall (fun r => from_policy r = granted r) (access_log s)
          /\ access_denied (stats s) = 0%nat
          /\ (vehicle_only (stats s) + id_card_only (stats s)
              = access_granted (stats s))%nat.

(** The pending set holds entries of one kind only. *)
Definition one_kind (d : list (pending_key * pending_entry)) : Prop :=
  Forall (fun ke => vehicle_entry ke = true) d
  \/ Forall (fun ke => identity_entry ke = true) d.

(** A valid observation that carries its key. *)
Definition keyed (o : observation) : Prop :=
  match o with
  | ObsVehicle v => v_is_valid v = true /\ truthy (plate_text v) = true
  | ObsIdCard c => c_is_valid c = true /\ truthy (moodle_id c) = true
  end.

(** The pending entries of the other kind than the observation. *)
Definition other_kind (o : observation) (ke : pending_key * pending_entry)
  : bool :=
  match o with
  | ObsVehicle _ => identity_entry ke
  | ObsIdCard _ => vehicle_entry ke
  end.

(** The two observations of the scenario of the specification. *)
Definition card_at_10 : clock * observation :=
  (at_time (seconds 10), ObsIdCard card_JOHN).

Definition car_at_0 : clock * observation :=
  (at_time 0, ObsVehicle car_MH12).

End MatcherLedger.

(** ** The plate reader of the vehicle recognizer *)

Module Plates.

Import Text.

Local Open Scope nat_scope.

Definition dash_or_space (c : ascii) : bool := is_char "-" c || is_space c.

(** [p?], greedy. *)
Definition maybe (p : ascii -> bool) : regex := Rep 0 (Some 1) p.

(** [INDIAN_PLATE_PATTERNS] of [config/config.py]:
    the standard format, two capitals, two digits, one or two capitals and
    four digits with an optional hyphen or space between the groups; the BH
    series, two digits, "BH", four digits and a capital; and the standard
    format without separators. *)
Definition pat_standard : regex :=
  seq [times 2 is_upper; maybe dash_or_space; times 2 is_digit;
       maybe dash_or_space; Rep 1 (Some 2) is_upper; maybe dash_or_space;
       times 4 is_digit].

Definition pat_bharat : regex :=
  seq [times 2 is_digit; maybe dash_or_space; lit (T "BH");
       maybe dash_or_space; times 4 is_digit; maybe dash_or_space;
       Chr is_upper].

Definition pat_compact : regex :=
  seq [times 2 is_upper; times 2 is_digit; Rep 1 (Some 2) is_upper;
       times 4 is_digit].

Definition INDIAN_PLATE_PATTERNS : list regex :=
  [pat_standard; pat_bharat; pat_compact].

(** [PLATE_CHAR_CORRECTIONS], in the order of the dictionary literal. *)
Definition PLATE_CHAR_CORRECTIONS : list (ascii * ascii) :=
  [("O", "0"); ("I", "1"); ("S", "5"); ("Z", "2"); ("B", "8");
   ("G", "6")]%char.

Definition VALID_STATE_CODES : list text :=
  map T ["AP"; "AR"; "AS"; "BR"; "CG"; "GA"; "GJ"; "HR"; "HP"; "JK"; "JH";
         "KA"; "KL"; "MP"; "MH"; "MN"; "ML"; "MZ"; "NL"; "OD"; "PB"; "RJ";
         "SK"; "TN"; "TS"; "TR"; "UP"; "UK"; "WB"; "AN"; "CH"; "DN"; "DD";
         "DL"; "LD"; "PY"]%string.

(** The doubles written [0.6] and [0.7] in [config/config.py], as the
    rationals they are: the comparisons with a confidence, itself a double,
    are then exact. *)
Definition OCR_CONFIDENCE_THRESHOLD : Q :=
  5404319552844595 # 9007199254740992.

Definition MIN_PLATE_CONFIDENCE : Q :=
  3152519739159347 # 4503599627370496.

(** [re.match(pattern, text)]: a match at the start of the text. *)
Definition re_match (r : regex) (t : text) : option cursor :=
  rmatch r {| before := []; after := t; group1 := None |} Some.

(** [text.replace(old, new)] for one-character strings, and
    [text.replace(old, '')]. *)
Definition replace_char (old new : ascii) (t : text) : text :=
  map (fun c => if Ascii.eqb c old then new else c) t.

Definition remove_char (old : ascii) (t : text) : text :=
  filter (fun c => negb (Ascii.eqb c old)) t.

(** The characters kept by [re.sub(r'[^A-Z0-9\-\s]', '', text)]. *)
Definition plate_char (c : ascii) : bool :=
  is_upper c || is_digit c || is_char "-" c || is_space c.

(** [t[a:b]] for [0 <= a <= b]. *)
Definition slice (a b : nat) (t : text) : text := firstn (b - a) (skipn a t).

Definition format_indian_plate (t : text) : text :=
  let clean := remove_char "-" (remove_char " " t) in
  if 10 <=? List.length clean then
    slice 0 2 clean ++ T "-" ++ slice 2 4 clean ++ T "-"
    ++ slice 4 6 clean ++ T "-" ++ slice 6 10 clean
  else if 9 <=? List.length clean then
    slice 0 2 clean ++ T "-" ++ slice 2 4 clean ++ T "-"
    ++ slice 4 6 clean ++ T "-" ++ skipn 6 clean
  else t.

Definition clean_plate_text (t : text) : text :=
  let t := filter plate_char (upper t) in
  let t := fold_left (fun acc oc => replace_char (fst oc) (snd oc) acc)
                     PLATE_CHAR_CORRECTIONS t in
  let t := join (T " ") (split_ws t) in
  format_indian_plate t.

Definition validate_indian_plate (plate_text : text) : bool :=
  if match plate_text with [] => true | _ => false end
     || (List.length plate_text <? 8)
  then false
  else
    existsb
      (fun pattern =>
         match re_match pattern plate_text with
         | Some _ => existsb (text_eqb (firstn 2 plate_text)) VALID_STATE_CODES
         | None => false
         end)
      INDIAN_PLATE_PATTERNS.

(** [extract_text_from_roi], from the shape of the region and what the OCR
    reader returns for it (its results, or an exception, which is caught).
    The preprocessing of the region, which comes before the [try], is taken
    to return. *)
Definition extract_text_from_roi (roi_h roi_w : Z)
    (ocr : outcome (list Extractor.ocr_result)) : text :=
  if ((roi_h <? 20) || (roi_w <? 20))%Z then []
  else
    match ocr with
    | Raised _ => []
    | Returned results =>
        let text :=
          fold_left
            (fun acc r =>
               if negb (Qle_bool (Extractor.o_confidence r)
                                OCR_CONFIDENCE_THRESHOLD)
               then acc ++ Extractor.o_text r ++ T " " else acc)
            results [] in
        clean_plate_text (strip text)
    end.

(** One box of the detector: its confidence, the shape of its region and
    the OCR reading of the region. *)
Record box := {
  b_confidence : Q;
  b_height : Z;
  b_width : Z;
  b_ocr : outcome (list Extractor.ocr_result)
}.

(** The detection dictionary built for a box, as far as the matcher reads
    it. *)
Definition detection (b : box) : Matcher.vehicle_data :=
  let plate_text := extract_text_from_roi (b_height b) (b_width b) (b_ocr b) in
  {| Matcher.v_is_valid := validate_indian_plate plate_text;
     Matcher.plate_text := Some (string_of_list_ascii plate_text) |}.

(** The detections of [detect_and_extract] for the boxes of a frame. *)
Definition detect_and_extract (boxes : list box) : list Matcher.vehicle_data :=
  map detection
      (filter (fun b => Qle_bool MIN_PLATE_CONFIDENCE (b_confidence b))
              boxes).

End Plates.

(** ** About the plate reader *)

Module PlatesSpec.

Import Text Plates.

Local Open Scope nat_scope.

(** Between [lo] and [hi] characters of a class. *)
Definition run_of (p : ascii -> bool) (lo hi : nat) (w : text) : Prop :=
  lo <= List.length w <= hi /\ Forall (fun c => p c = true) w.

(** The standard format at the start of a text: a state code, two digits,
    a series of one or two capitals and four digits, each group optionally
    followed by one hyphen or space character; anything may follow. *)
Definition standard_form (p : text) : Prop :=
  exists code s1 d1 s2 series s3 d2 rest,
    p = code ++ s1 ++ d1 ++ s2 ++ series ++ s3 ++ d2 ++ rest
    /\ In code VALID_STATE_CODES
    /\ run_of dash_or_space 0 1 s1
    /\ run_of is_digit 2 2 d1
    /\ run_of dash_or_space 0 1 s2
    /\ run_of is_upper 1 2 series
    /\ run_of dash_or_space 0 1 s3
    /\ run_of is_digit 4 4 d2.

(** The letters that [PLATE_CHAR_CORRECTIONS] turns into digits. *)
Definition corrected (c : ascii) : bool :=
  existsb (fun oc => Ascii.eqb c (fst oc)) PLATE_CHAR_CORRECTIONS.

(** The text without its spaces and hyphens, as [format_indian_plate]
    computes it. *)
Definition bare (t : text) : text := remove_char "-" (remove_char " " t).

(** Ten characters that make a plate with a two-letter series. *)
Definition ten_plate (c : text) : Prop :=
  exists code d1 series d2,
    c = code ++ d1 ++ series ++ d2
    /\ In code VALID_STATE_CODES
    /\ run_of is_digit 2 2 d1
    /\ run_of is_upper 2 2 series
    /\ run_of is_digit 4 4 d2.

(** The one shape of a plate text that is both cleaned and valid. *)
Definition normal_plate (p : text) : Prop :=
  exists code d1 series d2,
    p = code ++ T "-" ++ d1 ++ T "-" ++ series ++ T "-" ++ d2
    /\ In code VALID_STATE_CODES
    /\ run_of is_digit 2 2 d1
    /\ run_of is_upper 2 2 series
    /\ run_of is_digit 4 4 d2
    /\ Forall (fun c => corrected c = false) (code ++ series).

(** A character of a cleaned text: a capital that is not corrected, a
    digit, a hyphen or a space. *)
Definition cleaned_char (c : ascii) : bool :=
  (is_upper c && negb (corrected c)) || is_digit c || is_char "-" c
  || is_char " " c.

(** All the corrections applied to one character. *)
Definition correct_char (c : ascii) : ascii :=
  fold_left (fun c oc => if Ascii.eqb c (fst oc) then snd oc else c)
            PLATE_CHAR_CORRECTIONS c.

(** The state codes that contain a corrected letter. *)
Definition lost_state_codes : list text :=
  filter (existsb corrected) VALID_STATE_CODES.

(** A box whose OCR texts are made of 7-bit characters. *)
Definition plain_box (b : box) : Prop :=
  match b_ocr b with
  | Returned rs => ExtractorSpec.plain_ocr rs
  | Raised _ => True
  end.

(** A box of 40 by 120 pixels read as "mh 12" and "cd 1234". *)
Definition sample_box : box :=
  {| b_confidence := 0.9;
     b_height := 40;
     b_width := 120;
     b_ocr := Returned [{| Extractor.o_text := T "mh 12";
                           Extractor.o_confidence := 0.9 |};
                        {| Extractor.o_text := T "cd 1234";
                           Extractor.o_confidence := 0.8 |}] |}.

End PlatesSpec.

(** ** The field readers of the ID-card verifier *)

Module Verifier.

Import Text.

Local Open Scope nat_scope.

(** [MOODLE_ID_PATTERN] of [config/config.py]: a 2 and seven digits. *)
Definition MOODLE_ID_PATTERN : regex :=
  Seq (Chr (is_char "2")) (times 7 is_digit).

(** [extract_text_from_region], from the shape of the region and what the
    OCR reader returns for it (its results, or an exception, which is
    caught).  The preprocessing of the region, which comes before the
    [try], is taken to return. *)
Definition extract_text_from_region (region : Extractor.image)
    (ocr : outcome (list Extractor.ocr_result)) : text :=
  if ((Extractor.size region =? 0) || (Extractor.img_h region <? 10)
      || (Extractor.img_w region <? 10))%Z
  then []
  else
    match ocr with
    | Raised _ => []
    | Returned results =>
        strip
          (fold_left
             (fun acc r =>
                if negb (Qle_bool (Extractor.o_confidence r)
                                  Plates.OCR_CONFIDENCE_THRESHOLD)
                then acc ++ Extractor.o_text r ++ T " " else acc)
             results [])
    end.

(** The cleaning steps of [extract_name], on the text of the name region. *)
Definition extract_name (name : text) : text :=
  let name := join (T " ") (split_ws name) in
  let name := filter (fun c => is_alpha c || is_space c) name in
  strip name.

(** The loop [for i in range(len(digits) - 7)] of [extract_moodle_id], with
    [n] iterations to go and [digits[i:]] at hand. *)
Fixpoint first_candidate (n : nat) (digits : text) : option text :=
  match n, digits with
  | S n', c :: rest =>
      if Ascii.eqb c "2" then
        let candidate := firstn 8 digits in
        if List.length candidate =? 8 then Some candidate
        else first_candidate n' rest
      else first_candidate n' rest
  | _, _ => None
  end.

(** [extract_moodle_id], on the text of the identifier region. *)
Definition extract_moodle_id (t : text) : option text :=
  match re_search MOODLE_ID_PATTERN t with
  | Some m => Some (group0 m)
  | None =>
      let digits := filter is_digit t in
      if 8 <=? List.length digits
      then first_candidate (List.length digits - 7) digits
      else None
  end.

(** The name region and the identifier region of one detected card, as
    [extract_region] cuts them out, and what the OCR reader gives for
    each. *)
Record card_reading := {
  name_region : Extractor.image;
  name_ocr : outcome (list Extractor.ocr_result);
  moodle_region : Extractor.image;
  moodle_ocr : outcome (list Extractor.ocr_result)
}.

(** The dictionary built by [detect_and_extract_id_card] for a card, as far
    as the matcher reads it; [is_valid] is [bool(moodle_id and name)]. *)
Definition card (r : card_reading) : Matcher.id_card_data :=
  let name :=
    extract_name (extract_text_from_region (name_region r) (name_ocr r)) in
  let moodle_id :=
    extract_moodle_id
      (extract_text_from_region (moodle_region r) (moodle_ocr r)) in
  {| Matcher.c_is_valid :=
       negb (Extractor.falsy moodle_id)
       && match name with [] => false | _ => true end;
     Matcher.moodle_id := option_map string_of_list_ascii moodle_id;
     Matcher.name := Some (string_of_list_ascii name) |}.

End Verifier.

(** ** About the ID-card verifier *)

Module VerifierSpec.

Import Text Verifier ExtractorSpec.

Local Open Scope nat_scope.

(** [w] is a 2 followed by seven digits, found in the row of digits [ds]. *)
Definition id_window (ds w : text) : Prop :=
  exists pre post,
    ds = pre ++ w ++ post /\ digits 8 w /\ exists r, w = "2"%char :: r.

(** A name as [extract_name] leaves it: letters and white space, with none
    at either end. *)
Definition clean_name (n : text) : Prop :=
  Forall (fun c => is_alpha c || is_space c = true) n
  /\ strip n = n.

(** A reading whose OCR texts are made of 7-bit characters. *)
Definition plain_results (o : outcome (list Extractor.ocr_result)) : Prop :=
  match o with
  | Returned rs => plain_ocr rs
  | Raised _ => True
  end.

Definition plain_reading (r : card_reading) : Prop :=
  plain_results (name_ocr r) /\ plain_results (moodle_ocr r).

(** A card whose two regions, 40 by 300 pixels each, are read as
    "JOHN  SMITH 2" and as "ID 2023" and "0001". *)
Definition sample_region : Extractor.image :=
  {| Extractor.img_h := 40; Extractor.img_w := 300; Extractor.img_c := 3 |}.

Definition sample_reading : card_reading :=
  {| name_region := sample_region;
     name_ocr := Returned [{| Extractor.o_text := T "JOHN  SMITH 2";
                              Extractor.o_confidence := 0.9 |}];
     moodle_region := sample_region;
     moodle_ocr := Returned [{| Extractor.o_text := T "ID 2023";
                                Extractor.o_confidence := 0.8 |};
                             {| Extractor.o_text := T "0001";
                                Extractor.o_confidence := 0.7 |}] |}.

End VerifierSpec.

(** ** From the readers to the matcher *)

Module Pipeline.

Import Matcher.

(** What a camera frame contributes: a plate box or a card, as read. *)
Inductive sighting :=
| SeenPlate (b : Plates.box)
| SeenCard (r : Verifier.card_reading).

(** The dictionary that the driver loop hands to the matcher. *)
Definition observation_of (x : sighting) : observation :=
  match x with
  | SeenPlate b => ObsVehicle (Plates.detection b)
  | SeenCard r => ObsIdCard (Verifier.card r)
  end.

Definition feed (xs : list (clock * sighting)) : list (clock * observation) :=
  map (fun x => (fst x, observation_of (snd x))) xs.

End Pipeline.

(** ** More about the field extractor *)

Module ExtractorMore.

Import Text Extractor ExtractorSpec.

Local Open Scope nat_scope.

(** The department loop with [normalize_department] worked out on each
    keyword: which name each keyword stands for.  The keywords CSE, ECE and
    EEE stand for none and are left out. *)
Definition department_rules : list (text * text) :=
  [(T "COMPUTER ENGINEERING", T "COMPUTER ENGINEERING");
   (T "MECHANICAL ENGINEERING", T "MECHANICAL ENGINEERING");
   (T "CIVIL ENGINEERING", T "CIVIL ENGINEERING");
   (T "ELECTRICAL ENGINEERING", T "ELECTRICAL ENGINEERING");
   (T "ELECTRONICS ENGINEERING", T "ELECTRONICS ENGINEERING");
   (T "INFORMATION TECHNOLOGY", T "INFORMATION TECHNOLOGY");
   (T "IT", T "INFORMATION TECHNOLOGY");
   (T "COMPUTER", T "COMPUTER ENGINEERING");
   (T "MECHANICAL", T "MECHANICAL ENGINEERING");
   (T "CIVIL", T "CIVIL ENGINEERING");
   (T "ELECTRICAL", T "ELECTRICAL ENGINEERING");
   (T "ELECTRONICS", T "ELECTRONICS ENGINEERING")].

(** The six keywords that come before "IT". *)
Definition full_names : list text := firstn 6 dept_keywords.

(** A year, or two years joined by a hyphen or a slash, each "20" and two
    digits. *)
Definition year_form (y : text) : Prop :=
  (exists d, y = T "20" ++ d /\ digits 2 d)
  \/ (exists d s d',
        y = T "20" ++ d ++ [s] ++ T "20" ++ d'
        /\ digits 2 d /\ dash_or_slash s = true /\ digits 2 d').

(** What [find_institute] returns for a text in which the keyword [k]
    occurs: capitals and white space around the keyword, with no white space
    at either end. *)
Definition institute_around (k r : text) : Prop :=
  contains k r = true
  /\ Forall (fun c => upper_or_space c = true) r
  /\ strip r = r.

End ExtractorMore.

(** ** The throttles on saving a recognised card *)

Module Saver.

Import Matcher.

(** [ID_CARD_SAVE_COOLDOWN = 3.0] seconds, in microseconds.  The source
    compares [total_seconds()], the difference in microseconds divided by
    10^6 and rounded to a double, with [3.0]; the quotient is below 3.0
    exactly when the difference is below 3 000 000. *)
Definition ID_CARD_SAVE_COOLDOWN : Z := 3 * 1000000.

(** [self.last_save_time], in microseconds since [datetime.min], and what
    has been saved: the time of the save and the identifier as it is
    formatted into the file names. *)
Record saver := {
  last_save_time : Z;
  saved : list (Z * string)
}.

Definition start : saver := {| last_save_time := 0; saved := [] |}.

(** [save_card_data] of the offline recognizer; [now] is its
    [datetime.now()] and [moodle_id] is [card_data.get('moodle_id',
    'unknown')], whose key is always there. *)
Definition save_card_data (now : Z) (moodle_id : option string) (s : saver)
  : saver :=
  if now - last_save_time s <? ID_CARD_SAVE_COOLDOWN then s
  else {| last_save_time := now;
          saved := (saved s ++ [(now, fmt moodle_id)])%list |}.

Definition save_all (calls : list (Z * option string)) (s : saver) : saver :=
  fold_left (fun s c => save_card_data (fst c) (snd c) s) calls s.

(** [AUTO_CAPTURE_DELAY = 3], in seconds. *)
Definition AUTO_CAPTURE_DELAY : Z := 3.

(** The auto-save of [process_camera_stream] in the verifier:
    [last_save_time] starts as [None]. *)
Record autosaver := {
  a_last_save_time : option Z;
  a_saved : list (Z * string)
}.

Definition a_start : autosaver := {| a_last_save_time := None; a_saved := [] |}.

(** One card of a frame; [current_time] is the [datetime.now()] that is
    read when the card is valid and has an identifier. *)
Definition auto_save (current_time : Z) (card : id_card_data) (s : autosaver)
  : autosaver :=
  if c_is_valid card && truthy (moodle_id card) then
    if match a_last_save_time s with
       | None => true
       | Some l => AUTO_CAPTURE_DELAY <=? timedelta_seconds (current_time - l)
       end
    then {| a_last_save_time := Some current_time;
            a_saved :=
              (a_saved s ++ [(current_time, fmt (moodle_id card))])%list |}
    else s
  else s.

Definition auto_save_all (cards : list (Z * id_card_data)) (s : autosaver)
  : autosaver :=
  fold_left (fun s c => auto_save (fst c) (snd c) s) cards s.

(** Saves that are at least three seconds after every earlier one. *)
Definition spaced (times : list Z) : Prop :=
  StronglySorted (fun a b => a + 3 * 1000000 <= b) times.

End Saver.

(** * Properties of the verification matcher *)

Module MatcherFacts.

Import Matcher MatcherSpec.

Local Open Scope Z_scope.

(** ** The scenario, step by step *)

Example timedelta_seconds_wraps :
  timedelta_seconds (seconds 86405) = 5
  /\ timedelta_seconds (seconds (-10)) = 86390.
Proof. split; reflexivity. Qed.

Example car_is_parked :
  map snd (pending_verifications after_car) = [entry_MH12]
  /\ access_log after_car = [].
Proof. split; reflexivity. Qed.

Example same_car_again_pops_and_raises :
  let out := process_vehicle_detection shipped (at_time (seconds 5))
               (Some car_MH12) after_car in
  snd out = Raised AttributeError
  /\ pending_verifications (fst out) = []
  /\ map r_reason (access_log (fst out))
     = [Some "Both vehicle and ID card required"%string].
Proof. repeat split. Qed.

(** ** The claims about the scenario and the policy *)

(** C1, at a failing input.  With the vehicle "MH12AB1234" pending, processing
    the well-formed identity observation "20230001" raises [AttributeError]:
    the scan reads [moodle_id] off the [None] stored under ['id_card']. *)
Theorem C1_identity_after_vehicle_raises :
  snd (process_id_card_detection shipped (at_time (seconds 10))
         (Some card_JOHN) after_car)
  = Raised AttributeError.
Proof. reflexivity. Qed.

(** C2, at the scenario of the specification, in either policy mode.
    Vehicle at t = 0, identity at t = 10 s, window 30 s: the call raises, the
    vehicle entry is still pending, and no access record has been written. *)
Theorem C2_scenario_not_matched :
  forall require_both send_alerts,
    let cfg := {| REQUIRE_BOTH_VERIFICATIONS := require_both;
                  ACCESS_TIME_WINDOW := 30;
                  SEND_ALERTS := send_alerts |} in
    let s1 := fst (process_vehicle_detection cfg (at_time 0)
                     (Some car_MH12) init) in
    let out := process_id_card_detection cfg (at_time (seconds 10))
                 (Some card_JOHN) s1 in
    snd out = Raised AttributeError
    /\ map snd (pending_verifications (fst out)) = [entry_MH12]
    /\ access_log (fst out) = [].
Proof. intros [] []; repeat split. Qed.

(** C5.  The policy of [match_vehicle_and_id]: with both required, granted
    exactly when both sides are present and valid, and otherwise denied with
    the reason 'Both vehicle and ID card required'; with either sufficient,
    granted exactly when one side is present and valid, and denied exactly
    when neither is. *)
Theorem C5_policy :
  forall cfg ts (v : option vehicle_data) (c : option id_card_data) st,
    let r := fst (match_vehicle_and_id cfg ts v c st) in
    let v_ok := exists vd, v = Some vd /\ v_is_valid vd = true in
    let c_ok := exists cd, c = Some cd /\ c_is_valid cd = true in
    if REQUIRE_BOTH_VERIFICATIONS cfg then
      (r_access_decision r = "granted"%string <-> v_ok /\ c_ok)
      /\ (r_access_decision r = "granted"%string
          \/ (r_access_decision r = "denied"%string
              /\ r_reason r = Some "Both vehicle and ID card required"%string))
    else
      (r_access_decision r = "granted"%string <-> v_ok \/ c_ok)
      /\ (r_access_decision r = "denied"%string <-> ~ v_ok /\ ~ c_ok).
Proof.
  intros cfg ts v c st.
  assert (Hv : vehicle_valid v = true
               <-> exists vd, v = Some vd /\ v_is_valid vd = true).
  { destruct v as [vd|]; simpl; split.
    - intros H; exists vd; auto.
    - intros [x [E H]]; inversion E; subst; auto.
    - discriminate.
    - intros [x [E _]]; discriminate. }
  assert (Hc : id_card_valid c = true
               <-> exists cd, c = Some cd /\ c_is_valid cd = true).
  { destruct c as [cd|]; simpl; split.
    - intros H; exists cd; auto.
    - intros [x [E H]]; inversion E; subst; auto.
    - discriminate.
    - intros [x [E _]]; discriminate. }
  unfold match_vehicle_and_id.
  destruct (REQUIRE_BOTH_VERIFICATIONS cfg);
    destruct (vehicle_valid v) eqn:Ev; destruct (id_card_valid c) eqn:Ec;
    cbn [andb orb fst r_access_decision r_reason];
    rewrite <- Hv, <- Hc; repeat split;
    try solve [ intros; discriminate | auto
              | intros [? ?]; discriminate
              | intros [?|?]; discriminate
              | intros [? ?]; congruence ].
Qed.

(** C6, at a failing input, in either policy mode.  The only entries the
    scan ever returns as a match are of the kind of the incoming observation:
    with the card "20230001" pending, a second reading of the same card pops
    it, and the one record written has no vehicle side. *)
Theorem C6_match_record_one_sided :
  forall require_both send_alerts,
    let cfg := {| REQUIRE_BOTH_VERIFICATIONS := require_both;
                  ACCESS_TIME_WINDOW := 30;
                  SEND_ALERTS := send_alerts |} in
    let s1 := fst (process_id_card_detection cfg (at_time 0)
                     (Some card_JOHN) init) in
    let out := process_id_card_detection cfg (at_time (seconds 10))
                 (Some card_JOHN) s1 in
    map (fun ke => id_card (snd ke)) (pending_verifications s1)
    = [Some card_JOHN]
    /\ pending_verifications (fst out) = []
    /\ map r_vehicle (access_log (fst out)) = [None]
    /\ map r_id_card (access_log (fst out)) = [Some card_JOHN].
Proof. intros [] []; repeat split. Qed.

(** C4, counterexample.  The entry created at t = 0 is still pending when
    nothing else is observed, and it is only removed by the next observation,
    here at t = 100 s, at an age above the window of 30 s. *)
Lemma C4_entry_outlives_window :
  let later := (at_time (seconds 100), ObsVehicle car_KA01) in
  map snd (pending_verifications (run shipped [] after_car)) = [entry_MH12]
  /\ ~ In entry_MH12
       (map snd (pending_verifications (run shipped [later] after_car)))
  /\ ACCESS_TIME_WINDOW shipped
     < timedelta_seconds (now (fst later) - timestamp entry_MH12).
Proof.
  repeat split.
  - cbn. intros [H | []]. discriminate H.
Qed.

(** ** Invariants of the pending dictionary *)

Lemma kind_eqb_eq : forall a b, kind_eqb a b = true <-> a = b.
Proof. intros [] []; simpl; split; congruence. Qed.

Lemma key_eqb_eq : forall a b, key_eqb a b = true <-> a = b.
Proof.
  intros [ka ta za] [kb tb zb]; unfold key_eqb; simpl.
  rewrite !andb_true_iff, kind_eqb_eq, String.eqb_eq, Z.eqb_eq.
  split.
  - intros [[-> ->] ->]; reflexivity.
  - intros E; inversion E; auto.
Qed.

Lemma key_eqb_refl : forall k, key_eqb k k = true.
Proof. intros k; apply key_eqb_eq; reflexivity. Qed.

(** [d.pop(k)] takes out one binding of [k] and nothing else. *)
Lemma dict_pop_split :
  forall k (d : list (pending_key * pending_entry)) v d',
    dict_pop key_eqb k d = Some (v, d') ->
    exists l1 l2, d = (l1 ++ (k, v) :: l2)%list /\ d' = (l1 ++ l2)%list.
Proof.
  intros k d; induction d as [| [k0 v0] t IH]; intros v d' H; simpl in H.
  - discriminate.
  - destruct (key_eqb k0 k) eqn:E.
    + apply key_eqb_eq in E; subst k0. inversion H; subst.
      exists [], d'; auto.
    + destruct (dict_pop key_eqb k t) as [[v1 t1]|] eqn:P; [|discriminate].
      inversion H; subst. destruct (IH _ _ eq_refl) as (l1 & l2 & -> & ->).
      exists ((k0, v0) :: l1), l2; auto.
Qed.

(** With distinct keys, popping the key of a binding takes out that very
    binding. *)
Lemma dict_pop_here :
  forall (K : list (pending_key * pending_entry)) k e rest,
    ~ In k (map fst K) ->
    dict_pop key_eqb k (K ++ (k, e) :: rest) = Some (e, (K ++ rest)%list).
Proof.
  induction K as [| [k0 v0] K IH]; intros k e rest H; simpl.
  - rewrite key_eqb_refl; reflexivity.
  - destruct (key_eqb k0 k) eqn:E.
    + apply key_eqb_eq in E; subst. exfalso; apply H; simpl; auto.
    + rewrite IH; [reflexivity|]. intros I; apply H; simpl; auto.
Qed.

Lemma shrinks_refl : forall d, shrinks d d.
Proof. intros d; split; auto. Qed.

Lemma shrinks_trans :
  forall a b c, shrinks a b -> shrinks b c -> shrinks a c.
Proof.
  intros a b c [H1 H2] [H3 H4]; split; auto.
  intros f; specialize (H1 f); specialize (H3 f); lia.
Qed.

Lemma dict_pop_shrinks :
  forall k (d : list (pending_key * pending_entry)) v d',
    dict_pop key_eqb k d = Some (v, d') -> shrinks d d'.
Proof.
  intros k d v d' H. destruct (dict_pop_split _ _ _ _ H) as (l1 & l2 & -> & ->).
  split.
  - intros f. rewrite !filter_app, !length_app. simpl.
    destruct (f (k, v)); simpl; lia.
  - rewrite !map_app. simpl. apply NoDup_remove_1.
Qed.

Lemma pop_pending_shrinks :
  forall k s e s1,
    pop_pending k s = Returned (e, s1) ->
    shrinks (pending_verifications s) (pending_verifications s1).
Proof.
  unfold pop_pending; intros k s e s1 H.
  destruct (dict_pop key_eqb k (pending_verifications s)) as [[v d]|] eqn:P;
    [|discriminate].
  inversion H; subst. simpl. eapply dict_pop_shrinks; eauto.
Qed.

(** Case analysis along the branches of [scan]. *)
Ltac scan_cases :=
  repeat match goal with
    | H : (_, _) = (_, _) |- _ => inversion H; subst; clear H
    | H : context [match ?x with _ => _ end] |- _ =>
        lazymatch x with
        | scan _ _ _ _ _ _ => fail
        | _ => destruct x eqn:?
        end
    end.

Lemma scan_shrinks :
  forall cfg t m p items s s' r,
    scan cfg t m p items s = (s', r) ->
    shrinks (pending_verifications s) (pending_verifications s').
Proof.
  intros cfg t m p items; induction items as [| [key e] rest IH];
    intros s s' r H; simpl in H.
  - inversion H; subst; apply shrinks_refl.
  - scan_cases;
      try apply shrinks_refl;
      try (eapply pop_pending_shrinks; eassumption);
      try (eapply IH; eassumption).
    eapply shrinks_trans; [eapply pop_pending_shrinks; eassumption|].
    apply IH in H; exact H.
Qed.

Lemma pop_pending_here :
  forall (K : list (pending_key * pending_entry)) key e rest s,
    pending_verifications s = (K ++ (key, e) :: rest)%list ->
    NoDup (map fst (K ++ (key, e) :: rest)) ->
    pop_pending key s = Returned (e, set_pending s (K ++ rest)%list).
Proof.
  intros K key e rest s E N. unfold pop_pending. rewrite E.
  rewrite dict_pop_here; [reflexivity|].
  rewrite map_app in N. simpl in N. apply NoDup_remove_2 in N.
  intros I; apply N; apply in_or_app; auto.
Qed.

Lemma scan_inv :
  forall cfg t m p items (K : list (pending_key * pending_entry)) s s' r,
    pending_verifications s = (K ++ items)%list ->
    NoDup (map fst (K ++ items)) ->
    Forall (checked cfg t m p) (map snd K) ->
    scan cfg t m p items s = (s', r) ->
    match r with
    | Returned None =>
        Forall (checked cfg t m p) (map snd (pending_verifications s'))
    | Returned (Some e) => hit cfg t m p e /\ In e (map snd items)
    | Raised x => x = AttributeError
    end.
Proof.
  intros cfg t m p items.
  induction items as [| [key e] rest IH]; intros K s s' r E N C H.
  - simpl in H. inversion H; subst. rewrite E, app_nil_r. exact C.
  - simpl in H.
    rewrite (pop_pending_here K key e rest s E N) in H.
    assert (N' : NoDup (map fst (K ++ rest))).
    { rewrite map_app in *. simpl in N. eapply NoDup_remove_1; eauto. }
    assert (Keep : checked cfg t m p e ->
                   scan cfg t m p rest s = (s', r) ->
                   match r with
                   | Returned None =>
                       Forall (checked cfg t m p)
                              (map snd (pending_verifications s'))
                   | Returned (Some e0) =>
                       hit cfg t m p e0 /\ In e0 (map snd ((key, e) :: rest))
                   | Raised x => x = AttributeError
                   end).
    { intros Ce Hs.
      specialize (IH (K ++ [(key, e)])%list s s' r).
      rewrite <- app_assoc in IH. simpl in IH.
      specialize (IH E N).
      assert (C' : Forall (checked cfg t m p) (map snd (K ++ [(key, e)]))).
      { rewrite map_app. apply Forall_app; split; auto.
        simpl. constructor; auto. }
      specialize (IH C' Hs).
      destruct r as [[e0|]|x]; auto.
      destruct IH as [Hh Hi]; split; auto. simpl; auto. }
    unfold pending_moodle_id, pending_plate_text in H.
    destruct (ACCESS_TIME_WINDOW cfg
                <? timedelta_seconds (t - timestamp e)) eqn:Exp.
    + specialize (IH K
        (save_access_log cfg (expire_record e)
           (set_pending s (K ++ rest)%list)) s' r eq_refl N' C H).
      destruct r as [[e0|]|x]; auto.
      destruct IH as [Hh Hi]; split; auto. simpl; auto.
    + apply Z.ltb_ge in Exp.
      destruct (truthy m) eqn:Tm; destruct (truthy p) eqn:Tp;
        destruct (id_card e) as [c|] eqn:Ic;
        destruct (vehicle e) as [v|] eqn:Iv;
        try destruct (opt_eqb (moodle_id c) m) eqn:Em;
        try destruct (opt_eqb (plate_text v) p) eqn:Ep;
        try (inversion H; subst; clear H);
        try reflexivity;
        try (split; [split; [exact Exp|]| simpl; auto];
             solve [ left; split; eauto | right; split; eauto ]);
        try (apply Keep; [|assumption];
             split; [exact Exp|split; intros Q; try congruence; eauto]).
Qed.


Lemma dict_set_keys :
  forall k v (d : list (pending_key * pending_entry)) x,
    In x (map fst (dict_set key_eqb k v d)) -> x = k \/ In x (map fst d).
Proof.
  intros k v d; induction d as [| [k0 v0] d IH]; intros x H; simpl in *.
  - destruct H as [H | []]; auto.
  - destruct (key_eqb k0 k) eqn:E; simpl in H.
    + apply key_eqb_eq in E; subst. destruct H; auto.
    + destruct H as [H | H]; auto. destruct (IH _ H); auto.
Qed.

Lemma dict_set_nodup :
  forall k v (d : list (pending_key * pending_entry)),
    NoDup (map fst d) -> NoDup (map fst (dict_set key_eqb k v d)).
Proof.
  intros k v d; induction d as [| [k0 v0] d IH]; intros N; simpl.
  - constructor; [intros []|constructor].
  - inversion N as [| a l Hn Hd]; subst.
    destruct (key_eqb k0 k) eqn:E; simpl.
    + apply key_eqb_eq in E; subst. constructor; auto.
    + constructor; auto. intros I. apply dict_set_keys in I.
      destruct I as [-> | I]; auto.
      rewrite key_eqb_refl in E; discriminate.
Qed.

Lemma dict_set_filter :
  forall f k v (d : list (pending_key * pending_entry)),
    (List.length (filter f (dict_set key_eqb k v d))
     <= List.length (filter f d) + (if f (k, v) then 1 else 0))%nat.
Proof.
  intros f k v d; induction d as [| [k0 v0] d IH]; simpl.
  - destruct (f (k, v)); simpl; lia.
  - destruct (key_eqb k0 k); simpl.
    + destruct (f (k, v)), (f (k0, v0)); simpl; lia.
    + destruct (f (k0, v0)); simpl; lia.
Qed.

Lemma filter_none :
  forall (f : pending_key * pending_entry -> bool) d,
    Forall (fun ke => f ke = false) d -> filter f d = [].
Proof.
  intros f d H; induction H as [| ke d Hf _ IH]; simpl; auto.
  rewrite Hf; exact IH.
Qed.

Lemma shrinks_unique :
  forall d d', shrinks d d' -> unique_keys d -> unique_keys d'.
Proof.
  intros d d' [H _] U x. destruct (U x) as [U1 U2].
  pose proof (H (has_plate x)). pose proof (H (has_moodle x)). lia.
Qed.

Lemma store_unique :
  forall d k e,
    unique_keys d ->
    (forall x, has_plate x (k, e) = true -> filter (has_plate x) d = []) ->
    (forall x, has_moodle x (k, e) = true -> filter (has_moodle x) d = []) ->
    unique_keys (dict_set key_eqb k e d).
Proof.
  intros d k e U Hp Hm x. destruct (U x) as [U1 U2].
  pose proof (dict_set_filter (has_plate x) k e d) as F1.
  pose proof (dict_set_filter (has_moodle x) k e d) as F2.
  specialize (Hp x). specialize (Hm x).
  destruct (has_plate x (k, e)); destruct (has_moodle x (k, e));
    try rewrite (Hp eq_refl) in F1; try rewrite (Hm eq_refl) in F2;
    simpl in *; lia.
Qed.

Lemma opt_eqb_eq : forall a b, opt_eqb a b = true <-> a = b.
Proof.
  intros [a|] [b|]; simpl; rewrite ?String.eqb_eq; split; congruence.
Qed.

Lemma check_none_checked :
  forall cfg t m p s s',
    NoDup (map fst (pending_verifications s)) ->
    check_pending_verification cfg t m p s = (s', Returned None) ->
    Forall (checked cfg t m p) (map snd (pending_verifications s')).
Proof.
  unfold check_pending_verification; intros cfg t m p s s' N H.
  exact (scan_inv cfg t m p (pending_verifications s) [] s s' _
                  eq_refl N (Forall_nil _) H).
Qed.

Lemma observe_shrinks_or_stores :
  forall cfg ev s,
    shrinks (pending_verifications s)
            (pending_verifications (fst (observe cfg ev s)))
    \/ exists s1 k e,
         pending_verifications (fst (observe cfg ev s))
         = dict_set key_eqb k e (pending_verifications s1)
         /\ shrinks (pending_verifications s) (pending_verifications s1)
         /\ ((exists vd, snd ev = ObsVehicle vd
                         /\ v_is_valid vd = true
                         /\ e = {| timestamp := ts2 (fst ev);
                                   vehicle := Some vd; id_card := None |}
                         /\ check_pending_verification cfg (now (fst ev))
                              None (plate_text vd) s = (s1, Returned None))
             \/ (exists cd, snd ev = ObsIdCard cd
                            /\ c_is_valid cd = true
                            /\ e = {| timestamp := ts2 (fst ev);
                                      vehicle := None; id_card := Some cd |}
                            /\ check_pending_verification cfg (now (fst ev))
                                 (moodle_id cd) None s
                               = (s1, Returned None))).
Proof.
  intros cfg [clk [vd | cd]] s; unfold observe; simpl.
  - unfold process_vehicle_detection.
    destruct (v_is_valid vd) eqn:Val; simpl; [|left; apply shrinks_refl].
    destruct (check_pending_verification cfg (now clk) None (plate_text vd) s)
      as [s1 [[e|]|x]] eqn:C;
      pose proof (scan_shrinks _ _ _ _ _ _ _ _ C) as Sh.
    + left.
      destruct (match_vehicle_and_id cfg (ts1 clk) (Some vd) (id_card e)
                  (stats s1)) as [res st].
      destruct (id_card e); simpl; exact Sh.
    + right. do 3 eexists. split; [reflexivity|]. split; [exact Sh|].
      left. eexists; eauto.
    + left; exact Sh.
  - unfold process_id_card_detection.
    destruct (c_is_valid cd) eqn:Val; simpl; [|left; apply shrinks_refl].
    destruct (check_pending_verification cfg (now clk) (moodle_id cd) None s)
      as [s1 [[e|]|x]] eqn:C;
      pose proof (scan_shrinks _ _ _ _ _ _ _ _ C) as Sh.
    + left.
      destruct (match_vehicle_and_id cfg (ts1 clk) (vehicle e) (Some cd)
                  (stats s1)) as [res st].
      destruct (vehicle e); simpl; exact Sh.
    + right. do 3 eexists. split; [reflexivity|]. split; [exact Sh|].
      right. eexists; eauto.
    + left; exact Sh.
Qed.

Lemma observe_nodup :
  forall cfg ev s,
    NoDup (map fst (pending_verifications s)) ->
    NoDup (map fst (pending_verifications (fst (observe cfg ev s)))).
Proof.
  intros cfg ev s N.
  destruct (observe_shrinks_or_stores cfg ev s)
    as [[_ H] | (s1 & k & e & -> & [_ H] & _)]; auto.
  apply dict_set_nodup; auto.
Qed.

Lemma run_nodup :
  forall cfg evs s,
    NoDup (map fst (pending_verifications s)) ->
    NoDup (map fst (pending_verifications (run cfg evs s))).
Proof.
  intros cfg evs; induction evs as [| ev evs IH]; intros s N; simpl; auto.
  apply IH, observe_nodup, N.
Qed.


Lemma observe_unique :
  forall cfg ev s,
    well_formed (snd ev) ->
    NoDup (map fst (pending_verifications s)) ->
    unique_keys (pending_verifications s) ->
    unique_keys (pending_verifications (fst (observe cfg ev s))).
Proof.
  intros cfg ev s W N U.
  destruct (observe_shrinks_or_stores cfg ev s)
    as [Sh | (s1 & k & e & -> & Sh & Hs)].
  - eapply shrinks_unique; eauto.
  - pose proof (shrinks_unique _ _ Sh U) as U1.
    apply store_unique; auto.
    + intros x Hx. apply filter_none.
      destruct Hs as [(vd & Eo & Val & -> & C) | (cd & Eo & Val & -> & C)];
        [|discriminate Hx].
      rewrite Eo in W; simpl in W. specialize (W Val).
      apply check_none_checked in C; auto.
      unfold has_plate in Hx; simpl in Hx. apply opt_eqb_eq in Hx.
      rewrite Forall_map in C. revert C. apply Forall_impl.
      intros [k0 e0] (_ & _ & Hp). simpl in Hp.
      destruct (Hp W) as (v & Ev & Ne).
      unfold has_plate; simpl. rewrite Ev, <- Hx. exact Ne.
    + intros x Hx. apply filter_none.
      destruct Hs as [(vd & Eo & Val & -> & C) | (cd & Eo & Val & -> & C)];
        [discriminate Hx|].
      rewrite Eo in W; simpl in W. specialize (W Val).
      apply check_none_checked in C; auto.
      unfold has_moodle in Hx; simpl in Hx. apply opt_eqb_eq in Hx.
      rewrite Forall_map in C. revert C. apply Forall_impl.
      intros [k0 e0] (_ & Hm & _). simpl in Hm.
      destruct (Hm W) as (c & Ec & Ne).
      unfold has_moodle; simpl. rewrite Ec, <- Hx. exact Ne.
Qed.

Lemma run_unique :
  forall cfg evs s,
    Forall (fun ev => well_formed (snd ev)) evs ->
    NoDup (map fst (pending_verifications s)) ->
    unique_keys (pending_verifications s) ->
    unique_keys (pending_verifications (run cfg evs s)).
Proof.
  intros cfg evs; induction evs as [| ev evs IH]; intros s W N U; simpl; auto.
  inversion W; subst.
  apply IH; auto using observe_nodup, observe_unique.
Qed.

(** C3.  After any sequence of well-formed observations, starting from the
    empty pending set, no plate string and no subject identifier has more
    than one pending entry. *)
Theorem C3_one_pending_entry_per_key :
  forall cfg (evs : list (clock * observation)),
    Forall (fun ev => well_formed (snd ev)) evs ->
    unique_keys (pending_verifications (run cfg evs init)).
Proof.
  intros cfg evs W. apply run_unique; auto.
  - constructor.
  - intros x; simpl; auto.
Qed.

(** C3 on a run in which the plate "MH12AB1234" is seen twice. *)
Lemma C3_one_pending_entry_per_key_witness :
  Forall (fun ev => well_formed (snd ev)) sample_run
  /\ unique_keys (pending_verifications (run shipped sample_run init)).
Proof.
  assert (W : Forall (fun ev => well_formed (snd ev)) sample_run)
    by (repeat constructor; reflexivity).
  split; [exact W|].
  exact (C3_one_pending_entry_per_key shipped sample_run W).
Defined.

Lemma fresh_within_window :
  forall cfg t e, fresh cfg t e -> within_window cfg t e.
Proof.
  unfold fresh, within_window, timedelta_seconds; intros cfg t e F R.
  rewrite Z.mod_small in F by exact R. exact F.
Qed.

(** C4, as amended.  Expiry is applied while an observation is processed:
    when [check_pending_verification] returns at time [t] on a state reached
    from the empty one, the entry it returns as a match is within the window,
    and when it returns no match every entry still pending is. *)
Theorem C4_pending_entries_within_window_after_scan :
  forall cfg evs t m p s' r,
    check_pending_verification cfg t m p (run cfg evs init)
    = (s', Returned r) ->
    match r with
    | Some e => within_window cfg t e
    | None => Forall (within_window cfg t) (map snd (pending_verifications s'))
    end.
Proof.
  intros cfg evs t m p s' r H.
  assert (N : NoDup (map fst (pending_verifications (run cfg evs init))))
    by (apply run_nodup; constructor).
  pose proof (scan_inv cfg t m p _ [] _ _ _ eq_refl N (Forall_nil _) H) as I.
  destruct r as [e|]; simpl in I.
  - destruct I as [[F _] _]. apply fresh_within_window, F.
  - revert I. apply Forall_impl. intros e (F & _).
    apply fresh_within_window, F.
Qed.

(** C4 as amended, on a scan at t = 45 s over entries created at t = 0 and
    t = 20 s: the first is swept, the second stays and is 25 s old. *)
Lemma C4_pending_entries_within_window_after_scan_witness :
  let out := check_pending_verification shipped (seconds 45) None
               (Some "DL03EF9012"%string) (run shipped two_cars init) in
  snd out = Returned None
  /\ map snd (pending_verifications (fst out)) = [entry_KA01]
  /\ Forall (within_window shipped (seconds 45)) [entry_KA01].
Proof.
  split; [reflexivity|]. split; [reflexivity|].
  exact (C4_pending_entries_within_window_after_scan
           shipped two_cars (seconds 45) None (Some "DL03EF9012"%string)
           _ None eq_refl).
Defined.

(** ** How far the defect of the lookup reaches *)

(** A valid identity observation that meets a pending vehicle raises,
    whatever else is pending behind it. *)
Lemma identity_meets_pending_vehicle :
  forall cfg clk cd key e rest s,
    pending_verifications s = (key, e) :: rest ->
    id_card e = None ->
    fresh cfg (now clk) e ->
    c_is_valid cd = true ->
    truthy (moodle_id cd) = true ->
    process_id_card_detection cfg clk (Some cd) s = (s, Raised AttributeError).
Proof.
  intros cfg clk cd key e rest s E I F V Tm.
  unfold process_id_card_detection, check_pending_verification.
  rewrite V, E. simpl. unfold fresh in F. apply Z.ltb_ge in F.
  rewrite F, Tm. unfold pending_moodle_id. rewrite I. reflexivity.
Qed.

(** Without a plate string the uniqueness of C3 is lost: two valid
    observations with an empty plate are both parked. *)
Example empty_plates_pile_up :
  let s := run shipped [(at_time 0, ObsVehicle car_no_plate);
                        (at_time (seconds 1), ObsVehicle car_no_plate)]
               init in
  map (fun ke => vehicle (snd ke)) (pending_verifications s)
  = [Some car_no_plate; Some car_no_plate].
Proof. reflexivity. Qed.

Lemma scan_log :
  forall cfg t m p items (K : list (pending_key * pending_entry)) s s' r,
    pending_verifications s = (K ++ items)%list ->
    NoDup (map fst (K ++ items)) ->
    scan cfg t m p items s = (s', r) ->
    exists es,
      access_log s' = (access_log s ++ map expire_record es)%list
      /\ incl es (map snd items).
Proof.
  intros cfg t m p items.
  induction items as [| [key e] rest IH]; intros K s s' r E N H.
  - simpl in H. inversion H; subst. exists []; simpl.
    rewrite app_nil_r. split; auto. apply incl_refl.
  - simpl in H.
    rewrite (pop_pending_here K key e rest s E N) in H.
    assert (N' : NoDup (map fst (K ++ rest))).
    { rewrite map_app in *. simpl in N. eapply NoDup_remove_1; eauto. }
    assert (Stay : s' = s \/ s' = set_pending s (K ++ rest)%list ->
                   exists es,
                     access_log s' = (access_log s ++ map expire_record es)%list
                     /\ incl es (map snd ((key, e) :: rest))).
    { intros [-> | ->]; exists []; simpl; rewrite app_nil_r; split; auto;
        apply incl_nil_l. }
    assert (Keep : scan cfg t m p rest s = (s', r) ->
                   exists es,
                     access_log s' = (access_log s ++ map expire_record es)%list
                     /\ incl es (map snd ((key, e) :: rest))).
    { intros Hs. specialize (IH (K ++ [(key, e)])%list s s' r).
      rewrite <- app_assoc in IH. simpl in IH.
      destruct (IH E N Hs) as (es & L & I). exists es; split; auto.
      simpl. apply incl_tl. exact I. }
    unfold pending_moodle_id, pending_plate_text in H.
    destruct (ACCESS_TIME_WINDOW cfg
                <? timedelta_seconds (t - timestamp e)) eqn:Exp.
    + destruct (IH K (save_access_log cfg (expire_record e)
                        (set_pending s (K ++ rest)%list))
                  s' r eq_refl N' H) as (es & L & I).
      exists (e :: es). simpl in *. rewrite L, <- app_assoc. split; auto.
      apply incl_cons; [left; reflexivity | apply incl_tl; exact I].
    + destruct (truthy m); destruct (truthy p);
        destruct (id_card e) as [c|];
        destruct (vehicle e) as [v|];
        try destruct (opt_eqb (moodle_id c) m);
        try destruct (opt_eqb (plate_text v) p);
        try (inversion H; subst; clear H; apply Stay; auto; fail);
        apply Keep; assumption.
Qed.

Lemma shrinks_Forall :
  forall (P : pending_key * pending_entry -> bool) d d',
    shrinks d d' ->
    Forall (fun ke => P ke = true) d -> Forall (fun ke => P ke = true) d'.
Proof.
  intros P d d' [Sh _] F.
  assert (Z0 : filter (fun ke => negb (P ke)) d = []).
  { apply filter_none. revert F. apply Forall_impl.
    intros ke H; rewrite H; reflexivity. }
  specialize (Sh (fun ke => negb (P ke))). rewrite Z0 in Sh. simpl in Sh.
  apply Forall_forall. intros ke I.
  destruct (P ke) eqn:Pk; auto. exfalso.
  assert (I' : In ke (filter (fun ke => negb (P ke)) d')).
  { apply filter_In. split; auto. rewrite Pk; reflexivity. }
  destruct (filter (fun ke => negb (P ke)) d');
    [inversion I' | simpl in Sh; lia].
Qed.

Lemma dict_set_Forall :
  forall (P : pending_key * pending_entry -> Prop) k v d,
    Forall P d -> P (k, v) -> Forall P (dict_set key_eqb k v d).
Proof.
  intros P k v d F Pk; induction F as [| [k0 v0] d H F IH]; simpl.
  - constructor; auto.
  - destruct (key_eqb k0 k); constructor; auto.
Qed.

Lemma match_record_sides :
  forall cfg ts v c st,
    r_vehicle (fst (match_vehicle_and_id cfg ts v c st)) = v
    /\ r_id_card (fst (match_vehicle_and_id cfg ts v c st)) = c.
Proof.
  intros cfg ts v c st. unfold match_vehicle_and_id.
  destruct (REQUIRE_BOTH_VERIFICATIONS cfg);
    destruct (vehicle_valid v), (id_card_valid c); simpl; auto.
Qed.

(** The two invariants: pending entries and logged records are one-sided. *)
Lemma check_one_sided :
  forall cfg t m p s s' r,
    NoDup (map fst (pending_verifications s)) ->
    Forall (fun ke => one_sided (snd ke) = true) (pending_verifications s) ->
    Forall (fun x => record_one_sided x = true) (access_log s) ->
    check_pending_verification cfg t m p s = (s', r) ->
    Forall (fun ke => one_sided (snd ke) = true) (pending_verifications s')
    /\ Forall (fun x => record_one_sided x = true) (access_log s')
    /\ forall e, r = Returned (Some e) ->
                 one_sided e = true /\ hit cfg t m p e.
Proof.
  unfold check_pending_verification. intros cfg t m p s s' r N Fp Fl H.
  pose proof (scan_shrinks _ _ _ _ _ _ _ _ H) as Sh.
  destruct (scan_log cfg t m p _ [] _ _ _ eq_refl N H) as (es & L & I).
  pose proof (scan_inv cfg t m p _ [] _ _ _ eq_refl N (Forall_nil _) H) as V.
  assert (Fe : forall e, In e (map snd (pending_verifications s)) ->
                         one_sided e = true).
  { intros e Ie. apply in_map_iff in Ie. destruct Ie as (ke & <- & Ik).
    rewrite Forall_forall in Fp. auto. }
  split; [|split].
  - exact (shrinks_Forall (fun ke => one_sided (snd ke)) _ _ Sh Fp).
  - rewrite L. apply Forall_app; split; auto.
    apply Forall_forall. intros x Ix. apply in_map_iff in Ix.
    destruct Ix as (e & <- & Ie). specialize (Fe e (I e Ie)).
    unfold one_sided in Fe. unfold record_one_sided, expire_record; simpl.
    exact Fe.
  - intros e ->. destruct V as [Hh Ie]. auto.
Qed.

Lemma observe_one_sided :
  forall cfg ev s,
    NoDup (map fst (pending_verifications s)) ->
    Forall (fun ke => one_sided (snd ke) = true) (pending_verifications s) ->
    Forall (fun x => record_one_sided x = true) (access_log s) ->
    Forall (fun ke => one_sided (snd ke) = true)
           (pending_verifications (fst (observe cfg ev s)))
    /\ Forall (fun x => record_one_sided x = true)
              (access_log (fst (observe cfg ev s))).
Proof.
  intros cfg [clk [vd | cd]] s N Fp Fl; unfold observe; simpl.
  - unfold process_vehicle_detection.
    destruct (v_is_valid vd); simpl; [|auto].
    destruct (check_pending_verification cfg (now clk) None (plate_text vd) s)
      as [s1 r] eqn:C.
    destruct (check_one_sided _ _ _ _ _ _ _ N Fp Fl C) as (Fp1 & Fl1 & Hit).
    destruct r as [[e|]|x]; simpl; auto.
    + destruct (Hit e eq_refl) as (O & _ & [[Tm _] | (_ & v & Ev & _)]);
        [discriminate Tm|].
      assert (Ic : id_card e = None).
      { unfold one_sided in O. rewrite Ev in O.
        destruct (id_card e); [discriminate O | reflexivity]. }
      destruct (match_record_sides cfg (ts1 clk) (Some vd) (id_card e)
                  (stats s1)) as [Rv Rc].
      destruct (match_vehicle_and_id cfg (ts1 clk) (Some vd) (id_card e)
                  (stats s1)) as [res st]. simpl in Rv, Rc.
      assert (Fl2 : Forall (fun x => record_one_sided x = true)
                           (access_log s1 ++ [res])).
      { apply Forall_app; split; auto. constructor; auto.
        unfold record_one_sided. rewrite Rv, Rc, Ic. reflexivity. }
      rewrite Ic. simpl. auto.
    + split; auto. apply dict_set_Forall; auto.
  - unfold process_id_card_detection.
    destruct (c_is_valid cd); simpl; [|auto].
    destruct (check_pending_verification cfg (now clk) (moodle_id cd) None s)
      as [s1 r] eqn:C.
    destruct (check_one_sided _ _ _ _ _ _ _ N Fp Fl C) as (Fp1 & Fl1 & Hit).
    destruct r as [[e|]|x]; simpl; auto.
    + destruct (Hit e eq_refl) as (O & _ & [(_ & c & Ec & _) | [Tp _]]);
        [|discriminate Tp].
      assert (Iv : vehicle e = None).
      { unfold one_sided in O. rewrite Ec in O.
        destruct (vehicle e); [discriminate O | reflexivity]. }
      destruct (match_record_sides cfg (ts1 clk) (vehicle e) (Some cd)
                  (stats s1)) as [Rv Rc].
      destruct (match_vehicle_and_id cfg (ts1 clk) (vehicle e) (Some cd)
                  (stats s1)) as [res st]. simpl in Rv, Rc.
      assert (Fl2 : Forall (fun x => record_one_sided x = true)
                           (access_log s1 ++ [res])).
      { apply Forall_app; split; auto. constructor; auto.
        unfold record_one_sided. rewrite Rv, Rc, Iv. reflexivity. }
      rewrite Iv. simpl. auto.
    + split; auto. apply dict_set_Forall; auto.
Qed.

Lemma run_one_sided :
  forall cfg evs s,
    NoDup (map fst (pending_verifications s)) ->
    Forall (fun ke => one_sided (snd ke) = true) (pending_verifications s) ->
    Forall (fun x => record_one_sided x = true) (access_log s) ->
    Forall (fun ke => one_sided (snd ke) = true)
           (pending_verifications (run cfg evs s))
    /\ Forall (fun x => record_one_sided x = true)
              (access_log (run cfg evs s)).
Proof.
  intros cfg evs; induction evs as [| ev evs IH]; intros s N Fp Fl; simpl; auto.
  destruct (observe_one_sided cfg ev s N Fp Fl) as [Fp1 Fl1].
  apply IH; auto using observe_nodup.
Qed.

(** No record ever written holds both a vehicle and an identity: the lookup
    pairs an observation with entries of its own kind only. *)
Lemma no_record_combines_both_sides :
  forall cfg evs,
    Forall (fun x => record_one_sided x = true)
           (access_log (run cfg evs init)).
Proof.
  intros cfg evs. apply run_one_sided; constructor.
Qed.

(** And a call whose scan finds a match always ends in an exception, after
    the record has been written. *)
Lemma vehicle_match_always_raises :
  forall cfg evs clk vd s1 e,
    v_is_valid vd = true ->
    check_pending_verification cfg (now clk) None (plate_text vd)
                               (run cfg evs init)
    = (s1, Returned (Some e)) ->
    snd (process_vehicle_detection cfg clk (Some vd) (run cfg evs init))
    = Raised AttributeError.
Proof.
  intros cfg evs clk vd s1 e V C.
  assert (N : NoDup (map fst (pending_verifications (run cfg evs init))))
    by (apply run_nodup; constructor).
  destruct (run_one_sided cfg evs init) as [Fp Fl]; try constructor.
  destruct (check_one_sided _ _ _ _ _ _ _ N Fp Fl C) as (_ & _ & Hit).
  destruct (Hit e eq_refl) as (O & _ & [[Tm _] | (_ & v & Ev & _)]);
    [discriminate Tm|].
  unfold process_vehicle_detection. rewrite V, C. simpl.
  destruct (match_vehicle_and_id cfg (ts1 clk) (Some vd) (id_card e)
              (stats s1)) as [res st].
  unfold one_sided in O. rewrite Ev in O.
  destruct (id_card e); [discriminate O | reflexivity].
Qed.

Lemma identity_match_always_raises :
  forall cfg evs clk cd s1 e,
    c_is_valid cd = true ->
    check_pending_verification cfg (now clk) (moodle_id cd) None
                               (run cfg evs init)
    = (s1, Returned (Some e)) ->
    snd (process_id_card_detection cfg clk (Some cd) (run cfg evs init))
    = Raised AttributeError.
Proof.
  intros cfg evs clk cd s1 e V C.
  assert (N : NoDup (map fst (pending_verifications (run cfg evs init))))
    by (apply run_nodup; constructor).
  destruct (run_one_sided cfg evs init) as [Fp Fl]; try constructor.
  destruct (check_one_sided _ _ _ _ _ _ _ N Fp Fl C) as (_ & _ & Hit).
  destruct (Hit e eq_refl) as (O & _ & [(_ & c & Ec & _) | [Tp _]]);
    [|discriminate Tp].
  unfold process_id_card_detection. rewrite V, C. simpl.
  destruct (match_vehicle_and_id cfg (ts1 clk) (vehicle e) (Some cd)
              (stats s1)) as [res st].
  unfold one_sided in O. rewrite Ec in O.
  destruct (vehicle e); [discriminate O | reflexivity].
Qed.

End MatcherFacts.

(** * The matcher of regular expressions against their meaning *)

Module RegexFacts.

Import Text RegexSpec.

Local Open Scope nat_scope.

Lemma rep_sound :
  forall (A : Type) p lo hi (k : cursor -> option A) aft n bef g x,
    rep p lo hi n bef aft g k = Some x ->
    exists taken rest,
      aft = taken ++ rest
      /\ Forall (fun c => p c = true) taken
      /\ lo <= n + List.length taken
      /\ (within hi n -> within hi (n + List.length taken))
      /\ k (cur (rev taken ++ bef) rest g) = Some x.
Proof.
  intros A p lo hi k aft; induction aft as [| c t IH]; intros n bef g x H.
  - simpl in H. destruct (lo <=? n) eqn:L; [|discriminate].
    apply Nat.leb_le in L.
    exists [], []; simpl; repeat split; auto; rewrite Nat.add_0_r; auto.
  - simpl in H.
    assert (Stop : (if lo <=? n then k (cur bef (c :: t) g) else None)
                   = Some x ->
                   exists taken rest,
                     c :: t = taken ++ rest
                     /\ Forall (fun c => p c = true) taken
                     /\ lo <= n + List.length taken
                     /\ (within hi n -> within hi (n + List.length taken))
                     /\ k (cur (rev taken ++ bef) rest g) = Some x).
    { intros S. destruct (lo <=? n) eqn:L; [|discriminate].
      apply Nat.leb_le in L.
      exists [], (c :: t); simpl; repeat split; auto;
        rewrite Nat.add_0_r; auto. }
    destruct (p c && below hi n) eqn:Take; [|auto].
    destruct (rep p lo hi (S n) (c :: bef) t g k) as [y|] eqn:R; [|auto].
    inversion H; subst y.
    apply andb_true_iff in Take. destruct Take as [Pc Bel].
    destruct (IH _ _ _ _ R) as (taken & rest & -> & F & Lo & Hi & K).
    exists (c :: taken), rest; simpl; repeat split; auto.
    + lia.
    + intros _. replace (n + S (List.length taken))
        with (S n + List.length taken) by lia.
      apply Hi. unfold within, below in *. destruct hi; auto.
      apply Nat.ltb_lt in Bel; lia.
    + rewrite <- app_assoc. exact K.
Qed.

Lemma rep_complete :
  forall (A : Type) p lo hi (k : cursor -> option A) taken n bef rest g,
    Forall (fun c => p c = true) taken ->
    lo <= n + List.length taken ->
    within hi (n + List.length taken) ->
    k (cur (rev taken ++ bef) rest g) <> None ->
    rep p lo hi n bef (taken ++ rest) g k <> None.
Proof.
  intros A p lo hi k taken; induction taken as [| c t IH];
    intros n bef rest g F Lo Hi K.
  - simpl in *. rewrite Nat.add_0_r in Lo.
    apply Nat.leb_le in Lo.
    destruct rest as [| c r]; simpl; rewrite Lo; auto.
    destruct (p c && below hi n); auto.
    destruct (rep p lo hi (S n) (c :: bef) r g k); auto; discriminate.
  - inversion F as [| c0 t0 Pc Ft]; subst. simpl.
    assert (Bel : below hi n = true).
    { unfold within, below in *. destruct hi; auto.
      simpl in Hi. apply Nat.ltb_lt. lia. }
    rewrite Pc, Bel. simpl.
    assert (R : rep p lo hi (S n) (c :: bef) (t ++ rest) g k <> None).
    { apply IH; auto.
      - simpl in Lo; lia.
      - simpl in Hi. replace (S n + List.length t)
          with (n + S (List.length t)) by lia. exact Hi.
      - simpl in K. rewrite <- app_assoc in K. exact K. }
    destruct (rep p lo hi (S n) (c :: bef) (t ++ rest) g k); auto;
      discriminate.
Qed.

(** Every success of the matcher is a match, handed to the continuation. *)
Lemma rmatch_sound :
  forall (A : Type) r s (k : cursor -> option A) x,
    rmatch r s k = Some x ->
    exists s', matches r s s' /\ k s' = Some x.
Proof.
  intros A r; induction r as [| p | lo hi p | a IHa b IHb | a IHa b IHb
                             | r IH |]; intros s k x H; simpl in H.
  - exists s; split; [constructor | exact H].
  - destruct s as [bef aft g]; simpl in H.
    destruct aft as [| c t]; [discriminate|].
    destruct (p c) eqn:Pc; [|discriminate].
    eexists; split; [apply m_chr; exact Pc | exact H].
  - destruct s as [bef aft g]; simpl in H.
    destruct (rep_sound _ _ _ _ _ _ _ _ _ _ H)
      as (taken & rest & -> & F & Lo & Hi & K).
    eexists; split; [| exact K].
    apply m_rep; auto. apply Hi. destruct hi; simpl; auto. lia.
  - destruct (IHa _ _ _ H) as (s1 & Ma & H1).
    destruct (IHb _ _ _ H1) as (s2 & Mb & H2).
    exists s2; split; [econstructor; eauto | exact H2].
  - destruct (rmatch a s k) as [y|] eqn:Ra.
    + inversion H; subst y. destruct (IHa _ _ _ Ra) as (s1 & Ma & H1).
      exists s1; split; [apply m_alt_l; exact Ma | exact H1].
    + destruct (IHb _ _ _ H) as (s1 & Mb & H1).
      exists s1; split; [apply m_alt_r; exact Mb | exact H1].
  - destruct (IH _ _ _ H) as (s1 & M & H1).
    eexists; split; [apply m_group; exact M | exact H1].
  - destruct (at_boundary (before s) (after s)) eqn:B; [|discriminate].
    exists s; split; [apply m_wordb; exact B | exact H].
Qed.

(** Backtracking misses no match that the continuation accepts. *)
Lemma rmatch_complete :
  forall (A : Type) r s s',
    matches r s s' ->
    forall (k : cursor -> option A), k s' <> None -> rmatch r s k <> None.
Proof.
  intros A r s s' M; induction M; intros k K; simpl.
  - exact K.
  - unfold cur in *; simpl. rewrite H. exact K.
  - unfold cur in *; simpl. apply rep_complete; auto.
  - apply IHM1. apply IHM2. exact K.
  - specialize (IHM k K). destruct (rmatch a s k); [discriminate | tauto].
  - destruct (rmatch a s k); [discriminate | auto].
  - apply IHM. exact K.
  - rewrite H. exact K.
Qed.

Lemma rmatch_some_iff :
  forall r s,
    rmatch r s Some <> None <-> exists s', matches r s s'.
Proof.
  intros r s; split.
  - destruct (rmatch r s Some) as [x|] eqn:R; [|tauto].
    intros _. destruct (rmatch_sound _ _ _ _ _ R) as (s' & M & _); eauto.
  - intros [s' M]. eapply rmatch_complete; eauto. discriminate.
Qed.

(** [re.search]: the match found starts at the leftmost position where the
    pattern matches at all. *)
Lemma search_from_spec :
  forall r aft bef,
    match search_from r bef aft with
    | Some m =>
        exists a1 a2,
          aft = a1 ++ a2
          /\ m_start m = List.length bef + List.length a1
          /\ matches r (cur (rev a1 ++ bef) a2 None) (m_end m)
          /\ forall b1 b2,
               aft = b1 ++ b2 -> List.length b1 < List.length a1 ->
               ~ exists s', matches r (cur (rev b1 ++ bef) b2 None) s'
    | None =>
        forall b1 b2,
          aft = b1 ++ b2 ->
          ~ exists s', matches r (cur (rev b1 ++ bef) b2 None) s'
    end.
Proof.
  intros r aft; induction aft as [| c t IH]; intros bef; simpl.
  - destruct (rmatch r {| before := bef; after := []; group1 := None |} Some)
      as [e|] eqn:R.
    + destruct (rmatch_sound _ _ _ _ _ R) as (s' & M & E). inversion E; subst.
      exists [], []; simpl; repeat split; auto.
      intros b1 b2 _ L; inversion L.
    + intros b1 b2 E. symmetry in E. apply app_eq_nil in E.
      destruct E; subst; simpl. intros X.
      apply rmatch_some_iff in X. apply X. exact R.
  - destruct (rmatch r {| before := bef; after := c :: t; group1 := None |}
                Some) as [e|] eqn:R.
    + destruct (rmatch_sound _ _ _ _ _ R) as (s' & M & E). inversion E; subst.
      exists [], (c :: t); simpl; repeat split; auto.
      intros b1 b2 _ L; inversion L.
    + specialize (IH (c :: bef)).
      destruct (search_from r (c :: bef) t) as [m|].
      * destruct IH as (a1 & a2 & -> & St & M & Least).
        exists (c :: a1), a2; simpl; repeat split.
        -- rewrite St; simpl; lia.
        -- rewrite <- app_assoc; exact M.
        -- intros b1 b2 E L. destruct b1 as [| c0 b1]; simpl in *.
           ++ subst b2. intros X. apply rmatch_some_iff in X. apply X, R.
           ++ inversion E; subst. rewrite <- app_assoc. simpl.
              apply Least; auto. lia.
      * intros b1 b2 E. destruct b1 as [| c0 b1]; simpl in *.
        -- subst b2. intros X. apply rmatch_some_iff in X. apply X, R.
        -- inversion E; subst. rewrite <- app_assoc. simpl.
           apply IH; auto.
Qed.

Lemma re_search_spec :
  forall r t,
    match re_search r t with
    | Some m =>
        matches_at r t (m_start m) (m_end m)
        /\ forall j e, j < m_start m -> ~ matches_at r t j e
    | None => forall j e, ~ matches_at r t j e
    end.
Proof.
  intros r t. unfold re_search.
  pose proof (search_from_spec r t []) as S.
  destruct (search_from r [] t) as [m|].
  - destruct S as (a1 & a2 & -> & St & M & Least). simpl in St.
    rewrite app_nil_r in M. split.
    + exists a1, a2; auto.
    + intros j e L (pre & post & E & Len & X).
      apply (Least pre post E); [lia|]. rewrite app_nil_r. eauto.
  - intros j e (pre & post & E & Len & X).
    apply (S pre post E). rewrite app_nil_r. eauto.
Qed.

End RegexFacts.

(** * Properties of the field extractor *)

Module ExtractorFacts.

Import Text Extractor RegexSpec RegexFacts ExtractorSpec.

Local Open Scope nat_scope.

(** ** Identifier extraction on samples *)

Example id_after_label :
  extract_moodle_id (T "APSIT ID NO: 22102003") = Some (T "22102003").
Proof. vm_compute. reflexivity. Qed.

Example id_bare_number :
  extract_moodle_id (T "x 12345678 22102003 y") = Some (T "22102003").
Proof. vm_compute. reflexivity. Qed.

Example id_fallback :
  extract_moodle_id (T "roll 12345678") = Some (T "12345678").
Proof. vm_compute. reflexivity. Qed.

Example id_nine_digits :
  extract_moodle_id (T "A 123456789 x") = None.
Proof. vm_compute. reflexivity. Qed.

Example name_samples :
  is_valid_name (T "AVANISH VADKE ") = true
  /\ is_valid_name (T "BCDFG HJKLM") = false
  /\ is_valid_name (T "JOHNSON") = false
  /\ is_valid_name (T "COMPUTER ENGINEERING") = false.
Proof. repeat split. Qed.

Example department_samples :
  map normalize_department (map T ["IT"; "CSE"; "ELECTRONICS"]%string)
  = [Some (T "INFORMATION TECHNOLOGY"); None;
     Some (T "ELECTRONICS ENGINEERING")].
Proof. vm_compute. reflexivity. Qed.

(** ** The patterns of identifier extraction, read as forms of the text *)

Ltac inv_m :=
  repeat match goal with
    | H : matches (Seq _ _) _ _ |- _ => inversion H; subst; clear H
    | H : matches (Group _) _ _ |- _ => inversion H; subst; clear H
    | H : matches WordB _ _ |- _ => inversion H; subst; clear H
    | H : matches Eps _ _ |- _ => inversion H; subst; clear H
    | H : matches (Chr _) _ _ |- _ => inversion H; subst; clear H
    | H : matches (Rep _ _ _) _ _ |- _ => inversion H; subst; clear H
    end.

Lemma capture_exact :
  forall (x bef : text),
    rev (firstn (List.length (rev x ++ bef) - List.length bef) (rev x ++ bef))
    = x.
Proof.
  intros x bef. rewrite length_app, Nat.add_sub.
  rewrite firstn_app, firstn_all, Nat.sub_diag. simpl.
  rewrite app_nil_r. apply rev_involutive.
Qed.

Lemma digit_is_word : forall c, is_digit c = true -> is_word c = true.
Proof.
  intros c H; unfold is_word. rewrite H. apply orb_true_iff; left.
  apply orb_true_r.
Qed.

Lemma boundary_start :
  forall pre c aft,
    is_word c = true ->
    (at_boundary (rev pre) (c :: aft) = true <-> not_word_at_end pre).
Proof.
  intros pre c aft W. unfold at_boundary, not_word_at_end. rewrite W.
  destruct (rev pre) as [| q r]; simpl; [tauto|].
  destruct (is_word q); simpl; split; auto; discriminate.
Qed.

Lemma boundary_end :
  forall c bef aft,
    is_word c = true ->
    (at_boundary (c :: bef) aft = true <-> not_word_at_start aft).
Proof.
  intros c bef aft W. unfold at_boundary, not_word_at_start. rewrite W.
  destruct aft as [| q r]; simpl; [tauto|].
  destruct (is_word q); simpl; split; auto; discriminate.
Qed.

(** A non-empty run of digits starts and ends with a word character. *)
Lemma digits_first :
  forall n w, digits (S n) w ->
    exists c r, w = c :: r /\ is_word c = true.
Proof.
  intros n [| c r] [L F]; [discriminate|].
  inversion F; subst. exists c, r; split; auto using digit_is_word.
Qed.

Lemma digits_last :
  forall n w, digits (S n) w ->
    exists c r, rev w = c :: r /\ is_word c = true.
Proof.
  intros n w [L F].
  destruct (rev w) as [| c r] eqn:E.
  - apply (f_equal (@List.length ascii)) in E. rewrite length_rev, L in E.
    discriminate.
  - exists c, r; split; auto. apply digit_is_word.
    rewrite Forall_forall in F. apply F. apply in_rev. rewrite E. left; auto.
Qed.

Lemma standalone_boundaries :
  forall w pre post,
    digits 8 w ->
    (at_boundary (rev pre) (w ++ post) = true <-> not_word_at_end pre)
    /\ (at_boundary (rev w ++ rev pre) post = true
        <-> not_word_at_start post).
Proof.
  intros w pre post D.
  destruct (digits_first _ _ D) as (c & r & -> & Wc).
  destruct (digits_last _ _ D) as (c' & r' & E & Wc').
  rewrite E. simpl. split.
  - apply boundary_start; auto.
  - apply boundary_end; auto.
Qed.

Lemma any8_elim :
  forall t i e,
    matches_at pat_any8 t i e ->
    exists w, group1 e = Some w /\ standalone false t i w.
Proof.
  unfold pat_any8, seq, times, cur; intros t i e (pre & post & -> & <- & M).
  inv_m. simpl in *. rewrite capture_exact.
  match goal with
  | Hb : at_boundary _ (?ds ++ ?rest) = true |- _ =>
      assert (D : digits 8 ds) by (split; [lia | assumption]);
      destruct (standalone_boundaries ds pre rest D) as [B1 B2];
      exists ds; split; auto;
      exists pre, rest; repeat split; auto; try apply D;
      [ apply B1; assumption | apply B2; assumption ]
  end.
Qed.

Lemma any8_intro :
  forall t i w,
    standalone false t i w -> exists e, matches_at pat_any8 t i e.
Proof.
  unfold pat_any8, seq, times, cur.
  intros t i w (pre & post & -> & <- & D & _ & B1 & B2).
  destruct (standalone_boundaries w pre post D) as [S1 S2].
  destruct D as [L F].
  eexists. exists pre, (w ++ post). split; [reflexivity|]. split; auto.
  eapply m_seq; [apply m_wordb; simpl; apply S1; exact B1|].
  eapply m_seq.
  - apply m_group. apply m_rep; simpl; auto; lia.
  - apply m_wordb. simpl. apply S2; exact B2.
Qed.

Lemma is_char_i_two : forall c, is_char_i "2" c = true -> c = "2"%char.
Proof.
  intros c.
  destruct c as [[] [] [] [] [] [] [] []]; vm_compute;
    intros H; try discriminate H; reflexivity.
Qed.

Lemma moodle_elim :
  forall t i e,
    matches_at pat_moodle t i e ->
    exists w, group1 e = Some w /\ standalone true t i w.
Proof.
  unfold pat_moodle, seq, times, cur; intros t i e (pre & post & -> & <- & M).
  inv_m. simpl in *.
  match goal with
  | Hc : is_char_i _ ?c = true,
    Hb : at_boundary _ (?c :: ?ds ++ ?rest) = true |- _ =>
      apply is_char_i_two in Hc; subst c;
      replace (rev ds ++ "2"%char :: rev pre)
        with (rev ("2"%char :: ds) ++ rev pre) in *
        by (simpl; rewrite <- app_assoc; reflexivity);
      rewrite capture_exact;
      assert (D : digits 8 ("2"%char :: ds))
        by (split; [simpl; lia | constructor; auto]);
      destruct (standalone_boundaries _ pre rest D) as [B1 B2];
      exists ("2"%char :: ds); split; auto;
      exists pre, rest; repeat split; auto; try apply D;
      [ eauto | apply B1; assumption | apply B2; assumption ]
  end.
Qed.

Lemma moodle_intro :
  forall t i w,
    standalone true t i w -> exists e, matches_at pat_moodle t i e.
Proof.
  unfold pat_moodle, seq, times, cur.
  intros t i w (pre & post & -> & <- & D & [r ->] & B1 & B2).
  destruct (standalone_boundaries _ pre post D) as [S1 S2].
  destruct D as [L F]. inversion F; subst.
  eexists. exists pre, (("2"%char :: r) ++ post).
  split; [reflexivity|]. split; auto.
  eapply m_seq; [apply m_wordb; simpl; apply S1; exact B1|].
  eapply m_seq.
  - apply m_group. eapply m_seq.
    + simpl. apply m_chr. reflexivity.
    + apply m_rep; simpl in *; auto; lia.
  - apply m_wordb. simpl. simpl in S2. rewrite <- app_assoc in S2.
    apply S2; exact B2.
Qed.

Lemma search_group_spec :
  forall pat (Q : text -> nat -> text -> Prop),
    (forall t i e, matches_at pat t i e ->
                   exists w, group1 e = Some w /\ Q t i w) ->
    (forall t i w, Q t i w -> exists e, matches_at pat t i e) ->
    forall t,
      match re_search pat t with
      | Some m => exists w, group m = Some w /\ leftmost Q t w
      | None => nowhere Q t
      end.
Proof.
  intros pat Q Elim Intro t. pose proof (re_search_spec pat t) as S.
  destruct (re_search pat t) as [m|].
  - destruct S as [M Least]. destruct (Elim _ _ _ M) as (w & G & Hq).
    exists w; split; [exact G|]. exists (m_start m); split; [exact Hq|].
    intros j w' L Hq'. destruct (Intro _ _ _ Hq') as [e M'].
    exact (Least j e L M').
  - intros i w Hq. destruct (Intro _ _ _ Hq) as [e M']. exact (S i e M').
Qed.

Lemma is_char_i_lower :
  forall x c, is_char_i x c = true <-> lower_char c = lower_char x.
Proof. intros x c. unfold is_char_i. apply Ascii.eqb_eq. Qed.

Lemma id_elim :
  forall t i e,
    matches_at pat_id t i e ->
    exists w, group1 e = Some w /\ labelled_id t i w.
Proof.
  cbv [pat_id seq star times lit_i T list_ascii_of_string cur].
  intros t i e (pre & post & -> & <- & M).
  inv_m. simpl in *. rewrite capture_exact.
  match goal with
  | H1 : is_char_i "I" ?c1 = true, H2 : is_char_i "D" ?c2 = true,
    Hs : Forall (fun c => colon_or_space c = true) ?seps,
    Hd : Forall (fun c => is_digit c = true) ?ds |- _ =>
      apply is_char_i_lower in H1; apply is_char_i_lower in H2;
      exists ds; split; auto;
      exists pre, [c1; c2], seps;
      match goal with
      | |- context [pre ++ c1 :: c2 :: seps ++ ds ++ ?rest] => exists rest
      end;
      repeat split; auto; try lia;
      unfold lower; simpl; rewrite H1, H2; reflexivity
  end.
Qed.

Lemma id_intro :
  forall t i w, labelled_id t i w -> exists e, matches_at pat_id t i e.
Proof.
  cbv [pat_id seq star times lit_i T list_ascii_of_string cur].
  intros t i w (pre & l & seps & post & -> & <- & L & Fs & [Ld Fd]).
  destruct l as [| c1 [| c2 [| c3 l]]]; try discriminate L.
  unfold lower in L; simpl in L. inversion L as [[L1 L2]].
  eexists. exists pre. eexists. split; [reflexivity|]. split; auto.
  simpl. eapply m_seq.
  - eapply m_seq; [apply m_chr; apply is_char_i_lower; exact L1|].
    eapply m_seq; [apply m_chr; apply is_char_i_lower; exact L2|].
    apply m_eps.
  - eapply m_seq; [apply m_rep; simpl; auto; lia|].
    apply m_group. apply m_rep; simpl; auto; lia.
Qed.

Lemma id_no_elim :
  forall t i e,
    matches_at pat_id_no t i e ->
    exists w, group1 e = Some w /\ labelled_id_no t i w.
Proof.
  cbv [pat_id_no seq star times lit_i T list_ascii_of_string cur].
  intros t i e (pre & post & -> & <- & M).
  inv_m. simpl in *. rewrite capture_exact.
  match goal with
  | H1 : is_char_i "I" ?c1 = true, H2 : is_char_i "D" ?c2 = true,
    H3 : is_char_i "N" ?c3 = true, H4 : is_char_i "O" ?c4 = true,
    Hw : Forall (fun c => is_space c = true) ?ws,
    Hs : Forall (fun c => colon_or_space c = true) ?seps,
    Hd : Forall (fun c => is_digit c = true) ?ds |- _ =>
      apply is_char_i_lower in H1; apply is_char_i_lower in H2;
      apply is_char_i_lower in H3; apply is_char_i_lower in H4;
      exists ds; split; auto;
      exists pre, [c1; c2], ws, [c3; c4], seps;
      match goal with
      | |- context [seps ++ ds ++ ?rest] => exists rest
      end;
      repeat split; auto; try lia;
      unfold lower; simpl; rewrite ?H1, ?H2, ?H3, ?H4; reflexivity
  end.
Qed.

Lemma id_no_intro :
  forall t i w, labelled_id_no t i w -> exists e, matches_at pat_id_no t i e.
Proof.
  cbv [pat_id_no seq star times lit_i T list_ascii_of_string cur].
  intros t i w
    (pre & l1 & ws & l2 & seps & post & -> & <- & L1 & Fw & L2 & Fs & [Ld Fd]).
  destruct l1 as [| c1 [| c2 [| c l1]]]; try discriminate L1.
  destruct l2 as [| c3 [| c4 [| c l2]]]; try discriminate L2.
  unfold lower in L1, L2; simpl in L1, L2.
  inversion L1 as [[A1 A2]]. inversion L2 as [[A3 A4]].
  eexists. exists pre. eexists. split; [reflexivity|]. split; auto.
  simpl. eapply m_seq.
  - eapply m_seq; [apply m_chr; apply is_char_i_lower; exact A1|].
    eapply m_seq; [apply m_chr; apply is_char_i_lower; exact A2|].
    apply m_eps.
  - eapply m_seq; [apply m_rep; simpl; auto; lia|].
    eapply m_seq.
    + eapply m_seq; [apply m_chr; apply is_char_i_lower; exact A3|].
      eapply m_seq; [apply m_chr; apply is_char_i_lower; exact A4|].
      apply m_eps.
    + eapply m_seq; [apply m_rep; simpl; auto; lia|].
      apply m_group. apply m_rep; simpl; auto; lia.
Qed.

Lemma falsy_digits : forall w, digits 8 w -> falsy (Some w) = false.
Proof. intros [| c r] [L _]; [discriminate L | reflexivity]. Qed.

Lemma labelled_id_no_digits :
  forall t w, leftmost labelled_id_no t w -> digits 8 w.
Proof.
  intros t w (i & (pre & l1 & ws & l2 & seps & post & H) & _). apply H.
Qed.

Lemma labelled_id_digits :
  forall t w, leftmost labelled_id t w -> digits 8 w.
Proof. intros t w (i & (pre & l & seps & post & H) & _). apply H. Qed.

Lemma standalone_digits :
  forall b t w, leftmost (standalone b) t w -> digits 8 w.
Proof. intros b t w (i & (pre & post & H) & _). apply H. Qed.

Lemma extract_moodle_id_spec :
  forall t,
    match extract_moodle_id t with
    | Some w => id_found t w
    | None => id_absent t
    end.
Proof.
  intros t. unfold extract_moodle_id, moodle_patterns, first_group.
  pose proof (search_group_spec _ _ id_no_elim id_no_intro t) as S1.
  pose proof (search_group_spec _ _ id_elim id_intro t) as S2.
  pose proof (search_group_spec _ _ moodle_elim moodle_intro t) as S3.
  pose proof (search_group_spec _ _ any8_elim any8_intro t) as S4.
  destruct (re_search pat_id_no t) as [m1|].
  { destruct S1 as (w & -> & L).
    rewrite (falsy_digits _ (labelled_id_no_digits _ _ L)).
    left; exact L. }
  destruct (re_search pat_id t) as [m2|].
  { destruct S2 as (w & -> & L).
    rewrite (falsy_digits _ (labelled_id_digits _ _ L)).
    right; left; auto. }
  destruct (re_search pat_moodle t) as [m3|].
  { destruct S3 as (w & -> & L).
    rewrite (falsy_digits _ (standalone_digits _ _ _ L)).
    right; right; left; auto. }
  simpl. destruct (re_search pat_any8 t) as [m4|].
  { destruct S4 as (w & -> & L). right; right; right; auto. }
  repeat split; assumption.
Qed.

(** Each form names its digits: at a given offset there is one reading. *)
Lemma app_same_length :
  forall (a a' b b' : text),
    a ++ b = a' ++ b' -> List.length a = List.length a' ->
    a = a' /\ b = b'.
Proof.
  induction a as [| x a IH]; intros [| y a'] b b' E L; simpl in *;
    try discriminate L; auto.
  inversion E; subst. destruct (IH a' b b' H1) as [-> ->]; auto.
Qed.

Lemma span_unique :
  forall (P : ascii -> bool) (a a' b b' : text),
    Forall (fun c => P c = true) a -> Forall (fun c => P c = true) a' ->
    (exists c r, b = c :: r /\ P c = false) ->
    (exists c r, b' = c :: r /\ P c = false) ->
    a ++ b = a' ++ b' -> a = a' /\ b = b'.
Proof.
  intros P; induction a as [| x a IH];
    intros [| y a'] b b' Fa Fa' (c & r & -> & Pc) (c' & r' & -> & Pc') E;
    simpl in *.
  - auto.
  - inversion E; subst. inversion Fa'; subst. congruence.
  - inversion E; subst. inversion Fa; subst. congruence.
  - inversion E; subst. inversion Fa; inversion Fa'; subst.
    destruct (IH a' (c :: r) (c' :: r')) as [-> ->]; eauto.
Qed.

Lemma digit_not_sep :
  forall c, is_digit c = true -> colon_or_space c = false.
Proof.
  intros c. destruct c as [[] [] [] [] [] [] [] []]; vm_compute;
    intros H; try discriminate H; reflexivity.
Qed.

Lemma letter_n_not_space :
  forall c, lower_char c = "n"%char -> is_space c = false.
Proof.
  intros c. destruct c as [[] [] [] [] [] [] [] []]; vm_compute;
    intros H; try discriminate H; reflexivity.
Qed.

Lemma digits_head :
  forall n w rest, digits (S n) w ->
    exists c r, w ++ rest = c :: r /\ is_digit c = true.
Proof.
  intros n [| c w] rest [L F]; [discriminate L|].
  inversion F; subst. exists c, (w ++ rest); auto.
Qed.

Lemma lower_two :
  forall (l : text) a b,
    lower l = [a; b] ->
    exists x y, l = [x; y] /\ lower_char x = a /\ lower_char y = b.
Proof.
  intros [| x [| y [| z l]]] a b E; try discriminate E.
  inversion E; subst. eauto.
Qed.

Lemma standalone_unique :
  forall b t i w w', standalone b t i w -> standalone b t i w' -> w = w'.
Proof.
  intros b t i w w' (pre & post & -> & Lp & [Lw _] & _)
                    (pre' & post' & E & Lp' & [Lw' _] & _).
  destruct (app_same_length _ _ _ _ E) as [_ E']; [congruence|].
  destruct (app_same_length _ _ _ _ E') as [-> _]; congruence.
Qed.

Lemma labelled_id_unique :
  forall t i w w', labelled_id t i w -> labelled_id t i w' -> w = w'.
Proof.
  intros t i w w' (pre & l & seps & post & -> & Lp & Ll & Fs & D)
                  (pre' & l' & seps' & post' & E & Lp' & Ll' & Fs' & D').
  destruct (app_same_length _ _ _ _ E) as [_ E1]; [congruence|].
  destruct (lower_two _ _ _ Ll) as (x & y & -> & _).
  destruct (lower_two _ _ _ Ll') as (x' & y' & -> & _).
  destruct (app_same_length _ _ _ _ E1) as [_ E2]; [reflexivity|].
  destruct (digits_head _ _ post D) as (c & r & Hc & Dc).
  destruct (digits_head _ _ post' D') as (c' & r' & Hc' & Dc').
  assert (X : exists c r, w ++ post = c :: r /\ colon_or_space c = false)
    by (rewrite Hc; eauto using digit_not_sep).
  assert (X' : exists c r, w' ++ post' = c :: r /\ colon_or_space c = false)
    by (rewrite Hc'; eauto using digit_not_sep).
  destruct (span_unique colon_or_space _ _ _ _ Fs Fs' X X' E2) as [_ E3].
  destruct D as [Lw _], D' as [Lw' _].
  destruct (app_same_length _ _ _ _ E3) as [-> _]; congruence.
Qed.

Lemma labelled_id_no_unique :
  forall t i w w', labelled_id_no t i w -> labelled_id_no t i w' -> w = w'.
Proof.
  intros t i w w'
    (pre & l1 & ws & l2 & seps & post & -> & Lp & La & Fw & Lb & Fs & D)
    (pre' & l1' & ws' & l2' & seps' & post' & E & Lp' & La' & Fw' & Lb'
     & Fs' & D').
  destruct (app_same_length _ _ _ _ E) as [_ E1]; [congruence|].
  destruct (lower_two _ _ _ La) as (x & y & -> & _).
  destruct (lower_two _ _ _ La') as (x' & y' & -> & _).
  destruct (app_same_length _ _ _ _ E1) as [_ E2]; [reflexivity|].
  destruct (lower_two _ _ _ Lb) as (n & o & -> & Hn & _).
  destruct (lower_two _ _ _ Lb') as (n' & o' & -> & Hn' & _).
  assert (Y : exists c r,
               [n; o] ++ seps ++ w ++ post = c :: r /\ is_space c = false)
    by (simpl; eauto using letter_n_not_space).
  assert (Y' : exists c r,
                [n'; o'] ++ seps' ++ w' ++ post' = c :: r
                /\ is_space c = false)
    by (simpl; eauto using letter_n_not_space).
  destruct (span_unique is_space _ _ _ _ Fw Fw' Y Y' E2) as [_ E3].
  destruct (app_same_length _ _ _ _ E3) as [_ E4]; [reflexivity|].
  destruct (digits_head _ _ post D) as (c & r & Hc & Dc).
  destruct (digits_head _ _ post' D') as (c' & r' & Hc' & Dc').
  assert (X : exists c r, w ++ post = c :: r /\ colon_or_space c = false)
    by (rewrite Hc; eauto using digit_not_sep).
  assert (X' : exists c r, w' ++ post' = c :: r /\ colon_or_space c = false)
    by (rewrite Hc'; eauto using digit_not_sep).
  destruct (span_unique colon_or_space _ _ _ _ Fs Fs' X X' E4) as [_ E5].
  destruct D as [Lw _], D' as [Lw' _].
  destruct (app_same_length _ _ _ _ E5) as [-> _]; congruence.
Qed.

Lemma leftmost_unique :
  forall (Q : text -> nat -> text -> Prop),
    (forall t i w w', Q t i w -> Q t i w' -> w = w') ->
    forall t w w', leftmost Q t w -> leftmost Q t w' -> w = w'.
Proof.
  intros Q Det t w w' (i & Hq & Least) (i' & Hq' & Least').
  destruct (Nat.lt_trichotomy i i') as [L | [-> | L]].
  - exfalso. exact (Least' _ _ L Hq).
  - eapply Det; eauto.
  - exfalso. exact (Least _ _ L Hq').
Qed.

Lemma leftmost_somewhere :
  forall (Q : text -> nat -> text -> Prop) t w,
    leftmost Q t w -> nowhere Q t -> False.
Proof. intros Q t w (i & Hq & _) N. exact (N i w Hq). Qed.

Lemma id_found_unique :
  forall t w w', id_found t w -> id_found t w' -> w = w'.
Proof.
  intros t w w' H H'.
  destruct H as [A | [(N1 & A) | [(N1 & N2 & A) | (N1 & N2 & N3 & A)]]];
    destruct H' as [B | [(M1 & B) | [(M1 & M2 & B) | (M1 & M2 & M3 & B)]]];
    try solve [ exfalso; eauto using leftmost_somewhere ].
  - exact (leftmost_unique _ labelled_id_no_unique _ _ _ A B).
  - exact (leftmost_unique _ labelled_id_unique _ _ _ A B).
  - exact (leftmost_unique _ (standalone_unique true) _ _ _ A B).
  - exact (leftmost_unique _ (standalone_unique false) _ _ _ A B).
Qed.

Lemma id_found_present :
  forall t w, id_found t w -> id_absent t -> False.
Proof.
  intros t w H (N1 & N2 & N3 & N4).
  destruct H as [A | [(_ & A) | [(_ & _ & A) | (_ & _ & _ & A)]]];
    eauto using leftmost_somewhere.
Qed.

Lemma extract_moodle_id_iff :
  forall t w,
    (extract_moodle_id t = Some w <-> id_found t w)
    /\ (extract_moodle_id t = None <-> id_absent t).
Proof.
  intros t w. pose proof (extract_moodle_id_spec t) as S.
  destruct (extract_moodle_id t) as [w0|]; split; split.
  - intros E; inversion E; subst; exact S.
  - intros F. f_equal. eapply id_found_unique; eauto.
  - discriminate.
  - intros A. exfalso. eapply id_found_present; eauto.
  - discriminate.
  - intros F. exfalso. eapply id_found_present; eauto.
  - auto.
  - auto.
Qed.

(** C7, as amended.  On 7-bit OCR text, the identifier that parsing returns
    is the one after the leftmost "ID NO" label, else after the leftmost "ID"
    label, else the leftmost stand-alone 8-digit number starting with 2, else
    the leftmost stand-alone 8-digit number; it is null exactly when the text
    has none of these. *)
Theorem C7_identifier_extraction :
  forall regions ocr_results card_image w,
    plain_ocr ocr_results ->
    let d := fst (parse_id_card_data regions ocr_results card_image) in
    (moodle_id d = Some w <-> id_found (raw_text d) w)
    /\ (moodle_id d = None <-> id_absent (raw_text d)).
Proof.
  intros regions ocr_results card_image w _.
  exact (extract_moodle_id_iff
           (raw_text (fst (parse_id_card_data regions ocr_results
                                              card_image))) w).
Qed.

(** C7 as amended, on a card whose second fragment carries the label. *)
Lemma C7_identifier_extraction_witness :
  let d := fst (parse_id_card_data ID_CARD_REGIONS labelled_fragment None) in
  plain_ocr labelled_fragment
  /\ moodle_id d = Some (T "22102003")
  /\ id_found (raw_text d) (T "22102003").
Proof.
  assert (P : plain_ocr labelled_fragment) by reflexivity.
  assert (E : moodle_id
                (fst (parse_id_card_data ID_CARD_REGIONS labelled_fragment
                                         None))
              = Some (T "22102003")) by (vm_compute; reflexivity).
  split; [exact P|]. split; [exact E|].
  apply (proj1 (C7_identifier_extraction ID_CARD_REGIONS labelled_fragment
                  None (T "22102003") P)).
  exact E.
Defined.

(** C7, counterexample.  A labelled number wins over a number starting with
    2, whatever its first digit; and a number starting with 2 that touches a
    letter is not found at all. *)
Lemma C7_label_first_and_word_boundaries :
  extract_moodle_id (T "ID NO: 12345678 22102003") = Some (T "12345678")
  /\ contains (T "22102003") (T "ID NO: 12345678 22102003") = true
  /\ extract_moodle_id (T "abc22102003") = None
  /\ contains (T "22102003") (T "abc22102003") = true.
Proof. repeat split; vm_compute; reflexivity. Qed.

Lemma existsb_false_Forall :
  forall (A : Type) (f : A -> bool) l,
    existsb f l = false <-> Forall (fun x => f x = false) l.
Proof.
  intros A f l; induction l as [| a l IH]; simpl.
  - split; auto.
  - rewrite orb_false_iff, IH. split.
    + intros [H1 H2]; constructor; auto.
    + intros H; inversion H; auto.
Qed.

Lemma existsb_eqb_In :
  forall c (l : text), existsb (Ascii.eqb c) l = true <-> In c l.
Proof.
  intros c l. rewrite existsb_exists. split.
  - intros (x & I & E). apply Ascii.eqb_eq in E; subst; auto.
  - intros I. exists c; split; auto. apply Ascii.eqb_refl.
Qed.

Lemma is_valid_name_spec :
  forall t, is_valid_name t = true <-> valid_name t.
Proof.
  intros t. unfold is_valid_name, valid_name.
  set (u := upper (strip t)).
  set (b1 := forallb (fun c => is_alpha c || is_space c) u).
  set (b2 := (List.length u <? 6) || (30 <? List.length u)).
  set (b3 := existsb (fun pat => contains pat (lower u))
                     invalid_name_patterns).
  set (b4 := negb (existsb (Ascii.eqb " ") u) && (List.length u <? 8)).
  set (b5 := match split_ws u with
             | [w] => List.length w <? 8
             | _ => false
             end).
  set (b6 := (0 <? List.length u)
             && (5 * vowel_count (lower u) <? List.length u)).
  assert (R1 : b1 = true
               <-> Forall (fun c => is_alpha c || is_space c = true) u).
  { unfold b1. rewrite forallb_forall, Forall_forall. tauto. }
  assert (R2 : b2 = false <-> 6 <= List.length u <= 30).
  { unfold b2. rewrite orb_false_iff, !Nat.ltb_ge. tauto. }
  assert (R3 : b3 = false
               <-> Forall (fun pat => contains pat (lower u) = false)
                          invalid_name_patterns).
  { unfold b3. apply existsb_false_Forall. }
  assert (R4 : b4 = false <-> In " "%char u \/ 8 <= List.length u).
  { unfold b4. rewrite andb_false_iff, negb_false_iff, Nat.ltb_ge.
    rewrite existsb_eqb_In. tauto. }
  assert (R5 : b5 = false
               <-> forall w, split_ws u = [w] -> 8 <= List.length w).
  { unfold b5. destruct (split_ws u) as [| w [| w' ws]].
    - split; auto. intros _ w E; discriminate E.
    - rewrite Nat.ltb_ge. split.
      + intros H w0 E; inversion E; subst; exact H.
      + intros H; apply H; reflexivity.
    - split; auto. intros _ w0 E; discriminate E. }
  assert (R6 : b6 = false <-> List.length u <= 5 * vowel_count (lower u)).
  { unfold b6. rewrite andb_false_iff, !Nat.ltb_ge. lia. }
  rewrite <- R1, <- R2, <- R3, <- R4, <- R5, <- R6.
  destruct b1, b2, b3, b4, b5, b6; simpl; intuition congruence.
Qed.

Lemma first_longest_length :
  forall xs n c, first_longest xs n -> In c xs ->
    List.length c <= List.length n.
Proof.
  intros xs n c (pre & post & -> & Fp & Fq) I.
  rewrite Forall_forall in Fp, Fq.
  apply in_app_or in I. destruct I as [I | [<- | I]]; auto.
  apply Nat.lt_le_incl; auto.
Qed.

Lemma max_by_len_first_longest :
  forall xs best, first_longest (best :: xs) (max_by_len best xs).
Proof.
  induction xs as [| x rest IH]; intros best; simpl.
  - exists [], []; repeat split; constructor.
  - destruct (List.length best <? List.length x) eqn:L.
    + apply Nat.ltb_lt in L. specialize (IH x).
      pose proof (first_longest_length _ _ x IH (or_introl eq_refl)) as Lx.
      destruct IH as (pre & post & E & Fp & Fq).
      exists (best :: pre), post; repeat split; auto.
      * simpl; rewrite <- E; reflexivity.
      * constructor; auto. lia.
    + apply Nat.ltb_ge in L. specialize (IH best).
      remember (max_by_len best rest) as M eqn:EM. clear EM.
      destruct IH as (pre & post & E & Fp & Fq).
      destruct pre as [| b pre]; simpl in E; inversion E as [[Hb Hr]].
      * exists [], (x :: post); repeat split; auto.
        constructor; auto. rewrite <- Hb. exact L.
      * exists (b :: x :: pre), post; repeat split; auto.
        all: try (simpl; congruence).
        inversion Fp; subst. constructor; auto. constructor; auto. lia.
Qed.

Lemma name_candidates_valid :
  forall t, Forall valid_name (name_candidates t).
Proof.
  intros t. apply Forall_forall. intros c I.
  unfold name_candidates in I. apply in_flat_map in I.
  destruct I as (pat & _ & I). apply filter_In in I.
  apply is_valid_name_spec, I.
Qed.

Lemma extract_name_spec :
  forall t,
    match extract_name t with
    | Some n => first_longest (name_candidates t) n
    | None => name_candidates t = []
    end.
Proof.
  intros t. unfold extract_name.
  destruct (name_candidates t) as [| x rest]; auto.
  apply max_by_len_first_longest.
Qed.

(** C8, as amended.  On 7-bit OCR text, every candidate passes the validity
    filters; the name returned is the longest candidate, the first one found
    among the longest, and it is null exactly when there is no candidate; the
    OCR confidences have no part in the choice. *)
Theorem C8_name_is_longest_valid_candidate :
  forall regions ocr_results card_image (f : ocr_result -> Q),
    plain_ocr ocr_results ->
    let d := fst (parse_id_card_data regions ocr_results card_image) in
    let d' := fst (parse_id_card_data regions (reweigh f ocr_results)
                                      card_image) in
    Forall valid_name (name_candidates (raw_text d))
    /\ match name d with
       | Some n => first_longest (name_candidates (raw_text d)) n
       | None => name_candidates (raw_text d) = []
       end
    /\ name d' = name d.
Proof.
  intros regions ocr_results card_image f _. simpl. repeat split.
  - apply name_candidates_valid.
  - apply extract_name_spec.
  - unfold reweigh. rewrite map_map. simpl. reflexivity.
Qed.

(** C8 as amended, on the three fragments of the counterexample, all
    confidences replaced by one half. *)
Lemma C8_name_is_longest_valid_candidate_witness :
  let d := fst (parse_id_card_data ID_CARD_REGIONS three_fragments None) in
  let d' := fst (parse_id_card_data ID_CARD_REGIONS
                   (reweigh (fun _ => 0.5%Q) three_fragments) None) in
  plain_ocr three_fragments
  /\ Forall valid_name (name_candidates (raw_text d))
  /\ first_longest (name_candidates (raw_text d)) (T "RAMESH KUMAR SINGH")
  /\ name d' = name d.
Proof.
  assert (P : plain_ocr three_fragments) by reflexivity.
  split; [exact P|].
  exact (C8_name_is_longest_valid_candidate ID_CARD_REGIONS three_fragments
           None (fun _ => 0.5%Q) P).
Defined.

(** C8, counterexample.  Two fragments are valid names; the one returned is
    the longer, although the other was read with the higher confidence. *)
Lemma C8_longest_beats_most_confident :
  let d := fst (parse_id_card_data ID_CARD_REGIONS three_fragments None) in
  name d = Some (T "RAMESH KUMAR SINGH")
  /\ name_candidates (raw_text d)
     = [T "AVANISH VADKE"; T "RAMESH KUMAR SINGH"]
  /\ map o_confidence
         (filter (fun o => text_eqb (o_text o) (T "AVANISH VADKE")
                           || text_eqb (o_text o) (T "RAMESH KUMAR SINGH"))
                 three_fragments)
     = [0.99; 0.4]%Q
  /\ (0.4 < 0.99)%Q.
Proof. repeat split. Qed.

Lemma normalize_department_canonical :
  forall t, canonical_or_null (normalize_department t).
Proof.
  intros t. unfold normalize_department, valid_departments, first_keyword.
  repeat match goal with
    | |- context [if ?b then _ else _] => destruct b
    end;
    simpl; auto 10.
Qed.

Lemma find_department_canonical :
  forall kws t, canonical_or_null (find_department kws t).
Proof.
  induction kws as [| kw rest IH]; intros t; simpl; auto.
  destruct (contains kw (upper t)); auto.
  pose proof (normalize_department_canonical kw) as N.
  destruct (normalize_department kw) as [[| c n]|]; auto.
Qed.

(** C9.  The department produced by parsing is null or one of the six
    canonical names. *)
Theorem C9_department_is_canonical :
  forall regions ocr_results card_image,
    canonical_or_null
      (department (fst (parse_id_card_data regions ocr_results card_image))).
Proof.
  intros regions ocr_results card_image. simpl.
  apply find_department_canonical.
Qed.

(** C10.  With the shipped [ID_CARD_REGIONS], whose ['photo'] entry is a
    tuple, the string subscript raises [TypeError] inside the [try] block for
    every card image; [extract_photo_region] returns [None], and parsing
    reports [photo_extracted] as false. *)
Theorem C10_photo_never_extracted :
  forall ocr_results card_image,
    match card_image with
    | Some _ =>
        photo_region_body ID_CARD_REGIONS card_image = Raised TypeError
    | None =>
        photo_region_body ID_CARD_REGIONS card_image = Raised AttributeError
    end
    /\ extract_photo_region ID_CARD_REGIONS card_image = None
    /\ photo_extracted
         (fst (parse_id_card_data ID_CARD_REGIONS ocr_results card_image))
       = false
    /\ snd (parse_id_card_data ID_CARD_REGIONS ocr_results card_image) = None.
Proof.
  intros ocr_results [im|]; repeat split.
Qed.

End ExtractorFacts.

(** * More properties of the verification matcher *)

Module MatcherLedgerFacts.

Import Matcher MatcherSpec MatcherFacts MatcherLedger.

Lemma timeouts_nil :
  forall cfg s s0,
    access_log s0 = access_log s -> alerts s0 = alerts s ->
    stats s0 = stats s -> timeouts cfg [] s s0.
Proof.
  intros cfg s s0 A B C. unfold timeouts; simpl.
  destruct (SEND_ALERTS cfg); rewrite !app_nil_r; auto.
Qed.

Lemma scan_timeouts :
  forall cfg t m p items s s' r,
    scan cfg t m p items s = (s', r) ->
    exists es, timeouts cfg es s s'.
Proof.
  intros cfg t m p items.
  induction items as [| [key e] rest IH]; intros s s' r H.
  - simpl in H. inversion H; subst. exists []. apply timeouts_nil; auto.
  - assert (Stay : forall s0, access_log s0 = access_log s ->
                              alerts s0 = alerts s -> stats s0 = stats s ->
                              exists es, timeouts cfg es s s0).
    { intros s0 A B C. exists []. apply timeouts_nil; auto. }
    simpl in H. unfold pending_moodle_id, pending_plate_text, pop_pending in H.
    destruct (ACCESS_TIME_WINDOW cfg
                <? timedelta_seconds (t - timestamp e)) eqn:Exp.
    + destruct (dict_pop key_eqb key (pending_verifications s))
        as [[x d]|] eqn:P.
      * destruct (IH _ _ _ H) as (es & L & A & S).
        exists (x :: es). unfold timeouts. simpl in L, A, S.
        destruct (SEND_ALERTS cfg); simpl in *;
          rewrite L, A, S, <- ?app_assoc; simpl; rewrite ?app_nil_r; auto.
      * inversion H; subst. apply Stay; auto.
    + destruct (truthy m); destruct (truthy p);
        destruct (id_card e) as [c|];
        destruct (vehicle e) as [v|];
        try destruct (opt_eqb (moodle_id c) m);
        try destruct (opt_eqb (plate_text v) p);
        try destruct (dict_pop key_eqb key (pending_verifications s))
          as [[x d]|];
        try (inversion H; subst; clear H; apply Stay; reflexivity);
        eapply IH; eassumption.
Qed.

Lemma observe_steps :
  forall cfg ev s,
    NoDup (map fst (pending_verifications s)) ->
    Forall (fun ke => one_sided (snd ke) = true) (pending_verifications s) ->
    Forall (fun x => record_one_sided x = true) (access_log s) ->
    exists es s1,
      timeouts cfg es s s1
      /\ ((access_log (fst (observe cfg ev s)) = access_log s1
           /\ alerts (fst (observe cfg ev s)) = alerts s1
           /\ stats (fst (observe cfg ev s)) = stats s1)
          \/ (policy_step cfg s1 (fst (observe cfg ev s))
              /\ snd (observe cfg ev s) = Raised AttributeError)).
Proof.
  intros cfg [clk [vd | cd]] s N Fp Fl; unfold observe; simpl.
  - unfold process_vehicle_detection.
    destruct (v_is_valid vd) eqn:V; simpl.
    2:{ exists [], s. split; [apply timeouts_nil | left]; auto. }
    destruct (check_pending_verification cfg (now clk) None (plate_text vd) s)
      as [s1 r] eqn:C.
    destruct (check_one_sided _ _ _ _ _ _ _ N Fp Fl C) as (Fp1 & Fl1 & Hit).
    destruct (scan_timeouts _ _ _ _ _ _ _ _ C) as (es & T).
    exists es, s1. split; auto.
    destruct r as [[e|]|x]; simpl; [| left; auto | left; auto].
    destruct (Hit e eq_refl) as (O & _ & [[Tm _] | (_ & v & Ev & _)]);
      [discriminate Tm|].
    assert (Ic : id_card e = None).
    { unfold one_sided in O. rewrite Ev in O.
      destruct (id_card e); [discriminate O | reflexivity]. }
    rewrite Ic. right.
    destruct (match_vehicle_and_id cfg (ts1 clk) (Some vd) None (stats s1))
      as [res st] eqn:M. simpl. split; auto.
    exists (ts1 clk), (Some vd), None. split; [left; eauto|].
    rewrite M. simpl. unfold denied.
    destruct (SEND_ALERTS cfg && _); rewrite ?app_nil_r; auto.
  - unfold process_id_card_detection.
    destruct (c_is_valid cd) eqn:V; simpl.
    2:{ exists [], s. split; [apply timeouts_nil | left]; auto. }
    destruct (check_pending_verification cfg (now clk) (moodle_id cd) None s)
      as [s1 r] eqn:C.
    destruct (check_one_sided _ _ _ _ _ _ _ N Fp Fl C) as (Fp1 & Fl1 & Hit).
    destruct (scan_timeouts _ _ _ _ _ _ _ _ C) as (es & T).
    exists es, s1. split; auto.
    destruct r as [[e|]|x]; simpl; [| left; auto | left; auto].
    destruct (Hit e eq_refl) as (O & _ & [(_ & c & Ec & _) | [Tp _]]);
      [|discriminate Tp].
    assert (Iv : vehicle e = None).
    { unfold one_sided in O. rewrite Ec in O.
      destruct (vehicle e); [discriminate O | reflexivity]. }
    rewrite Iv. right.
    destruct (match_vehicle_and_id cfg (ts1 clk) None (Some cd) (stats s1))
      as [res st] eqn:M. simpl. split; auto.
    exists (ts1 clk), None, (Some cd). split; [right; eauto|].
    rewrite M. simpl. unfold denied.
    destruct (SEND_ALERTS cfg && _); rewrite ?app_nil_r; auto.
Qed.

Lemma count_app :
  forall (A : Type) (f : A -> bool) l l',
    count f (l ++ l') = (count f l + count f l')%nat.
Proof.
  intros. unfold count. rewrite filter_app, length_app. reflexivity.
Qed.

Lemma count_timeouts :
  forall f es,
    (forall e, f (expire_record e) = false) ->
    count f (map expire_record es) = 0%nat.
Proof.
  intros f es H. unfold count.
  induction es as [| e es IH]; simpl; auto. rewrite H. exact IH.
Qed.

Lemma count_all_timeouts :
  forall f es,
    (forall e, f (expire_record e) = true) ->
    count f (map expire_record es) = List.length es.
Proof.
  intros f es H. unfold count.
  induction es as [| e es IH]; simpl; auto. rewrite H. simpl. auto.
Qed.

Lemma filter_denied_timeouts :
  forall es,
    filter denied (map expire_record es) = map expire_record es.
Proof.
  induction es as [| e es IH]; simpl; auto. rewrite IH. reflexivity.
Qed.

Lemma timeouts_ledger :
  forall cfg es s s1,
    ledger cfg s -> timeouts cfg es s s1 -> ledger cfg s1.
Proof.
  unfold ledger, timeouts.
  intros cfg es s s1 (A & T & G & Sum & B & D & R) (L1 & A1 & S1).
  rewrite S1, L1, A1.
  split; [|split; [|split; [|split; [|split; [|split]]]]]; auto.
  - rewrite A. destruct (SEND_ALERTS cfg); [|reflexivity].
    rewrite filter_app, filter_denied_timeouts. reflexivity.
  - rewrite count_app, count_timeouts by reflexivity. lia.
  - rewrite count_app, count_timeouts by reflexivity. lia.
  - rewrite !count_app, !count_all_timeouts by reflexivity. lia.
  - destruct (REQUIRE_BOTH_VERIFICATIONS cfg).
    + destruct R as (F & R). split; auto.
      apply Forall_app; split; auto.
      apply Forall_forall. intros r I. apply in_map_iff in I.
      destruct I as (e & <- & _). reflexivity.
    + destruct R as (F & R). split; auto.
      apply Forall_app; split; auto.
      apply Forall_forall. intros r I. apply in_map_iff in I.
      destruct I as (e & <- & _). reflexivity.
Qed.

Lemma policy_ledger :
  forall cfg s1 s',
    ledger cfg s1 -> policy_step cfg s1 s' -> ledger cfg s'.
Proof.
  unfold ledger, policy_step.
  intros cfg s1 s' (A & T & G & Sum & B & D & R)
         (ts & v & c & Side & L1 & A1 & S1).
  rewrite S1, L1, A1. clear S1 L1 A1.
  assert (Both : REQUIRE_BOTH_VERIFICATIONS cfg = true ->
                 match_vehicle_and_id cfg ts v c (stats s1)
                 = ({| r_timestamp := ts; r_vehicle := v; r_id_card := c;
                       r_match_status := Some "incomplete"%string;
                       r_access_decision := "denied"%string;
                       r_reason :=
                         Some "Both vehicle and ID card required"%string |},
                    {| total_attempts := S (total_attempts (stats s1));
                       access_granted := access_granted (stats s1);
                       access_denied := S (access_denied (stats s1));
                       vehicle_only := vehicle_only (stats s1);
                       id_card_only := id_card_only (stats s1);
                       both_verified := both_verified (stats s1) |})).
  { intros Rb. unfold match_vehicle_and_id. rewrite Rb.
    destruct Side as [(vd & -> & V & ->) | (cd & -> & V & ->)];
      simpl; rewrite ?V; reflexivity. }
  assert (Either : REQUIRE_BOTH_VERIFICATIONS cfg = false ->
                   exists a b,
                     (a + b = 1)%nat
                     /\ match_vehicle_and_id cfg ts v c (stats s1)
                        = ({| r_timestamp := ts; r_vehicle := v;
                              r_id_card := c;
                              r_match_status := Some "partial"%string;
                              r_access_decision := "granted"%string;
                              r_reason := None |},
                           {| total_attempts := S (total_attempts (stats s1));
                              access_granted := S (access_granted (stats s1));
                              access_denied := access_denied (stats s1);
                              vehicle_only := (a + vehicle_only (stats s1))%nat;
                              id_card_only := (b + id_card_only (stats s1))%nat;
                              both_verified := both_verified (stats s1) |})).
  { intros Rb. unfold match_vehicle_and_id. rewrite Rb.
    destruct Side as [(vd & -> & V & ->) | (cd & -> & V & ->)];
      simpl; rewrite ?V; simpl;
      [exists 1%nat, 0%nat | exists 0%nat, 1%nat]; split; reflexivity. }
  destruct (REQUIRE_BOTH_VERIFICATIONS cfg).
  - rewrite (Both eq_refl). simpl. clear Both Either.
    destruct R as (F & G0 & Vo & Io).
    rewrite !count_app. unfold count at 2 4 6 8. simpl.
    split; [|split; [|split; [|split; [|split; [|split]]]]]; auto; try lia.
    + rewrite A. destruct (SEND_ALERTS cfg); simpl; [|reflexivity].
      rewrite filter_app. reflexivity.
    + split; auto. apply Forall_app; split; auto.
  - destruct (Either eq_refl) as (a & b & Sab & ->). simpl. clear Both Either.
    destruct R as (F & D0 & Vo).
    rewrite !count_app. unfold count at 2 4 6 8. simpl.
    split; [|split; [|split; [|split; [|split; [|split]]]]]; auto; try lia.
    + rewrite A, andb_false_r, app_nil_r.
      destruct (SEND_ALERTS cfg); simpl; [|reflexivity].
      rewrite filter_app. simpl. rewrite app_nil_r. reflexivity.
    + split; [|split]; auto; try lia. apply Forall_app; split; auto.
Qed.

Lemma same_ledger :
  forall cfg s s',
    access_log s' = access_log s -> alerts s' = alerts s ->
    stats s' = stats s -> ledger cfg s -> ledger cfg s'.
Proof.
  unfold ledger. intros cfg s s' -> -> ->. auto.
Qed.

Lemma run_ledger :
  forall cfg evs s,
    NoDup (map fst (pending_verifications s)) ->
    Forall (fun ke => one_sided (snd ke) = true) (pending_verifications s) ->
    Forall (fun x => record_one_sided x = true) (access_log s) ->
    ledger cfg s ->
    ledger cfg (run cfg evs s).
Proof.
  intros cfg evs; induction evs as [| ev evs IH]; intros s N Fp Fl Ld;
    simpl; auto.
  destruct (observe_one_sided cfg ev s N Fp Fl) as [Fp1 Fl1].
  apply IH; auto using observe_nodup.
  destruct (observe_steps cfg ev s N Fp Fl) as (es & s1 & T & Step).
  pose proof (timeouts_ledger _ _ _ _ Ld T) as L1.
  destruct Step as [(A & B & C) | [P _]].
  - eapply same_ledger; eauto.
  - eapply policy_ledger; eauto.
Qed.

Lemma init_ledger : forall cfg, ledger cfg init.
Proof.
  intros cfg. unfold ledger, init, count; simpl.
  destruct (SEND_ALERTS cfg), (REQUIRE_BOTH_VERIFICATIONS cfg);
    repeat split; auto.
Qed.

Lemma reachable_ledger : forall cfg evs, ledger cfg (run cfg evs init).
Proof.
  intros. apply run_ledger;
    [constructor | constructor | constructor | apply init_ledger].
Qed.

Lemma observe_raises_attribute_error :
  forall cfg ev s x,
    NoDup (map fst (pending_verifications s)) ->
    snd (observe cfg ev s) = Raised x -> x = AttributeError.
Proof.
  intros cfg [clk [vd | cd]] s x N; unfold observe; simpl.
  - unfold process_vehicle_detection.
    destruct (v_is_valid vd); simpl; [|discriminate].
    destruct (check_pending_verification cfg (now clk) None (plate_text vd) s)
      as [s1 r] eqn:C.
    pose proof (scan_inv cfg _ _ _ _ [] _ _ _ eq_refl N (Forall_nil _) C) as V.
    destruct r as [[e|]|y]; simpl.
    + destruct (match_vehicle_and_id cfg (ts1 clk) (Some vd) (id_card e)
                  (stats s1)) as [res st].
      unfold pending_name; simpl. destruct (id_card e); simpl; congruence.
    + discriminate.
    + congruence.
  - unfold process_id_card_detection.
    destruct (c_is_valid cd); simpl; [|discriminate].
    destruct (check_pending_verification cfg (now clk) (moodle_id cd) None s)
      as [s1 r] eqn:C.
    pose proof (scan_inv cfg _ _ _ _ [] _ _ _ eq_refl N (Forall_nil _) C) as V.
    destruct r as [[e|]|y]; simpl.
    + destruct (match_vehicle_and_id cfg (ts1 clk) (vehicle e) (Some cd)
                  (stats s1)) as [res st].
      unfold pending_plate_text; simpl. destruct (vehicle e); simpl; congruence.
    + discriminate.
    + congruence.
Qed.

Lemma reachable :
  forall cfg evs,
    let s := run cfg evs init in
    NoDup (map fst (pending_verifications s))
    /\ Forall (fun ke => one_sided (snd ke) = true) (pending_verifications s)
    /\ Forall (fun x => record_one_sided x = true) (access_log s).
Proof.
  intros cfg evs s. split; [apply run_nodup; constructor|].
  apply run_one_sided; constructor.
Qed.

Lemma shrinks_one_kind :
  forall d d', shrinks d d' -> one_kind d -> one_kind d'.
Proof.
  intros d d' Sh [F | F]; [left | right];
    eapply shrinks_Forall; eauto.
Qed.

Lemma observe_one_kind :
  forall cfg ev s,
    well_formed (snd ev) ->
    NoDup (map fst (pending_verifications s)) ->
    Forall (fun ke => one_sided (snd ke) = true) (pending_verifications s) ->
    Forall (fun x => record_one_sided x = true) (access_log s) ->
    one_kind (pending_verifications s) ->
    one_kind (pending_verifications (fst (observe cfg ev s))).
Proof.
  intros cfg ev s W N Fp Fl K.
  destruct (observe_shrinks_or_stores cfg ev s)
    as [Sh | (s1 & k & e & -> & Sh & Which)].
  - eapply shrinks_one_kind; eauto.
  - destruct Which as [(vd & Ev & V & -> & C) | (cd & Ev & V & -> & C)];
      rewrite Ev in W; simpl in W; specialize (W V);
      pose proof (check_none_checked _ _ _ _ _ _ N C) as Ch;
      destruct (check_one_sided _ _ _ _ _ _ _ N Fp Fl C) as (Fp1 & _ & _);
      [left | right];
      (apply dict_set_Forall; [|reflexivity]);
      rewrite Forall_forall in *; intros ke I;
      specialize (Fp1 ke I);
      specialize (Ch (snd ke) (in_map snd _ _ I));
      destruct Ch as (_ & Cm & Cp).
    + destruct (Cp W) as (v & Ev' & _).
      unfold vehicle_entry, one_sided in *. rewrite Ev' in *.
      destruct (id_card (snd ke)); [discriminate Fp1 | reflexivity].
    + destruct (Cm W) as (c & Ec & _).
      unfold identity_entry, one_sided in *. rewrite Ec in *.
      destruct (vehicle (snd ke)); [discriminate Fp1 | reflexivity].
Qed.

Lemma run_one_kind :
  forall cfg evs s,
    Forall (fun ev => well_formed (snd ev)) evs ->
    NoDup (map fst (pending_verifications s)) ->
    Forall (fun ke => one_sided (snd ke) = true) (pending_verifications s) ->
    Forall (fun x => record_one_sided x = true) (access_log s) ->
    one_kind (pending_verifications s) ->
    one_kind (pending_verifications (run cfg evs s)).
Proof.
  intros cfg evs; induction evs as [| ev evs IH]; intros s W N Fp Fl K;
    simpl; auto.
  inversion W; subst.
  destruct (observe_one_sided cfg ev s N Fp Fl) as [Fp1 Fl1].
  apply IH; auto using observe_nodup, observe_one_kind.
Qed.

(** A scan for an identifier over vehicle entries, or for a plate over
    identity entries, stops at the first entry that has not expired. *)
Lemma scan_other_kind :
  forall cfg t m p items (K : list (pending_key * pending_entry)) s,
    pending_verifications s = (K ++ items)%list ->
    NoDup (map fst (K ++ items)) ->
    (truthy m = true /\ Forall (fun ke => vehicle_entry ke = true) items
     \/ truthy m = false /\ truthy p = true
        /\ Forall (fun ke => identity_entry ke = true) items) ->
    Exists (fun ke => expired cfg t ke = false) items ->
    exists s', scan cfg t m p items s = (s', Raised AttributeError).
Proof.
  intros cfg t m p items.
  induction items as [| [key e] rest IH]; intros K s E N Kind Ex.
  - inversion Ex.
  - simpl. rewrite (pop_pending_here K key e rest s E N).
    assert (N' : NoDup (map fst (K ++ rest))).
    { rewrite map_app in *. simpl in N. eapply NoDup_remove_1; eauto. }
    unfold expired in Ex.
    destruct (ACCESS_TIME_WINDOW cfg
                <? timedelta_seconds (t - timestamp e)) eqn:Exp.
    + apply (IH K); auto.
      * destruct Kind as [[Tm F] | (Tm & Tp & F)]; inversion F; subst; auto.
      * inversion Ex; subst; auto. simpl in *. congruence.
    + unfold pending_moodle_id, pending_plate_text.
      destruct Kind as [[Tm F] | (Tm & Tp & F)];
        inversion F as [|? ? Hd]; subst;
        rewrite Tm; [| rewrite Tp];
        unfold vehicle_entry, identity_entry in Hd; simpl in Hd;
        destruct (vehicle e), (id_card e); try discriminate Hd; eauto.
Qed.



(** X2.  Whatever has been observed before, the only exception a detection
    handler raises is [AttributeError]: the [pop] inside the scan always
    finds its key, since the keys of the pending set are distinct. *)
Theorem handlers_raise_attribute_error_only :
  forall cfg evs ev x,
    snd (observe cfg ev (run cfg evs init)) = Raised x -> x = AttributeError.
Proof.
  intros cfg evs ev x H.
  eapply observe_raises_attribute_error; eauto.
  apply run_nodup; constructor.
Qed.

(** X2 on the identity that follows a vehicle. *)
Lemma handlers_raise_attribute_error_only_witness :
  exists x,
    snd (observe shipped card_at_10 (run shipped [car_at_0] init)) = Raised x
    /\ x = AttributeError.
Proof.
  exists AttributeError. split; [reflexivity|].
  exact (handlers_raise_attribute_error_only
           shipped [car_at_0] card_at_10 AttributeError eq_refl).
Defined.

(** X3.  No record of the access log holds both a vehicle and an identity:
    the lookup pairs an observation with entries of its own kind only, so
    [match_vehicle_and_id] never sees the two sides together. *)
Theorem no_record_holds_both_sides :
  forall cfg evs,
    Forall (fun r => r_vehicle r = None \/ r_id_card r = None)
           (access_log (run cfg evs init)).
Proof.
  intros cfg evs.
  pose proof (no_record_combines_both_sides cfg evs) as F.
  revert F. apply Forall_impl. intros r. unfold record_one_sided.
  destruct (r_vehicle r), (r_id_card r); auto; discriminate.
Qed.

(** X4.  While both verifications are required, every record ever logged is
    a denial and the granted counter stays at zero, whatever is observed. *)
Theorem both_required_never_grants :
  forall window send_alerts evs,
    let cfg := {| REQUIRE_BOTH_VERIFICATIONS := true;
                  ACCESS_TIME_WINDOW := window;
                  SEND_ALERTS := send_alerts |} in
    let s := run cfg evs init in
    Forall (fun r => r_access_decision r = "denied"%string) (access_log s)
    /\ access_granted (stats s) = 0%nat
    /\ both_verified (stats s) = 0%nat.
Proof.
  intros window send_alerts evs cfg s.
  destruct (reachable_ledger cfg evs) as (_ & _ & _ & _ & B & _ & F & G & _).
  fold s in B, F, G. split; [|split]; auto.
  revert F. apply Forall_impl. intros r. unfold denied.
  apply String.eqb_eq.
Qed.

(** X5.  When either verification suffices, every decision of the policy is
    a grant: the only denials in the log are the timeouts, the denied
    counter stays at zero, and each grant is counted as vehicle-only or as
    identity-only. *)
Theorem either_suffices_always_grants :
  forall window send_alerts evs,
    let cfg := {| REQUIRE_BOTH_VERIFICATIONS := false;
                  ACCESS_TIME_WINDOW := window;
                  SEND_ALERTS := send_alerts |} in
    let s := run cfg evs init in
    Forall (fun r => r_match_status r <> None
                     <-> r_access_decision r = "granted"%string)
           (access_log s)
    /\ access_denied (stats s) = 0%nat
    /\ (vehicle_only (stats s) + id_card_only (stats s)
        = access_granted (stats s))%nat.
Proof.
  intros window send_alerts evs cfg s.
  destruct (reachable_ledger cfg evs) as (_ & _ & _ & _ & _ & _ & F & D & V).
  fold s in F, D, V. split; [|split]; auto.
  revert F. apply Forall_impl. intros r. unfold from_policy, granted.
  intros E. rewrite <- String.eqb_eq, <- E.
  destruct (r_match_status r); split; congruence.
Qed.

(** X6.  The alerts are the denied records of the access log, in order,
    when alerts are on, and there are none when they are off. *)
Theorem alerts_are_the_denied_records :
  forall cfg evs,
    let s := run cfg evs init in
    alerts s = if SEND_ALERTS cfg then filter denied (access_log s) else [].
Proof.
  intros cfg evs s. apply reachable_ledger.
Qed.

(** X7.  The counters follow the decisions of the policy only:
    [total_attempts] is the number of logged records that carry a
    ['match_status'], it is the sum of the granted and the denied counters,
    and the denials of the log exceed the denied counter by the number of
    timeouts, which no counter records. *)
Theorem counters_leave_timeouts_out :
  forall cfg evs,
    let s := run cfg evs init in
    total_attempts (stats s) = count from_policy (access_log s)
    /\ (access_granted (stats s) + access_denied (stats s)
        = total_attempts (stats s))%nat
    /\ access_granted (stats s) = count granted (access_log s)
    /\ count denied (access_log s)
       = (access_denied (stats s) + count timed_out (access_log s))%nat.
Proof.
  intros cfg evs s.
  destruct (reachable_ledger cfg evs) as (_ & T & G & Sum & _ & D & _).
  auto.
Qed.

(** X8.  After well-formed observations the pending set holds entries of
    one kind only: vehicles waiting for an identity, or identities waiting
    for a vehicle, never both. *)
Theorem pending_entries_are_of_one_kind :
  forall cfg evs,
    Forall (fun ev => well_formed (snd ev)) evs ->
    one_kind (pending_verifications (run cfg evs init)).
Proof.
  intros cfg evs W.
  apply run_one_kind; auto; try constructor. constructor.
Qed.

(** X8 on a run of three vehicles. *)
Lemma pending_entries_are_of_one_kind_witness :
  Forall (fun ev => well_formed (snd ev)) sample_run
  /\ one_kind (pending_verifications (run shipped sample_run init)).
Proof.
  assert (W : Forall (fun ev => well_formed (snd ev)) sample_run)
    by (repeat constructor; reflexivity).
  split; [exact W|].
  exact (pending_entries_are_of_one_kind shipped sample_run W).
Defined.

(** X9.  A valid observation that carries its key raises [AttributeError]
    whenever an entry of the other kind is pending and has not expired:
    an identity is never matched with a waiting vehicle, nor a vehicle with
    a waiting identity. *)
Theorem other_kind_pending_raises :
  forall cfg evs ev,
    Forall (fun ev => well_formed (snd ev)) evs ->
    keyed (snd ev) ->
    Exists (fun ke => other_kind (snd ev) ke = true
                      /\ expired cfg (now (fst ev)) ke = false)
           (pending_verifications (run cfg evs init)) ->
    snd (observe cfg ev (run cfg evs init)) = Raised AttributeError.
Proof.
  intros cfg evs [clk o] W Key Ex. simpl in *.
  destruct (reachable cfg evs) as (N & Fp & _).
  assert (K : one_kind (pending_verifications (run cfg evs init))).
  { apply run_one_kind; auto; try constructor. constructor. }
  set (s := run cfg evs init) in *.
  assert (Ex' : Exists (fun ke => expired cfg (now clk) ke = false)
                       (pending_verifications s)).
  { revert Ex. apply Exists_impl. tauto. }
  assert (All : Forall (fun ke => other_kind o ke = true)
                       (pending_verifications s)).
  { apply Exists_exists in Ex. destruct Ex as (ke & I & O & _).
    rewrite Forall_forall in Fp.
    destruct K as [F | F]; rewrite Forall_forall in F;
      pose proof (F ke I) as Fk; apply Forall_forall; intros ke' I';
      specialize (F ke' I');
      destruct o; simpl in *; auto;
      unfold vehicle_entry, identity_entry in *;
      destruct (vehicle (snd ke)), (id_card (snd ke)); discriminate. }
  unfold observe; destruct o as [vd | cd]; simpl in *; destruct Key as [V T].
  - unfold process_vehicle_detection, check_pending_verification.
    rewrite V; simpl.
    destruct (scan_other_kind cfg (now clk) None (plate_text vd)
                (pending_verifications s) [] s eq_refl N) as (s' & ->); auto.
  - unfold process_id_card_detection, check_pending_verification.
    rewrite V; simpl.
    destruct (scan_other_kind cfg (now clk) (moodle_id cd) None
                (pending_verifications s) [] s eq_refl N) as (s' & ->); auto.
Qed.

(** X9 on the scenario of a vehicle at t = 0 and an identity at t = 10 s. *)
Lemma other_kind_pending_raises_witness :
  Forall (fun ev => well_formed (snd ev)) [car_at_0]
  /\ keyed (snd card_at_10)
  /\ snd (observe shipped card_at_10 (run shipped [car_at_0] init))
     = Raised AttributeError.
Proof.
  assert (W : Forall (fun ev => well_formed (snd ev)) [car_at_0])
    by (repeat constructor; reflexivity).
  assert (K : keyed (snd card_at_10)) by (split; reflexivity).
  split; [exact W|]. split; [exact K|].
  apply (other_kind_pending_raises shipped [car_at_0] card_at_10 W K).
  constructor. split; reflexivity.
Defined.

(** X10.  A handler that returns normally has decided nothing: it has added
    at most timeout records to the log and has left the counters alone.
    Every evaluation of the policy is followed by an exception. *)
Theorem normal_return_decides_nothing :
  forall cfg evs ev,
    let s := run cfg evs init in
    snd (observe cfg ev s) = Returned tt ->
    stats (fst (observe cfg ev s)) = stats s
    /\ exists es,
         access_log (fst (observe cfg ev s))
         = (access_log s ++ map expire_record es)%list.
Proof.
  intros cfg evs ev s R.
  destruct (reachable cfg evs) as (N & Fp & Fl). fold s in N, Fp, Fl.
  destruct (observe_steps cfg ev s N Fp Fl)
    as (es & s1 & (L & A & S) & [(L1 & A1 & S1) | [_ X]]).
  - split; [congruence|]. exists es. congruence.
  - rewrite X in R. discriminate R.
Qed.

(** X10 on the first vehicle of a session, which is parked. *)
Lemma normal_return_decides_nothing_witness :
  snd (observe shipped car_at_0 (run shipped [] init)) = Returned tt
  /\ stats (fst (observe shipped car_at_0 (run shipped [] init)))
     = stats (run shipped [] init).
Proof.
  split; [reflexivity|].
  exact (proj1 (normal_return_decides_nothing shipped [] car_at_0 eq_refl)).
Defined.

End MatcherLedgerFacts.

(** * Properties of the plate reader *)

Module PlatesFacts.

Import Text RegexSpec Plates PlatesSpec RegexFacts ExtractorFacts.

Local Open Scope nat_scope.

Example plates_read :
  map clean_plate_text (map T ["mh 12 cd 1234"; "MH12AB1234"; "KA-01-A-5678";
                               "DL3CAF00012"]%string)
  = map T ["MH-12-CD-1234"; "MH-12-A8-1234"; "KA-01-A5-678";
           "DL-3C-AF-0001"]%string
  /\ map validate_indian_plate
         (map T ["MH-12-CD-1234"; "MH-12-A8-1234"; "KA-01-A-5678";
                 "KA-01-A5-678"; "MH12CD1234 and more"; "22BH1234A";
                 "XX12CD1234"]%string)
     = [true; false; true; false; true; false; false].
Proof. vm_compute. split; reflexivity. Qed.

Lemma text_eqb_eq : forall a b, text_eqb a b = true <-> a = b.
Proof.
  induction a as [| x a IH]; intros [| y b]; simpl; split; intros H;
    try discriminate; auto.
  - apply andb_true_iff in H. destruct H as [E1 E2].
    apply Ascii.eqb_eq in E1. apply IH in E2. congruence.
  - inversion H; subst. rewrite Ascii.eqb_refl. simpl. apply IH. reflexivity.
Qed.

Lemma code_listed :
  forall c, existsb (text_eqb c) VALID_STATE_CODES = true
            <-> In c VALID_STATE_CODES.
Proof.
  intros c. rewrite existsb_exists. split.
  - intros (x & I & E). apply text_eqb_eq in E. subst. exact I.
  - intros I. exists c. split; auto. apply text_eqb_eq. reflexivity.
Qed.

Lemma codes_are_capitals :
  forall c, In c VALID_STATE_CODES -> run_of is_upper 2 2 c.
Proof.
  assert (F : forallb (fun c => (List.length c =? 2) && forallb is_upper c)
                      VALID_STATE_CODES = true) by reflexivity.
  intros c I. rewrite forallb_forall in F. specialize (F c I).
  apply andb_true_iff in F. destruct F as [L U].
  apply Nat.eqb_eq in L. rewrite forallb_forall in U.
  split; [lia|]. apply Forall_forall. exact U.
Qed.

Lemma re_match_iff :
  forall r t,
    re_match r t <> None <-> exists e, matches r (cur [] t None) e.
Proof. intros r t. unfold re_match. apply rmatch_some_iff. Qed.

Lemma firstn_code :
  forall (code rest : text), List.length code = 2 ->
    firstn 2 (code ++ rest) = code.
Proof.
  intros code rest L. rewrite <- L, firstn_app, Nat.sub_diag, firstn_all.
  simpl. apply app_nil_r.
Qed.

Lemma standard_elim :
  forall p e,
    matches pat_standard (cur [] p None) e ->
    exists code s1 d1 s2 series s3 d2 rest,
      p = code ++ s1 ++ d1 ++ s2 ++ series ++ s3 ++ d2 ++ rest
      /\ run_of is_upper 2 2 code
      /\ run_of dash_or_space 0 1 s1
      /\ run_of is_digit 2 2 d1
      /\ run_of dash_or_space 0 1 s2
      /\ run_of is_upper 1 2 series
      /\ run_of dash_or_space 0 1 s3
      /\ run_of is_digit 4 4 d2.
Proof.
  unfold pat_standard, seq, times, maybe, cur. intros p e M.
  inv_m. simpl in *.
  repeat match goal with
         | |- exists _, _ => eexists
         end.
  split; [reflexivity|]. unfold run_of. repeat split; auto; lia.
Qed.

Lemma compact_elim :
  forall p e,
    matches pat_compact (cur [] p None) e ->
    exists code d1 series d2 rest,
      p = code ++ d1 ++ series ++ d2 ++ rest
      /\ run_of is_upper 2 2 code
      /\ run_of is_digit 2 2 d1
      /\ run_of is_upper 1 2 series
      /\ run_of is_digit 4 4 d2.
Proof.
  unfold pat_compact, seq, times, cur. intros p e M.
  inv_m. simpl in *.
  repeat match goal with
         | |- exists _, _ => eexists
         end.
  split; [reflexivity|]. unfold run_of. repeat split; auto; lia.
Qed.

Lemma bharat_elim :
  forall p e,
    matches pat_bharat (cur [] p None) e ->
    exists d rest, p = d ++ rest /\ run_of is_digit 2 2 d.
Proof.
  unfold pat_bharat, seq, times, maybe, cur. intros p e M.
  inversion M; subst; clear M.
  match goal with
  | H : matches (Rep 2 _ _) _ _ |- _ => inversion H; subst; clear H
  end.
  do 2 eexists. split; [reflexivity|]. unfold run_of. simpl in *.
  repeat split; auto; lia.
Qed.

Lemma standard_intro :
  forall code s1 d1 s2 series s3 d2 rest,
    run_of is_upper 2 2 code ->
    run_of dash_or_space 0 1 s1 ->
    run_of is_digit 2 2 d1 ->
    run_of dash_or_space 0 1 s2 ->
    run_of is_upper 1 2 series ->
    run_of dash_or_space 0 1 s3 ->
    run_of is_digit 4 4 d2 ->
    exists e,
      matches pat_standard
        (cur [] (code ++ s1 ++ d1 ++ s2 ++ series ++ s3 ++ d2 ++ rest) None) e.
Proof.
  unfold pat_standard, seq, times, maybe, cur, run_of.
  intros code s1 d1 s2 series s3 d2 rest
         [L1 F1] [L2 F2] [L3 F3] [L4 F4] [L5 F5] [L6 F6] [L7 F7].
  eexists.
  repeat (eapply m_seq; [apply m_rep; simpl; auto; lia|]).
  apply m_rep; simpl; auto; lia.
Qed.

Lemma digit_not_upper : forall c, is_digit c = true -> is_upper c = false.
Proof.
  intros c. destruct c as [[] [] [] [] [] [] [] []]; vm_compute;
    intros H; try discriminate H; reflexivity.
Qed.

Lemma standard_form_long :
  forall p, standard_form p -> 9 <= List.length p.
Proof.
  intros p (code & s1 & d1 & s2 & series & s3 & d2 & rest & -> & I
            & _ & [L1 _] & _ & [L2 _] & _ & [L3 _]).
  apply codes_are_capitals in I. destruct I as [L0 _].
  rewrite !length_app. lia.
Qed.

Lemma standard_form_code :
  forall p, standard_form p -> In (firstn 2 p) VALID_STATE_CODES.
Proof.
  intros p (code & s1 & d1 & s2 & series & s3 & d2 & rest & -> & I & _).
  rewrite firstn_code; auto.
  apply codes_are_capitals in I. destruct I as [L0 _]. lia.
Qed.

Lemma validate_spec :
  forall p, validate_indian_plate p = true <-> standard_form p.
Proof.
  intros p. split.
  - unfold validate_indian_plate.
    destruct (_ || _); [discriminate|].
    rewrite existsb_exists. intros (pat & I & H).
    destruct (re_match pat p) eqn:M; [|discriminate H].
    apply code_listed in H.
    assert (M' : re_match pat p <> None) by congruence.
    apply re_match_iff in M'. destruct M' as [e M'].
    destruct I as [<- | [<- | [<- | []]]].
    + destruct (standard_elim _ _ M')
        as (code & s1 & d1 & s2 & series & s3 & d2 & rest & -> & C & R).
      rewrite firstn_code in H by (destruct C; lia).
      exists code, s1, d1, s2, series, s3, d2, rest. tauto.
    + exfalso. destruct (bharat_elim _ _ M') as (d & rest & -> & D).
      rewrite firstn_code in H by (destruct D; lia).
      apply codes_are_capitals in H.
      destruct d as [| x d]; [destruct D; simpl in *; lia|].
      destruct D as [_ D], H as [_ H]. inversion D; inversion H; subst.
      match goal with
      | A : is_digit x = true, B : is_upper x = true |- _ =>
          apply digit_not_upper in A; congruence
      end.
    + destruct (compact_elim _ _ M')
        as (code & d1 & series & d2 & rest & -> & C & R).
      rewrite firstn_code in H by (destruct C; lia).
      exists code, [], d1, [], series, [], d2, rest. simpl.
      assert (E : run_of dash_or_space 0 1 []) by (split; simpl; auto; lia).
      tauto.
  - intros S. pose proof (standard_form_long _ S) as L.
    pose proof (standard_form_code _ S) as C.
    destruct S as (code & s1 & d1 & s2 & series & s3 & d2 & rest & -> & I
                   & R1 & R2 & R3 & R4 & R5 & R6).
    unfold validate_indian_plate.
    replace (_ || _) with false.
    2:{ symmetry. apply orb_false_iff. split.
        - destruct (code ++ _); [simpl in L; lia | reflexivity].
        - apply Nat.ltb_ge. lia. }
    apply existsb_exists. exists pat_standard. split; [left; reflexivity|].
    destruct (standard_intro code s1 d1 s2 series s3 d2 rest
                (codes_are_capitals _ I) R1 R2 R3 R4 R5 R6) as [e M].
    assert (M' : re_match pat_standard
                   (code ++ s1 ++ d1 ++ s2 ++ series ++ s3 ++ d2 ++ rest)
                 <> None)
      by (apply re_match_iff; eauto).
    destruct (re_match pat_standard _); [|congruence].
    apply code_listed. exact C.
Qed.

Lemma dash_not_digit : is_digit "-" = false.
Proof. reflexivity. Qed.

Lemma dash_not_upper : is_upper "-" = false.
Proof. reflexivity. Qed.

Ltac by_length w :=
  destruct w as [| ? [| ? [| ? [| ? [| ? w]]]]]; simpl in *; try lia.

Ltac class_clash :=
  repeat match goal with
         | H : Forall _ (_ :: _) |- _ => inversion H; subst; clear H
         end;
  try match goal with
      | H : is_digit "-" = true |- _ => discriminate H
      | H : is_upper "-" = true |- _ => discriminate H
      end.

Lemma formatted_ten :
  forall a b c d e f g h i j,
    standard_form [a; b; "-"; c; d; "-"; e; f; "-"; g; h; i; j]%char
    <-> ten_plate [a; b; c; d; e; f; g; h; i; j].
Proof.
  intros a b c d e f g h i j. split.
  - intros (code & s1 & d1 & s2 & series & s3 & d2 & rest & E & I
            & [L1 F1] & [L2 F2] & [L3 F3] & [L4 F4] & [L5 F5] & [L6 F6]).
    pose proof (codes_are_capitals _ I) as [L0 F0].
    by_length code. by_length s1; by_length d1; by_length s2;
      by_length series; by_length s3; by_length d2;
      inversion E; subst; class_clash.
    match goal with
    | |- ten_plate [?a; ?b; ?c; ?d; ?e; ?f; ?g; ?h; ?i; ?j] =>
        exists [a; b], [c; d], [e; f], [g; h; i; j]
    end.
    unfold run_of; simpl. repeat split; auto.
  - intros (code & d1 & series & d2 & E & I & [L2 F2] & [L4 F4] & [L6 F6]).
    pose proof (codes_are_capitals _ I) as [L0 F0].
    by_length code. by_length d1. by_length series. by_length d2.
    inversion E; subst.
    match goal with
    | |- standard_form (?a :: ?b :: _ :: ?c :: ?d :: _ :: ?e :: ?f :: _
                          :: ?r) =>
        exists [a; b], ["-"%char], [c; d], ["-"%char], [e; f], ["-"%char],
               r, []
    end.
    unfold run_of; simpl. repeat split; auto.
Qed.

Lemma formatted_nine :
  forall a b c d e f g h i,
    ~ standard_form [a; b; "-"; c; d; "-"; e; f; "-"; g; h; i]%char.
Proof.
  intros a b c d e f g h i
         (code & s1 & d1 & s2 & series & s3 & d2 & rest & E & I
          & [L1 F1] & [L2 F2] & [L3 F3] & [L4 F4] & [L5 F5] & [L6 F6]).
  pose proof (codes_are_capitals _ I) as [L0 F0].
  by_length code. by_length s1; by_length d1; by_length s2;
    by_length series; by_length s3; by_length d2;
    inversion E; subst; class_clash.
Qed.

Lemma bare_app : forall a b, bare (a ++ b) = bare a ++ bare b.
Proof. intros. unfold bare, remove_char. rewrite !filter_app. reflexivity. Qed.

Lemma bare_length : forall a, List.length (bare a) <= List.length a.
Proof.
  intros. unfold bare, remove_char.
  eapply Nat.le_trans; apply filter_length_le.
Qed.

Lemma upper_not_separator :
  forall c, is_upper c = true ->
            negb (Ascii.eqb c " ") && negb (Ascii.eqb c "-") = true.
Proof.
  intros c. destruct c as [[] [] [] [] [] [] [] []]; vm_compute;
    intros H; try discriminate H; reflexivity.
Qed.

Lemma digit_not_separator :
  forall c, is_digit c = true ->
            negb (Ascii.eqb c " ") && negb (Ascii.eqb c "-") = true.
Proof.
  intros c. destruct c as [[] [] [] [] [] [] [] []]; vm_compute;
    intros H; try discriminate H; reflexivity.
Qed.

Lemma bare_keeps :
  forall w,
    Forall (fun c => negb (Ascii.eqb c " ") && negb (Ascii.eqb c "-") = true)
           w ->
    bare w = w.
Proof.
  intros w F. unfold bare, remove_char.
  induction F as [| c w H F IH]; simpl; auto.
  apply andb_true_iff in H. destruct H as [H1 H2].
  rewrite H1. simpl. rewrite H2. congruence.
Qed.

Lemma bare_capitals :
  forall lo hi w, run_of is_upper lo hi w -> bare w = w.
Proof.
  intros lo hi w [_ F]. apply bare_keeps. revert F. apply Forall_impl.
  apply upper_not_separator.
Qed.

Lemma bare_digits :
  forall lo hi w, run_of is_digit lo hi w -> bare w = w.
Proof.
  intros lo hi w [_ F]. apply bare_keeps. revert F. apply Forall_impl.
  apply digit_not_separator.
Qed.

Lemma standard_form_bare :
  forall p, standard_form p -> 9 <= List.length (bare p).
Proof.
  intros p (code & s1 & d1 & s2 & series & s3 & d2 & rest & -> & I
            & _ & R2 & _ & R4 & _ & R6).
  pose proof (codes_are_capitals _ I) as R0.
  rewrite !bare_app, !length_app.
  rewrite (bare_capitals _ _ _ R0), (bare_digits _ _ _ R2),
    (bare_capitals _ _ _ R4), (bare_digits _ _ _ R6).
  destruct R0, R2, R4, R6. lia.
Qed.

Lemma format_long :
  forall t a b c d e f g h i j rest,
    bare t = a :: b :: c :: d :: e :: f :: g :: h :: i :: j :: rest ->
    format_indian_plate t
    = [a; b; "-"; c; d; "-"; e; f; "-"; g; h; i; j]%char.
Proof.
  intros t a b c d e f g h i j rest E. unfold format_indian_plate.
  fold (bare t). rewrite E. reflexivity.
Qed.

Lemma ten_plate_length : forall c, ten_plate c -> List.length c = 10.
Proof.
  intros c (w1 & w2 & w3 & w4 & -> & I & [L2 _] & [L3 _] & [L4 _]).
  apply codes_are_capitals in I. destruct I as [L1 _].
  rewrite !length_app. lia.
Qed.

Lemma format_valid :
  forall t,
    validate_indian_plate (format_indian_plate t) = true
    <-> exists c rest, bare t = c ++ rest /\ ten_plate c.
Proof.
  intros t. rewrite validate_spec.
  destruct (Nat.le_gt_cases 10 (List.length (bare t))) as [Long | Short].
  - destruct (bare t)
      as [| a [| b [| c [| d [| e [| f [| g [| h [| i [| j r]]]]]]]]]] eqn:E;
      simpl in Long; try lia.
    rewrite (format_long _ _ _ _ _ _ _ _ _ _ _ _ E), formatted_ten. split.
    + intros H. exists [a; b; c; d; e; f; g; h; i; j], r. split; auto.
    + intros (c' & rest & Eq & H).
      pose proof (ten_plate_length _ H) as L.
      do 10 (destruct c' as [| ? c']; [discriminate L|]).
      destruct c'; [|discriminate L].
      inversion Eq; subst. exact H.
  - split.
    + intros S. exfalso.
      destruct (Nat.le_gt_cases 9 (List.length (bare t))) as [Nine | Less].
      * destruct (bare t)
          as [| a [| b [| c [| d [| e [| f [| g [| h [| i [| j r]]]]]]]]]]
          eqn:E; simpl in Nine, Short; try lia.
        unfold format_indian_plate in S. fold (bare t) in S.
        rewrite E in S. simpl in S. revert S. apply formatted_nine.
      * assert (F : format_indian_plate t = t).
        { unfold format_indian_plate. fold (bare t).
          destruct (10 <=? List.length (bare t)) eqn:A;
            [apply Nat.leb_le in A; lia|].
          destruct (9 <=? List.length (bare t)) eqn:B;
            [apply Nat.leb_le in B; lia|]. reflexivity. }
        rewrite F in S. apply standard_form_bare in S. lia.
    + intros (c' & rest & Eq & H). apply ten_plate_length in H.
      rewrite Eq, length_app in Short. lia.
Qed.

Lemma corrections_by_char :
  forall l t,
    fold_left (fun acc oc => replace_char (fst oc) (snd oc) acc) l t
    = map (fold_left (fun c oc => if Ascii.eqb c (fst oc) then snd oc else c)
                     l) t.
Proof.
  induction l as [| oc l IH]; intros t; simpl.
  - symmetry. apply map_id.
  - rewrite IH. unfold replace_char. rewrite map_map. reflexivity.
Qed.

Lemma correct_char_cleaned :
  forall c,
    plate_char c = true ->
    (cleaned_char (correct_char c) || is_space (correct_char c)) = true.
Proof.
  intros c. destruct c as [[] [] [] [] [] [] [] []]; vm_compute;
    intros H; try discriminate H; reflexivity.
Qed.

Lemma split_ws_aux_Forall :
  forall (P : ascii -> Prop) t cur,
    Forall P cur -> Forall P t -> Forall (Forall P) (split_ws_aux cur t).
Proof.
  intros P t; induction t as [| c t IH]; intros cur Fc Ft; simpl.
  - destruct cur; constructor; auto. apply Forall_rev. exact Fc.
  - inversion Ft; subst. destruct (is_space c).
    + destruct cur; [apply IH; auto|].
      constructor; [apply Forall_rev; exact Fc | apply IH; auto].
    + apply IH; auto.
Qed.

Lemma join_Forall :
  forall (P : ascii -> Prop) sep parts,
    Forall P sep -> Forall (Forall P) parts -> Forall P (join sep parts).
Proof.
  intros P sep parts Fs Fp. induction Fp as [| p parts H Fp IH]; simpl; auto.
  destruct parts; auto. rewrite !Forall_app. auto.
Qed.

(** The words of [str.split()] are non-empty and hold no white space. *)
Lemma split_ws_aux_words :
  forall t cur,
    Forall (fun c => is_space c = false) cur ->
    Forall (fun w => w <> [] /\ Forall (fun c => is_space c = false) w)
           (split_ws_aux cur t).
Proof.
  induction t as [| c t IH]; intros cur Fc; simpl.
  - destruct cur as [| x cur]; constructor; auto. split.
    + intros E. apply (f_equal (@List.length ascii)) in E.
      rewrite length_rev in E. discriminate E.
    + apply Forall_rev. exact Fc.
  - destruct (is_space c) eqn:S.
    + destruct cur as [| x cur]; [apply IH; auto|].
      constructor; [|apply IH; auto]. split.
      * intros E. apply (f_equal (@List.length ascii)) in E.
        rewrite length_rev in E. discriminate E.
      * apply Forall_rev. exact Fc.
    + apply IH. constructor; auto.
Qed.

(** The text handed to [format_indian_plate] by [clean_plate_text]. *)
Lemma compacted_chars :
  forall t,
    let t1 := filter plate_char (upper t) in
    let t2 := fold_left (fun acc oc => replace_char (fst oc) (snd oc) acc)
                        PLATE_CHAR_CORRECTIONS t1 in
    Forall (fun c => cleaned_char c = true) (join (T " ") (split_ws t2)).
Proof.
  intros t t1 t2.
  assert (F2 : Forall (fun c => (cleaned_char c || is_space c) = true) t2).
  { unfold t2. rewrite corrections_by_char. apply Forall_forall.
    intros c I. apply in_map_iff in I. destruct I as (x & <- & I).
    apply correct_char_cleaned. unfold t1 in I. apply filter_In in I. tauto. }
  pose proof (split_ws_aux_Forall _ t2 [] (Forall_nil _) F2) as W.
  pose proof (split_ws_aux_words t2 [] (Forall_nil _)) as N.
  fold (split_ws t2) in W, N.
  apply join_Forall; [repeat constructor|].
  rewrite Forall_forall in *. intros w I. apply Forall_forall. intros c Ic.
  specialize (W w I). destruct (N w I) as [_ Nw].
  rewrite Forall_forall in W, Nw. specialize (W c Ic). specialize (Nw c Ic).
  rewrite Nw, orb_false_r in W. exact W.
Qed.

Lemma bare_Forall :
  forall (P : ascii -> Prop) t, Forall P t -> Forall P (bare t).
Proof.
  intros P t F. unfold bare, remove_char.
  apply Forall_forall. intros c I.
  apply filter_In in I. destruct I as [I _]. apply filter_In in I.
  destruct I as [I _]. rewrite Forall_forall in F. auto.
Qed.

Lemma cleaned_capital :
  forall c, cleaned_char c = true -> is_upper c = true -> corrected c = false.
Proof.
  intros c. destruct c as [[] [] [] [] [] [] [] []]; vm_compute;
    intros H U; try discriminate H; try discriminate U; reflexivity.
Qed.

Lemma cleaned_valid_is_normal :
  forall t,
    validate_indian_plate (clean_plate_text t) = true ->
    normal_plate (clean_plate_text t).
Proof.
  intros t V. unfold clean_plate_text in *.
  pose proof (compacted_chars t) as F. cbv zeta in F.
  set (t3 := join (T " ") (split_ws _)) in *.
  apply bare_Forall in F.
  apply format_valid in V. destruct V as (c & rest & E & P).
  destruct P as (code & d1 & series & d2 & -> & I & R2 & R3 & R4).
  pose proof (codes_are_capitals _ I) as R1.
  rewrite E in F. rewrite !Forall_app in F.
  destruct F as [(F1 & _ & F3 & _) _].
  assert (Shape : format_indian_plate t3
                  = code ++ T "-" ++ d1 ++ T "-" ++ series ++ T "-" ++ d2).
  { destruct R1 as [L1 _], R2 as [L2 _], R3 as [L3 _], R4 as [L4 _].
    by_length code. by_length d1. by_length series. by_length d2.
    eapply format_long. exact E. }
  rewrite Shape. exists code, d1, series, d2.
  repeat split; try apply R2; try apply R3; try apply R4; auto.
  apply Forall_app. split.
  - destruct R1 as [_ U]. rewrite Forall_forall in *. intros x Ix.
    apply cleaned_capital; auto.
  - destruct R3 as [_ U]. rewrite Forall_forall in *. intros x Ix.
    apply cleaned_capital; auto.
Qed.

Lemma split_ws_aux_word :
  forall w cur rest,
    Forall (fun c => is_space c = false) w ->
    split_ws_aux cur (w ++ rest) = split_ws_aux (rev w ++ cur) rest.
Proof.
  induction w as [| c w IH]; intros cur rest F; simpl; auto.
  inversion F; subst.
  match goal with H : is_space c = false |- _ => rewrite H end.
  rewrite IH by assumption. rewrite <- app_assoc. reflexivity.
Qed.

Lemma rev_not_nil : forall (w : text), w <> [] -> rev w <> [].
Proof.
  intros w N E. apply N. apply (f_equal (@rev ascii)) in E.
  rewrite rev_involutive in E. exact E.
Qed.

Lemma split_ws_join :
  forall ws,
    Forall (fun w => w <> [] /\ Forall (fun c => is_space c = false) w) ws ->
    split_ws (join (T " ") ws) = ws.
Proof.
  unfold split_ws.
  induction ws as [| w ws IH]; intros F; [reflexivity|].
  inversion F as [| ? ? [N Fw] F']; subst. specialize (IH F').
  destruct ws as [| w' ws].
  - simpl. rewrite <- (app_nil_r w) at 1.
    rewrite split_ws_aux_word by assumption. rewrite app_nil_r. simpl.
    pose proof (rev_not_nil w N) as R.
    destruct (rev w) eqn:E; [congruence|]. rewrite <- E, rev_involutive.
    reflexivity.
  - change (join (T " ") (w :: w' :: ws))
      with (w ++ T " " ++ join (T " ") (w' :: ws)).
    rewrite split_ws_aux_word by assumption. rewrite app_nil_r.
    change (T " " ++ join (T " ") (w' :: ws))
      with (" "%char :: join (T " ") (w' :: ws)).
    simpl split_ws_aux at 1.
    pose proof (rev_not_nil w N) as R.
    destruct (rev w) eqn:E; [congruence|]. rewrite <- E, rev_involutive.
    f_equal. exact IH.
Qed.

Lemma cleaned_fixed :
  forall c,
    cleaned_char c = true ->
    upper_char c = c /\ plate_char c = true /\ correct_char c = c.
Proof.
  intros c. destruct c as [[] [] [] [] [] [] [] []]; vm_compute;
    intros H; try discriminate H; repeat split; reflexivity.
Qed.

Lemma cleaned_not_blank :
  forall c,
    cleaned_char c = true -> Ascii.eqb c " " = false -> is_space c = false.
Proof.
  intros c. destruct c as [[] [] [] [] [] [] [] []]; vm_compute;
    intros H B; try discriminate H; try discriminate B; reflexivity.
Qed.

Lemma filter_all :
  forall (A : Type) (f : A -> bool) l,
    Forall (fun x => f x = true) l -> filter f l = l.
Proof.
  intros A f l F. induction F as [| x l H F IH]; simpl; auto.
  rewrite H, IH. reflexivity.
Qed.

Lemma map_fixed :
  forall (A : Type) (f : A -> A) l,
    Forall (fun x => f x = x) l -> map f l = l.
Proof.
  intros A f l F. induction F as [| x l H F IH]; simpl; auto.
  rewrite H, IH. reflexivity.
Qed.

(** A text of cleaned characters, made of words separated by one space, on
    which the formatting does nothing, is left as it is. *)
Lemma clean_fixed :
  forall ws,
    Forall (fun w => w <> [] /\ Forall (fun c => is_space c = false) w) ws ->
    Forall (fun c => cleaned_char c = true) (join (T " ") ws) ->
    format_indian_plate (join (T " ") ws) = join (T " ") ws ->
    clean_plate_text (join (T " ") ws) = join (T " ") ws.
Proof.
  intros ws W F Fmt. unfold clean_plate_text.
  set (y := join (T " ") ws) in *.
  assert (U : upper y = y).
  { apply map_fixed. revert F. apply Forall_impl.
    intros c H. apply cleaned_fixed in H. tauto. }
  assert (K : filter plate_char y = y).
  { apply filter_all. revert F. apply Forall_impl.
    intros c H. apply cleaned_fixed in H. tauto. }
  assert (R : fold_left (fun acc oc => replace_char (fst oc) (snd oc) acc)
                        PLATE_CHAR_CORRECTIONS y = y).
  { rewrite corrections_by_char. apply map_fixed. revert F.
    apply Forall_impl. intros c H. apply cleaned_fixed in H. tauto. }
  rewrite U, K, R. unfold y at 1. rewrite split_ws_join by assumption.
  exact Fmt.
Qed.

Lemma bare_no_sep :
  forall t,
    Forall (fun c => negb (Ascii.eqb c " ") && negb (Ascii.eqb c "-") = true)
           (bare t).
Proof.
  intros t. apply Forall_forall. intros c I. unfold bare, remove_char in I.
  apply filter_In in I. destruct I as [I H2]. apply filter_In in I.
  destruct I as [_ H1]. rewrite H1, H2. reflexivity.
Qed.

Lemma format_shapes :
  forall t,
    (exists a b c d e f g h i j,
        format_indian_plate t
        = [a; b; "-"; c; d; "-"; e; f; "-"; g; h; i; j]%char
        /\ incl [a; b; c; d; e; f; g; h; i; j] (bare t))
    \/ (exists a b c d e f g h i,
           format_indian_plate t
           = [a; b; "-"; c; d; "-"; e; f; "-"; g; h; i]%char
           /\ incl [a; b; c; d; e; f; g; h; i] (bare t))
    \/ (format_indian_plate t = t /\ List.length (bare t) < 9).
Proof.
  intros t. unfold format_indian_plate. fold (bare t).
  destruct (bare t)
    as [| a [| b [| c [| d [| e [| f [| g [| h [| i [| j r]]]]]]]]]] eqn:E;
    try (right; right; split; [reflexivity | simpl; lia]).
  - right; left. exists a, b, c, d, e, f, g, h, i. split; [reflexivity|].
    apply incl_refl.
  - left. exists a, b, c, d, e, f, g, h, i, j. split; [reflexivity|].
    intros x I. simpl in I. simpl. tauto.
Qed.

Lemma format_idempotent :
  forall t, format_indian_plate (format_indian_plate t) = format_indian_plate t.
Proof.
  intros t. pose proof (bare_no_sep t) as N. rewrite Forall_forall in N.
  destruct (format_shapes t)
    as [(a & b & c & d & e & f & g & h & i & j & E & I)
       | [(a & b & c & d & e & f & g & h & i & E & I) | [E L]]];
    rewrite E; [| |exact E].
  - assert (B : bare [a; b; "-"; c; d; "-"; e; f; "-"; g; h; i; j]%char
                = [a; b; c; d; e; f; g; h; i; j]).
    { change [a; b; "-"; c; d; "-"; e; f; "-"; g; h; i; j]%char
        with ([a; b] ++ T "-" ++ [c; d] ++ T "-" ++ [e; f] ++ T "-"
              ++ [g; h; i; j]).
      rewrite !bare_app.
      rewrite (bare_keeps [a; b]), (bare_keeps [c; d]), (bare_keeps [e; f]),
        (bare_keeps [g; h; i; j]);
        try (apply Forall_forall; intros x Ix; apply N, I; simpl in *; tauto).
      reflexivity. }
    eapply format_long. exact B.
  - assert (B : bare [a; b; "-"; c; d; "-"; e; f; "-"; g; h; i]%char
                = [a; b; c; d; e; f; g; h; i]).
    { change [a; b; "-"; c; d; "-"; e; f; "-"; g; h; i]%char
        with ([a; b] ++ T "-" ++ [c; d] ++ T "-" ++ [e; f] ++ T "-"
              ++ [g; h; i]).
      rewrite !bare_app.
      rewrite (bare_keeps [a; b]), (bare_keeps [c; d]), (bare_keeps [e; f]),
        (bare_keeps [g; h; i]);
        try (apply Forall_forall; intros x Ix; apply N, I; simpl in *; tauto).
      reflexivity. }
    unfold format_indian_plate. fold (bare [a; b; "-"; c; d; "-"; e; f; "-";
                                            g; h; i]%char).
    rewrite B. reflexivity.
Qed.

Lemma clean_idempotent :
  forall t, clean_plate_text (clean_plate_text t) = clean_plate_text t.
Proof.
  intros t.
  pose proof (compacted_chars t) as F. cbv zeta in F.
  unfold clean_plate_text at 2. unfold clean_plate_text at 2.
  set (t2 := fold_left _ PLATE_CHAR_CORRECTIONS _) in *.
  pose proof (split_ws_aux_words t2 [] (Forall_nil _)) as W.
  fold (split_ws t2) in W.
  set (t3 := join (T " ") (split_ws t2)) in *.
  pose proof (bare_Forall _ _ F) as Fb.
  pose proof (bare_no_sep t3) as N.
  rewrite Forall_forall in Fb, N.
  assert (Word : forall y,
             y <> [] ->
             Forall (fun c => cleaned_char c = true) y ->
             Forall (fun c => Ascii.eqb c " " = false) y ->
             format_indian_plate y = y ->
             clean_plate_text y = y).
  { intros y Ny Fy By Fmt.
    change y with (join (T " ") [y]). apply clean_fixed; auto.
    constructor; [|constructor]. split; auto.
    rewrite Forall_forall in *. intros c I.
    apply cleaned_not_blank; auto. }
  assert (In10 : forall x, In x (bare t3) ->
                           cleaned_char x = true /\ Ascii.eqb x " " = false).
  { intros x I. split; auto. specialize (N x I).
    apply andb_true_iff in N. destruct N as [N _].
    apply negb_true_iff in N. exact N. }
  destruct (format_shapes t3)
    as [(a & b & c & d & e & f & g & h & i & j & E & I)
       | [(a & b & c & d & e & f & g & h & i & E & I) | [E L]]].
  - apply Word.
    + rewrite E. discriminate.
    + rewrite E.
      repeat (constructor;
              [first [reflexivity | apply In10, I; simpl; tauto]|]).
      constructor.
    + rewrite E.
      repeat (constructor;
              [first [reflexivity | apply In10, I; simpl; tauto]|]).
      constructor.
    + apply format_idempotent.
  - apply Word.
    + rewrite E. discriminate.
    + rewrite E.
      repeat (constructor;
              [first [reflexivity | apply In10, I; simpl; tauto]|]).
      constructor.
    + rewrite E.
      repeat (constructor;
              [first [reflexivity | apply In10, I; simpl; tauto]|]).
      constructor.
    + apply format_idempotent.
  - rewrite E. unfold t3. apply clean_fixed; auto.
Qed.

Example state_codes_lost :
  lost_state_codes
  = map T ["AS"; "BR"; "CG"; "GA"; "GJ"; "MZ"; "OD"; "PB"; "SK"; "TS";
           "WB"]%string.
Proof. reflexivity. Qed.

(** X11.  [validate_indian_plate] accepts exactly the texts that begin with
    a plate in the standard format: a listed state code, two digits, one or
    two capitals and four digits, with at most one hyphen or white-space
    character after each of the first three groups.  What follows the plate
    is not looked at, and the test on the length is implied. *)
Theorem valid_plates_begin_with_the_standard_form :
  forall p,
    seven_bit p = true ->
    (validate_indian_plate p = true <-> standard_form p).
Proof. intros p _. apply validate_spec. Qed.

(** X11 on a plate followed by other words. *)
Lemma valid_plates_begin_with_the_standard_form_witness :
  seven_bit (T "MH12CD1234 and more") = true
  /\ standard_form (T "MH12CD1234 and more").
Proof.
  split; [reflexivity|].
  apply (valid_plates_begin_with_the_standard_form
           (T "MH12CD1234 and more") eq_refl).
  reflexivity.
Defined.

(** X12.  No text of the BH series is valid: a text that matches the second
    pattern of [INDIAN_PLATE_PATTERNS] begins with two digits, which is no
    state code. *)
Theorem bharat_series_is_never_valid :
  forall p,
    seven_bit p = true ->
    re_match pat_bharat p <> None ->
    validate_indian_plate p = false.
Proof.
  intros p _ M. apply re_match_iff in M. destruct M as [e M].
  destruct (bharat_elim _ _ M) as (d & rest & -> & [L D]).
  destruct (validate_indian_plate (d ++ rest)) eqn:V; [|reflexivity].
  exfalso. apply validate_spec in V. apply standard_form_code in V.
  rewrite firstn_code in V by lia.
  apply codes_are_capitals in V. destruct V as [_ U].
  destruct d as [| x d]; [simpl in L; lia|].
  inversion D; inversion U; subst.
  match goal with
  | A : is_digit x = true, B : is_upper x = true |- _ =>
      apply digit_not_upper in A; congruence
  end.
Qed.

(** X12 on the example of the configuration file. *)
Lemma bharat_series_is_never_valid_witness :
  seven_bit (T "22-BH-1234-A") = true
  /\ re_match pat_bharat (T "22-BH-1234-A") <> None
  /\ validate_indian_plate (T "22-BH-1234-A") = false.
Proof.
  assert (M : re_match pat_bharat (T "22-BH-1234-A") <> None)
    by (vm_compute; discriminate).
  split; [reflexivity|]. split; [exact M|].
  exact (bharat_series_is_never_valid (T "22-BH-1234-A") eq_refl M).
Defined.

(** X13.  A text is valid after [format_indian_plate] exactly when its
    first ten characters other than spaces and hyphens are a listed state
    code, two digits, two capitals and four digits: a plate with a one-letter
    series, which the patterns accept, is never valid once formatted. *)
Theorem formatted_plate_valid_iff :
  forall t,
    seven_bit t = true ->
    (validate_indian_plate (format_indian_plate t) = true
     <-> exists c rest, bare t = c ++ rest /\ ten_plate c).
Proof. intros t _. apply format_valid. Qed.

(** X13 on a plate with a one-letter series: valid as read, not valid once
    formatted. *)
Lemma formatted_plate_valid_iff_witness :
  seven_bit (T "KA-01-A-5678") = true
  /\ validate_indian_plate (T "KA-01-A-5678") = true
  /\ ~ exists c rest, bare (T "KA-01-A-5678") = c ++ rest /\ ten_plate c.
Proof.
  split; [reflexivity|]. split; [reflexivity|]. intros H.
  apply (formatted_plate_valid_iff (T "KA-01-A-5678") eq_refl) in H.
  discriminate H.
Defined.

(** X14.  Every valid detection of [detect_and_extract] carries a plate in
    one normal form: state code, two digits, two capitals and four digits,
    joined by hyphens, with none of the letters O, I, S, Z, B, G in the
    state code or the series.  So no plate of the eleven state codes that
    hold one of these letters is ever valid, nor any series such as AB. *)
Theorem valid_detections_are_normal :
  forall boxes d,
    Forall plain_box boxes ->
    In d (detect_and_extract boxes) ->
    Matcher.v_is_valid d = true ->
    exists p,
      Matcher.plate_text d = Some (string_of_list_ascii p)
      /\ normal_plate p.
Proof.
  intros boxes d _ I V. unfold detect_and_extract in I.
  apply in_map_iff in I. destruct I as (b & <- & _).
  unfold detection in *. simpl in *.
  set (p := extract_text_from_roi _ _ _) in *.
  exists p. split; [reflexivity|].
  unfold extract_text_from_roi in *.
  destruct (_ || _)%bool; [discriminate V|].
  destruct (b_ocr b); [|discriminate V].
  apply cleaned_valid_is_normal. exact V.
Qed.

(** X14 on a box read as "mh 12" and "cd 1234". *)
Lemma valid_detections_are_normal_witness :
  Forall plain_box [sample_box]
  /\ exists p,
       Matcher.plate_text (detection sample_box)
       = Some (string_of_list_ascii p)
       /\ normal_plate p.
Proof.
  assert (F : Forall plain_box [sample_box])
    by (repeat constructor).
  split; [exact F|].
  apply (valid_detections_are_normal [sample_box] (detection sample_box) F).
  - left. reflexivity.
  - reflexivity.
Defined.

(** X15.  [clean_plate_text] is idempotent: a cleaned text is left as it is
    when it is cleaned again. *)
Theorem clean_plate_text_is_idempotent :
  forall t,
    seven_bit t = true ->
    clean_plate_text (clean_plate_text t) = clean_plate_text t.
Proof. intros t _. apply clean_idempotent. Qed.

(** X15 on a text that is cut to ten characters. *)
Lemma clean_plate_text_is_idempotent_witness :
  seven_bit (T "dl3caf00012") = true
  /\ clean_plate_text (T "dl3caf00012") = T "DL-3C-AF-0001"
  /\ clean_plate_text (T "DL-3C-AF-0001") = T "DL-3C-AF-0001".
Proof.
  pose proof (clean_plate_text_is_idempotent (T "dl3caf00012") eq_refl) as H.
  split; [reflexivity|]. split; [reflexivity|]. exact H.
Defined.

End PlatesFacts.

(** * Properties of the ID-card verifier *)

Module VerifierFacts.

Import Text RegexSpec Verifier ExtractorSpec VerifierSpec RegexFacts
       ExtractorFacts.

Local Open Scope nat_scope.

Example identifiers_read :
  map extract_moodle_id
      (map T ["ID 22102003"; "2210 2003"; "Valid 2024-25 No 1234";
              "12345678"; "1234"]%string)
  = [Some (T "22102003"); Some (T "22102003"); Some (T "20242512");
     None; None].
Proof. vm_compute. reflexivity. Qed.

Lemma filter_digits :
  forall w, Forall (fun c => is_digit c = true) w -> filter is_digit w = w.
Proof.
  intros w F. induction F as [| c w H F IH]; simpl; auto.
  rewrite H, IH. reflexivity.
Qed.

Lemma pattern_elim :
  forall t i e,
    matches_at MOODLE_ID_PATTERN t i e ->
    exists pre w post,
      t = pre ++ w ++ post /\ List.length pre = i
      /\ before e = rev w ++ rev pre
      /\ digits 8 w /\ exists r, w = "2"%char :: r.
Proof.
  unfold MOODLE_ID_PATTERN, times, cur.
  intros t i e (pre & post & -> & <- & M). inv_m. simpl in *.
  match goal with
  | H : is_char "2" ?c = true,
    F : Forall (fun c => is_digit c = true) ?x |- _ =>
      apply Ascii.eqb_eq in H; subst c;
      exists pre, ("2"%char :: x);
      match goal with
      | |- context [x ++ ?rest] => exists rest
      end;
      repeat split; simpl; auto; try lia;
      [rewrite <- app_assoc; reflexivity | eauto]
  end.
Qed.

Lemma first_candidate_spec :
  forall n ds,
    List.length ds = n + 7 ->
    Forall (fun c => is_digit c = true) ds ->
    match first_candidate n ds with
    | Some w => id_window ds w
    | None => forall w, ~ id_window ds w
    end.
Proof.
  induction n as [| n IH]; intros ds L F.
  - simpl. intros w (pre & post & -> & [Lw _] & _).
    rewrite !length_app in L. simpl in L. lia.
  - destruct ds as [| c ds]; [discriminate L|].
    simpl in L. assert (L' : List.length ds = n + 7) by lia.
    inversion F as [| ? ? Fc F']; subst.
    specialize (IH ds L' F'). unfold first_candidate; fold first_candidate.
    assert (Skip : c <> "2"%char ->
                   match first_candidate n ds with
                   | Some w => id_window (c :: ds) w
                   | None => forall w, ~ id_window (c :: ds) w
                   end).
    { intros Nc. destruct (first_candidate n ds) as [w|].
      - destruct IH as (pre & post & -> & D & R).
        exists (c :: pre), post. auto.
      - intros w (pre & post & E & D & r & ->).
        destruct pre as [| x pre]; simpl in E; inversion E; subst.
        + congruence.
        + apply (IH ("2"%char :: r)). exists pre, post. eauto. }
    destruct (Ascii.eqb c "2") eqn:C.
    + apply Ascii.eqb_eq in C. subst c.
      assert (L8 : List.length (firstn 8 ("2"%char :: ds)) = 8)
        by (rewrite length_firstn; simpl List.length; lia).
      rewrite L8. simpl Nat.eqb. cbv iota.
      exists [], (skipn 8 ("2"%char :: ds)). split.
      * simpl app. symmetry. apply (firstn_skipn 8 ("2"%char :: ds)).
      * split; [|simpl; eauto]. split; auto.
        rewrite <- (firstn_skipn 8 ("2"%char :: ds)) in F.
        apply Forall_app in F. apply F.
    + apply Skip. intros ->. discriminate C.
Qed.

Lemma filter_window :
  forall pre w post,
    digits 8 w ->
    filter is_digit (pre ++ w ++ post)
    = filter is_digit pre ++ w ++ filter is_digit post.
Proof.
  intros pre w post [_ F]. rewrite !filter_app, (filter_digits w F).
  reflexivity.
Qed.

Lemma verifier_moodle_id_spec :
  forall t,
    match extract_moodle_id t with
    | Some w => id_window (filter is_digit t) w
    | None => forall w, ~ id_window (filter is_digit t) w
    end.
Proof.
  intros t. unfold extract_moodle_id.
  pose proof (re_search_spec MOODLE_ID_PATTERN t) as S.
  destruct (re_search MOODLE_ID_PATTERN t) as [m|].
  - destruct S as [M _].
    destruct (pattern_elim _ _ _ M) as (pre & w & post & -> & L & B & D & R).
    unfold group0. rewrite B, <- L.
    replace (List.length pre) with (List.length (rev pre))
      by apply length_rev.
    rewrite capture_exact.
    exists (filter is_digit pre), (filter is_digit post).
    split; auto. apply filter_window; auto.
  - clear S. set (ds := filter is_digit t).
    assert (F : Forall (fun c => is_digit c = true) ds).
    { apply Forall_forall. intros c I. apply filter_In in I. tauto. }
    destruct (8 <=? List.length ds) eqn:L.
    + apply Nat.leb_le in L. apply first_candidate_spec; auto. lia.
    + apply Nat.leb_gt in L.
      intros w (pre & post & E & [Lw _] & _). rewrite E in L.
      rewrite !length_app in L. lia.
Qed.

Lemma lstrip_suffix :
  forall (P : ascii -> Prop) t, Forall P t -> Forall P (lstrip t).
Proof.
  intros P t F. induction F as [| c t H F IH]; simpl; auto.
  destruct (is_space c); auto.
Qed.

Lemma strip_Forall :
  forall (P : ascii -> Prop) t, Forall P t -> Forall P (strip t).
Proof.
  intros P t F. unfold strip, rstrip.
  apply Forall_rev, lstrip_suffix, Forall_rev, lstrip_suffix, F.
Qed.

Lemma lstrip_idempotent : forall t, lstrip (lstrip t) = lstrip t.
Proof.
  induction t as [| c t IH]; simpl; auto.
  destruct (is_space c) eqn:S; auto. simpl. rewrite S. reflexivity.
Qed.

Lemma lstrip_before_char :
  forall x c z,
    is_space c = false -> lstrip (x ++ c :: z) = lstrip x ++ c :: z.
Proof.
  induction x as [| a x IH]; intros c z S; simpl.
  - rewrite S. reflexivity.
  - destruct (is_space a); auto.
Qed.

Lemma strip_idempotent : forall t, strip (strip t) = strip t.
Proof.
  intros t. unfold strip, rstrip.
  set (u := lstrip t).
  assert (U : lstrip (rev (lstrip (rev u))) = rev (lstrip (rev u))).
  { assert (Hu : lstrip u = u) by apply lstrip_idempotent.
    destruct u as [| c r]; [reflexivity|].
    simpl in Hu. destruct (is_space c) eqn:S.
    - exfalso. apply (f_equal (@List.length ascii)) in Hu. simpl in Hu.
      assert (L : forall x, List.length (lstrip x) <= List.length x).
      { induction x as [| a x IH]; simpl; auto.
        destruct (is_space a); simpl; lia. }
      specialize (L r). lia.
    - simpl rev. rewrite lstrip_before_char by assumption.
      rewrite rev_app_distr. simpl. rewrite S. reflexivity. }
  rewrite U, rev_involutive, lstrip_idempotent. reflexivity.
Qed.

Lemma extract_name_clean : forall n, clean_name (extract_name n).
Proof.
  intros n. unfold extract_name, clean_name. split.
  - apply strip_Forall, Forall_forall. intros c I.
    apply filter_In in I. tauto.
  - apply strip_idempotent.
Qed.

Lemma string_not_empty :
  forall t : text,
    t <> [] -> Matcher.truthy (Some (string_of_list_ascii t)) = true.
Proof. intros [| c t] N; [congruence | reflexivity]. Qed.

(** X16.  [extract_moodle_id] of the verifier reads the digits of the
    region as one row, whatever stands between them: it returns a 2 followed
    by seven digits found in that row, and it returns nothing exactly when
    the row holds no such window. *)
Theorem verifier_identifier_is_a_window_of_the_digits :
  forall t,
    seven_bit t = true ->
    match extract_moodle_id t with
    | Some w => id_window (filter is_digit t) w
    | None => forall w, ~ id_window (filter is_digit t) w
    end.
Proof. intros t _. apply verifier_moodle_id_spec. Qed.

(** X16 on a text whose digits are split over a year and a number. *)
Lemma verifier_identifier_is_a_window_of_the_digits_witness :
  seven_bit (T "Valid 2024-25 No 1234") = true
  /\ extract_moodle_id (T "Valid 2024-25 No 1234") = Some (T "20242512")
  /\ id_window (T "2024251234") (T "20242512").
Proof.
  split; [reflexivity|]. split; [reflexivity|].
  exact (verifier_identifier_is_a_window_of_the_digits
           (T "Valid 2024-25 No 1234") eq_refl).
Defined.

(** X17.  A card that [detect_and_extract_id_card] marks as valid carries
    an identifier of eight digits that starts with 2 and a non-empty name
    made of letters and white space, with none at either end. *)
Theorem valid_cards_are_normal :
  forall r,
    plain_reading r ->
    Matcher.c_is_valid (card r) = true ->
    exists w n,
      Matcher.moodle_id (card r) = Some (string_of_list_ascii w)
      /\ digits 8 w /\ (exists x, w = "2"%char :: x)
      /\ Matcher.name (card r) = Some (string_of_list_ascii n)
      /\ n <> [] /\ clean_name n.
Proof.
  intros r _ V. unfold card in *. simpl in *.
  set (t := extract_text_from_region (moodle_region r) (moodle_ocr r)) in *.
  set (n := extract_name _) in *.
  pose proof (verifier_moodle_id_spec t) as S.
  destruct (extract_moodle_id t) as [w|]; [|discriminate V].
  destruct S as (pre & post & _ & D & X).
  exists w, n. simpl. repeat split; try apply D; auto.
  - destruct n; [|discriminate].
    rewrite andb_false_r in V. discriminate V.
  - apply extract_name_clean.
  - apply extract_name_clean.
Qed.

(** X17 on a card read as "JOHN  SMITH 2" and "ID 2023", "0001". *)
Lemma valid_cards_are_normal_witness :
  plain_reading sample_reading
  /\ Matcher.moodle_id (card sample_reading) = Some "20230001"%string
  /\ Matcher.name (card sample_reading) = Some "JOHN SMITH"%string
  /\ exists w n,
       Matcher.moodle_id (card sample_reading)
       = Some (string_of_list_ascii w)
       /\ digits 8 w /\ (exists x, w = "2"%char :: x)
       /\ Matcher.name (card sample_reading)
          = Some (string_of_list_ascii n)
       /\ n <> [] /\ clean_name n.
Proof.
  assert (P : plain_reading sample_reading) by (split; reflexivity).
  split; [exact P|]. split; [reflexivity|]. split; [reflexivity|].
  exact (valid_cards_are_normal sample_reading P eq_refl).
Defined.

End VerifierFacts.

(** * The readers and the matcher together *)

Module PipelineFacts.

Import Matcher MatcherSpec MatcherFacts Pipeline.

Lemma sightings_are_well_formed :
  forall x, well_formed (observation_of x).
Proof.
  intros [b | r]; simpl.
  - intros V. apply VerifierFacts.string_not_empty.
    intros E. rewrite E in V. discriminate V.
  - intros V. apply andb_true_iff in V. destruct V as [V _].
    destruct (Verifier.extract_moodle_id _) as [[| c w]|];
      try discriminate V. reflexivity.
Qed.

Lemma feed_is_well_formed :
  forall xs, Forall (fun ev => well_formed (snd ev)) (feed xs).
Proof.
  intros xs. unfold feed. apply Forall_forall. intros ev I.
  apply in_map_iff in I. destruct I as (x & <- & _). simpl.
  apply sightings_are_well_formed.
Qed.

(** X18.  Whatever the two readers make of the camera frames, the matcher
    never holds two pending entries for one plate or one identifier, and
    never holds vehicles and identities together: a detection that a reader
    marks as valid always carries its key. *)
Theorem readers_keep_the_pending_set_in_order :
  forall cfg xs,
    let s := run cfg (feed xs) init in
    unique_keys (pending_verifications s)
    /\ MatcherLedger.one_kind (pending_verifications s).
Proof.
  intros cfg xs s. pose proof (feed_is_well_formed xs) as W. split.
  - apply run_unique; auto; [constructor | intros x; simpl; auto].
  - apply MatcherLedgerFacts.run_one_kind; auto; try constructor.
    constructor.
Qed.

End PipelineFacts.

(** * More properties of the field extractor *)

Module ExtractorMoreFacts.

Import Text RegexSpec Extractor ExtractorSpec ExtractorMore RegexFacts
       ExtractorFacts.

Local Open Scope nat_scope.

Example departments_read :
  map extract_department
      (map T ["Dept: COMPUTER ENGG, A.P. SHAH INSTITUTE OF TECHNOLOGY";
              "COMPUTER ENGG"; "CSE"; "UNIVERSITY"]%string)
  = [Some (T "INFORMATION TECHNOLOGY"); Some (T "COMPUTER ENGINEERING");
     None; Some (T "INFORMATION TECHNOLOGY")]
  /\ normalize_department (T "Electronic Engineering")
     = Some (T "ELECTRICAL ENGINEERING").
Proof. vm_compute. split; reflexivity. Qed.

Example years_read :
  map extract_academic_year
      (map T ["ID 22102003"; "2023-2024"; "A.Y. 2023/24"; "1999"]%string)
  = [Some (T "2003"); Some (T "2023-2024"); Some (T "2023"); None].
Proof. vm_compute. reflexivity. Qed.

Lemma starts_with_iff :
  forall p t, starts_with p t = true <-> exists rest, t = p ++ rest.
Proof.
  induction p as [| x p IH]; intros t; simpl.
  - split; eauto.
  - destruct t as [| y t].
    + split; [discriminate | intros [rest E]; discriminate E].
    + rewrite andb_true_iff, IH. split.
      * intros [E [rest ->]]. apply Ascii.eqb_eq in E. subst. eauto.
      * intros [rest E]. inversion E; subst. split; eauto.
        apply Ascii.eqb_refl.
Qed.

Lemma contains_iff :
  forall k t, contains k t = true <-> exists pre post, t = pre ++ k ++ post.
Proof.
  intros k t; induction t as [| c t IH].
  - simpl. rewrite orb_false_r, starts_with_iff. split.
    + intros [rest E]. exists [], rest. exact E.
    + intros (pre & post & E). destruct pre; simpl in E; eauto.
      discriminate E.
  - change (contains k (c :: t))
      with (starts_with k (c :: t) || contains k t).
    rewrite orb_true_iff, starts_with_iff, IH. split.
    + intros [[rest E] | (pre & post & ->)].
      * exists [], rest. exact E.
      * exists (c :: pre), post. reflexivity.
    + intros (pre & post & E). destruct pre as [| x pre]; simpl in E.
      * left. eauto.
      * right. inversion E; subst. eauto.
Qed.

Lemma contains_prefix :
  forall a b t, contains (a ++ b) t = true -> contains a t = true.
Proof.
  intros a b t H. apply contains_iff in H. destruct H as (pre & post & ->).
  apply contains_iff. exists pre, (b ++ post). rewrite <- app_assoc.
  reflexivity.
Qed.

(** X19.  [normalize_department] gives "ELECTRONICS ENGINEERING" only for a
    text that holds the whole word "electronics": the test for 'electron' in
    its fallback is never reached, as the test for 'elect' comes first. *)
Theorem electronics_needs_the_whole_word :
  forall t,
    seven_bit t = true ->
    normalize_department t = Some (T "ELECTRONICS ENGINEERING") ->
    contains (T "electronics") (lower t) = true.
Proof.
  intros t _ H.
  unfold normalize_department, valid_departments, first_keyword in H.
  repeat match type of H with
         | context [if ?b then _ else _] => destruct b eqn:?
         end;
    try (vm_compute in H; discriminate H); auto.
  exfalso.
  match goal with
  | A : contains (T "elect") _ = false,
    B : contains (T "electron") _ = true |- _ =>
      apply (contains_prefix (T "elect") (T "ron")) in B; congruence
  end.
Qed.

(** X19 on a department spelt out. *)
Lemma electronics_needs_the_whole_word_witness :
  seven_bit (T "Electronics Engg") = true
  /\ contains (T "electronics") (lower (T "Electronics Engg")) = true.
Proof.
  split; [reflexivity|].
  exact (electronics_needs_the_whole_word (T "Electronics Engg")
           eq_refl eq_refl).
Defined.

Lemma find_department_rules :
  forall kws t,
    find_department kws t
    = first_keyword
        (flat_map (fun k => match normalize_department k with
                            | Some (c :: n) => [(k, c :: n)]
                            | _ => []
                            end) kws)
        (upper t).
Proof.
  induction kws as [| k kws IH]; intros t; simpl; auto.
  rewrite IH.
  destruct (normalize_department k) as [[| c n]|]; simpl;
    destruct (contains k (upper t)); reflexivity.
Qed.

(** X20.  The department of [parse_id_card_data] is the name that stands,
    in [department_rules], for the first keyword found in the upper-cased
    text: the keywords CSE, ECE and EEE never give a department, and "IT" is
    looked for before the one-word keywords. *)
Theorem department_follows_the_rules :
  forall t,
    seven_bit t = true ->
    extract_department t = first_keyword department_rules (upper t).
Proof.
  intros t _. unfold extract_department.
  rewrite find_department_rules. reflexivity.
Qed.

(** X20 on a card of the institute: "IT" is found inside "INSTITUTE" before
    the keyword "COMPUTER" is looked for. *)
Lemma department_follows_the_rules_witness :
  seven_bit (T "A.P. SHAH INSTITUTE OF TECHNOLOGY COMPUTER ENGG") = true
  /\ extract_department (T "A.P. SHAH INSTITUTE OF TECHNOLOGY COMPUTER ENGG")
     = Some (T "INFORMATION TECHNOLOGY").
Proof.
  split; [reflexivity|].
  rewrite (department_follows_the_rules
             (T "A.P. SHAH INSTITUTE OF TECHNOLOGY COMPUTER ENGG") eq_refl).
  reflexivity.
Defined.

Lemma lit_elim :
  forall k s e,
    matches (lit k) s e ->
    exists aft,
      after s = k ++ aft
      /\ e = {| before := rev k ++ before s; after := aft;
                group1 := group1 s |}.
Proof.
  induction k as [| c k IH]; intros s e M; simpl in M.
  - inversion M; subst. exists (after e). destruct e; auto.
  - inversion M; subst; clear M.
    match goal with
    | H : matches (Chr _) _ _ |- _ => inversion H; subst; clear H
    end.
    match goal with
    | H : matches (lit k) _ _ |- _ =>
        destruct (IH _ _ H) as (aft' & A & ->)
    end.
    simpl in *. subst.
    match goal with
    | H : is_char c _ = true |- _ => apply Ascii.eqb_eq in H; subst
    end.
    exists aft'. split; auto. rewrite <- app_assoc. reflexivity.
Qed.

Lemma lit_intro :
  forall k bef aft g,
    matches (lit k)
      {| before := bef; after := k ++ aft; group1 := g |}
      {| before := rev k ++ bef; after := aft; group1 := g |}.
Proof.
  induction k as [| c k IH]; intros bef aft g; simpl.
  - apply m_eps.
  - eapply m_seq; [apply m_chr; apply Ascii.eqb_refl|].
    rewrite <- app_assoc. apply IH.
Qed.

Lemma group0_exact :
  forall (y pre : text) aft g i,
    List.length pre = i ->
    group0 {| m_start := i;
              m_end := {| before := rev y ++ rev pre; after := aft;
                          group1 := g |} |}
    = y.
Proof.
  intros y pre aft g i <-. unfold group0. simpl.
  replace (List.length pre) with (List.length (rev pre)) by apply length_rev.
  apply capture_exact.
Qed.

Lemma year_elim :
  forall t i e,
    matches_at pat_year t i e ->
    exists pre y post,
      t = pre ++ y ++ post /\ List.length pre = i
      /\ before e = rev y ++ rev pre /\ year_form y.
Proof.
  unfold pat_year, seq, times, cur.
  intros t i e (pre & post & -> & <- & M).
  inversion M; subst; clear M; inv_m;
    repeat match goal with
           | H : is_char _ _ = true |- _ => apply Ascii.eqb_eq in H; subst
           end;
    simpl in *.
  - match goal with
    | |- context [pre ++ _ :: _ :: ?d ++ ?s :: _ :: _ :: ?d' ++ ?rest] =>
        exists pre, (T "20" ++ d ++ [s] ++ T "20" ++ d'), rest
    end.
    split; [|split; [|split]].
    + simpl. rewrite <- ?app_assoc. simpl. rewrite <- ?app_assoc. reflexivity.
    + reflexivity.
    + simpl. rewrite ?rev_app_distr. simpl. rewrite ?rev_app_distr. simpl.
      rewrite <- ?app_assoc. simpl. rewrite <- ?app_assoc. reflexivity.
    + right. do 3 eexists. split; [reflexivity|].
      unfold digits. repeat split; auto; lia.
  - match goal with
    | |- context [pre ++ _ :: _ :: ?d ++ ?rest] =>
        exists pre, (T "20" ++ d), rest
    end.
    split; [|split; [|split]].
    + simpl. rewrite <- ?app_assoc. reflexivity.
    + reflexivity.
    + simpl. rewrite ?rev_app_distr. simpl.
      rewrite <- ?app_assoc. reflexivity.
    + left. eexists. split; [reflexivity|].
      unfold digits. repeat split; auto; lia.
Qed.

Lemma year_intro :
  forall pre d post,
    digits 2 d ->
    exists e, matches_at pat_year (pre ++ T "20" ++ d ++ post)
                         (List.length pre) e.
Proof.
  unfold pat_year, seq, times, cur. intros pre d post [L F].
  eexists. exists pre, (T "20" ++ d ++ post).
  split; [reflexivity|]. split; [reflexivity|].
  apply m_alt_r.
  eapply m_seq; [apply (lit_intro (T "20"))|].
  apply m_rep; simpl; auto; lia.
Qed.

Lemma extract_academic_year_spec :
  forall t,
    match extract_academic_year t with
    | Some y => year_form y /\ exists pre post, t = pre ++ y ++ post
    | None =>
        forall pre d post, t = pre ++ T "20" ++ d ++ post -> ~ digits 2 d
    end.
Proof.
  intros t. unfold extract_academic_year.
  pose proof (re_search_spec pat_year t) as S.
  destruct (re_search pat_year t) as [m|].
  - destruct S as [M _].
    destruct (year_elim _ _ _ M) as (pre & y & post & -> & L & B & Y).
    destruct m as [i [bef aft g]]. simpl in *. subst bef.
    rewrite group0_exact by assumption. split; eauto.
  - intros pre d post -> D.
    destruct (year_intro pre d post D) as [e M]. exact (S _ _ M).
Qed.

(** X21.  The academic year of [parse_id_card_data] is "20" and two digits,
    or two such years joined by a hyphen or a slash, taken from the text
    wherever they stand, inside a longer number too; there is none exactly
    when "20" is nowhere followed by two digits. *)
Theorem academic_year_is_any_20xx :
  forall t,
    seven_bit t = true ->
    match extract_academic_year t with
    | Some y => year_form y /\ exists pre post, t = pre ++ y ++ post
    | None =>
        forall pre d post, t = pre ++ T "20" ++ d ++ post -> ~ digits 2 d
    end.
Proof. intros t _. apply extract_academic_year_spec. Qed.

(** X21 on a text whose only digits are an identifier. *)
Lemma academic_year_is_any_20xx_witness :
  seven_bit (T "ID 22102003") = true
  /\ extract_academic_year (T "ID 22102003") = Some (T "2003")
  /\ year_form (T "2003").
Proof.
  split; [reflexivity|]. split; [reflexivity|].
  exact (proj1 (academic_year_is_any_20xx (T "ID 22102003") eq_refl)).
Defined.

Lemma institute_elim :
  forall k pre post e,
    matches (pat_institute k) (cur (rev pre) post None) e ->
    exists x y rest,
      post = x ++ k ++ y ++ rest
      /\ Forall (fun c => upper_or_space c = true) x
      /\ Forall (fun c => upper_or_space c = true) y
      /\ group1 e = Some (x ++ k ++ y).
Proof.
  unfold pat_institute, seq, star, cur. intros k pre post e M.
  inversion M; subst; clear M.
  match goal with
  | H : matches (Seq _ _) _ _ |- _ => inversion H; subst; clear H
  end.
  match goal with
  | H : matches (Rep _ _ _) _ _ |- _ => inversion H; subst; clear H
  end.
  match goal with
  | H : matches (Seq _ _) _ _ |- _ => inversion H; subst; clear H
  end.
  match goal with
  | H : matches (lit k) _ _ |- _ =>
      apply lit_elim in H; simpl in H; destruct H as (aft' & A & ->)
  end.
  match goal with
  | H : matches (Rep _ _ _) _ _ |- _ => inversion H; subst; clear H
  end.
  simpl in *.
  match goal with
  | Fx : Forall _ ?x, Fy : Forall _ ?y |- context [?x ++ k ++ ?y ++ ?rest] =>
      exists x, y, rest
  | Fx : Forall _ ?x, Fy : Forall _ ?y |- _ =>
      exists x, y
  end.
  repeat split; auto. f_equal.
  match goal with
  | |- context [rev ?y ++ rev k ++ rev ?x ++ rev pre] =>
      replace (rev y ++ rev k ++ rev x ++ rev pre)
        with (rev (x ++ k ++ y) ++ rev pre)
        by (rewrite !rev_app_distr, <- !app_assoc; reflexivity)
  end.
  apply capture_exact.
Qed.

Lemma institute_intro :
  forall k pre post,
    exists e,
      matches_at (pat_institute k) (pre ++ k ++ post) (List.length pre) e.
Proof.
  unfold pat_institute, seq, star, cur. intros k pre post.
  eexists. exists pre, (k ++ post).
  split; [reflexivity|]. split; [reflexivity|].
  apply m_group.
  eapply m_seq; [apply (m_rep 0 None upper_or_space []); simpl; auto|].
  eapply m_seq; [apply lit_intro|].
  apply (m_rep 0 None upper_or_space []); simpl; auto.
Qed.

Lemma upper_not_space : forall c, is_upper c = true -> is_space c = false.
Proof.
  intros c. destruct c as [[] [] [] [] [] [] [] []]; vm_compute;
    intros H; try discriminate H; reflexivity.
Qed.

Lemma strip_around :
  forall x k y,
    k <> [] -> Forall (fun c => is_space c = false) k ->
    strip (x ++ k ++ y) = lstrip x ++ k ++ rstrip y.
Proof.
  intros x k y N F. unfold strip.
  assert (L : lstrip (x ++ k ++ y) = lstrip x ++ k ++ y).
  { destruct k as [| c k]; [congruence|]. inversion F; subst.
    simpl. apply VerifierFacts.lstrip_before_char. assumption. }
  rewrite L. unfold rstrip. rewrite !rev_app_distr, <- app_assoc.
  destruct (rev k) as [| d w] eqn:E.
  { exfalso. apply N. apply (f_equal (@rev ascii)) in E.
    rewrite rev_involutive in E. exact E. }
  assert (D : is_space d = false).
  { rewrite Forall_forall in F. apply F. apply in_rev. rewrite E.
    left. reflexivity. }
  simpl. rewrite VerifierFacts.lstrip_before_char by assumption.
  rewrite rev_app_distr. simpl. rewrite rev_app_distr, rev_involutive.
  rewrite <- !app_assoc. f_equal.
  apply (f_equal (@rev ascii)) in E. rewrite rev_involutive in E.
  simpl in E. rewrite E, <- app_assoc. reflexivity.
Qed.

Lemma find_institute_spec :
  forall kws t,
    Forall (fun k => k <> [] /\ Forall (fun c => is_upper c = true) k) kws ->
    match find_institute kws t with
    | Some r =>
        exists k, In k kws /\ contains k (upper t) = true
                  /\ institute_around k r
    | None => Forall (fun k => contains k (upper t) = false) kws
    end.
Proof.
  induction kws as [| k kws IH]; intros t F; simpl; [constructor|].
  inversion F as [| ? ? [N U] F']; subst. specialize (IH t F').
  assert (Next : match find_institute kws t with
                 | Some r =>
                     exists k0, In k0 (k :: kws)
                                /\ contains k0 (upper t) = true
                                /\ institute_around k0 r
                 | None => contains k (upper t) = false ->
                           Forall (fun k0 => contains k0 (upper t) = false)
                                  (k :: kws)
                 end).
  { destruct (find_institute kws t).
    - destruct IH as (k0 & I & H). exists k0. split; [right|]; auto.
    - intros C. constructor; auto. }
  destruct (contains k (upper t)) eqn:C.
  - pose proof (re_search_spec (pat_institute k) (upper t)) as S.
    destruct (re_search (pat_institute k) (upper t)) as [m|].
    + destruct S as [(pre & post & E & L & M) _].
      replace pre with (rev (rev pre)) in E by apply rev_involutive.
      destruct (institute_elim k (rev (rev pre)) post (m_end m))
        as (x & y & rest & -> & Fx & Fy & G).
      { rewrite rev_involutive. exact M. }
      unfold group_text, group. rewrite G.
      assert (Ns : Forall (fun c => is_space c = false) k).
      { revert U. apply Forall_impl. apply upper_not_space. }
      exists k. split; [left; reflexivity|]. split; auto.
      unfold institute_around. split; [|split].
      * rewrite strip_around by assumption. apply contains_iff. eauto.
      * apply VerifierFacts.strip_Forall. rewrite !Forall_app.
        repeat split; auto. revert U. apply Forall_impl.
        intros c Hc. unfold upper_or_space. rewrite Hc. reflexivity.
      * apply VerifierFacts.strip_idempotent.
    + exfalso. apply contains_iff in C. destruct C as (pre & post & E).
      destruct (institute_intro k pre post) as [e M]. rewrite <- E in M.
      exact (S _ _ M).
  - destruct (find_institute kws t); auto.
Qed.

(** X22.  The institute of [parse_id_card_data] is null exactly when none
    of INSTITUTE, COLLEGE, UNIVERSITY and TECHNOLOGY occurs in the
    upper-cased text.  Otherwise it is made of capitals and white space, has
    no white space at either end, and holds one of these words. *)
Theorem institute_is_found_iff_a_keyword_occurs :
  forall t,
    seven_bit t = true ->
    match find_institute institute_keywords t with
    | Some r =>
        exists k, In k institute_keywords /\ contains k (upper t) = true
                  /\ institute_around k r
    | None =>
        Forall (fun k => contains k (upper t) = false) institute_keywords
    end.
Proof.
  intros t _. apply find_institute_spec.
  repeat constructor; try discriminate.
Qed.

(** X22 on the name of the institute between other words. *)
Lemma institute_is_found_iff_a_keyword_occurs_witness :
  seven_bit (T "Dept. A P SHAH INSTITUTE OF TECHNOLOGY, Thane") = true
  /\ find_institute institute_keywords
       (T "Dept. A P SHAH INSTITUTE OF TECHNOLOGY, Thane")
     = Some (T "A P SHAH INSTITUTE OF TECHNOLOGY")
  /\ exists k, In k institute_keywords
               /\ institute_around k (T "A P SHAH INSTITUTE OF TECHNOLOGY").
Proof.
  assert (E : find_institute institute_keywords
                (T "Dept. A P SHAH INSTITUTE OF TECHNOLOGY, Thane")
              = Some (T "A P SHAH INSTITUTE OF TECHNOLOGY"))
    by (vm_compute; reflexivity).
  pose proof (institute_is_found_iff_a_keyword_occurs
                (T "Dept. A P SHAH INSTITUTE OF TECHNOLOGY, Thane") eq_refl)
    as H.
  rewrite E in H. destruct H as (k & I & _ & A).
  split; [reflexivity|]. split; [exact E|].
  exists k. split; assumption.
Defined.

End ExtractorMoreFacts.

(** * Properties of the save throttles *)

Module SaverFacts.

Import Matcher Saver.

Example saves_throttled :
  saved (save_all [(seconds 100, Some "22102003"%string);
                   (seconds 101, Some "22102004"%string);
                   (seconds 99, Some "22102005"%string);
                   (seconds 103, None)] start)
  = [(seconds 100, "22102003"%string); (seconds 103, "None"%string)].
Proof. reflexivity. Qed.

Example clock_set_back_saves_at_once :
  map fst (a_saved (auto_save_all [(seconds 100, card_JOHN);
                                   (seconds 99, card_JOHN);
                                   (seconds 86500, card_JOHN)] a_start))
  = [seconds 100; seconds 99].
Proof. reflexivity. Qed.

Lemma spaced_snoc :
  forall times t,
    spaced times ->
    Forall (fun a => a + 3 * 1000000 <= t) times ->
    spaced (times ++ [t]).
Proof.
  unfold spaced. intros times t S F.
  induction S as [| a l S IH Ha]; simpl.
  - constructor; constructor.
  - inversion F; subst. constructor; auto.
    apply Forall_app. split; auto.
Qed.

Lemma save_card_data_inv :
  forall now m s,
    spaced (map fst (saved s)) ->
    Forall (fun a => a <= last_save_time s) (map fst (saved s)) ->
    spaced (map fst (saved (save_card_data now m s)))
    /\ Forall (fun a => a <= last_save_time (save_card_data now m s))
              (map fst (saved (save_card_data now m s))).
Proof.
  intros now m s S F. unfold save_card_data, ID_CARD_SAVE_COOLDOWN.
  destruct (now - last_save_time s <? 3 * 1000000) eqn:C; auto.
  apply Z.ltb_ge in C. simpl. rewrite map_app. simpl. split.
  - apply spaced_snoc; auto. revert F. apply Forall_impl. intros a H. lia.
  - apply Forall_app. split.
    + revert F. apply Forall_impl. intros a H. lia.
    + repeat constructor. lia.
Qed.

Lemma save_all_inv :
  forall calls s,
    spaced (map fst (saved s)) ->
    Forall (fun a => a <= last_save_time s) (map fst (saved s)) ->
    spaced (map fst (saved (save_all calls s))).
Proof.
  induction calls as [| c calls IH]; intros s S F; simpl; auto.
  destruct (save_card_data_inv (fst c) (snd c) s S F) as [S' F'].
  apply IH; auto.
Qed.

(** X23.  Whatever the clock shows at the calls of [save_card_data], each
    save is at least three seconds after every earlier one: at most one
    card is saved in any three seconds, whoever it belongs to. *)
Theorem saves_are_three_seconds_apart :
  forall calls, spaced (map fst (saved (save_all calls start))).
Proof.
  intros calls. apply save_all_inv; simpl; constructor.
Qed.

Lemma three_seconds :
  forall d,
    0 <= d -> AUTO_CAPTURE_DELAY <= timedelta_seconds d -> 3 * 1000000 <= d.
Proof.
  unfold AUTO_CAPTURE_DELAY, timedelta_seconds. intros d P H.
  pose proof (Z.mod_le d (86400 * 1000000) P ltac:(lia)) as M.
  pose proof (Z.mul_div_le (d mod (86400 * 1000000)) 1000000 ltac:(lia)) as Q.
  lia.
Qed.

Lemma auto_save_all_inv :
  forall cards s,
    StronglySorted Z.le (map fst cards) ->
    spaced (map fst (a_saved s)) ->
    match a_last_save_time s with
    | Some l => Forall (fun a => a <= l) (map fst (a_saved s))
                /\ Forall (fun t => l <= t) (map fst cards)
    | None => a_saved s = []
    end ->
    spaced (map fst (a_saved (auto_save_all cards s))).
Proof.
  induction cards as [| [t c] cards IH]; intros s M S L; simpl; auto.
  simpl in M. inversion M as [| ? ? M' Mt]; subst.
  apply IH; auto; unfold auto_save; simpl.
  - destruct (c_is_valid c && truthy (moodle_id c)); auto.
    destruct (a_last_save_time s) as [l|].
    + destruct L as [Fa Ft]. inversion Ft; subst.
      destruct (AUTO_CAPTURE_DELAY <=? timedelta_seconds (t - l)) eqn:D; auto.
      apply Z.leb_le in D. apply three_seconds in D; [|lia].
      simpl. rewrite map_app. simpl. apply spaced_snoc; auto.
      revert Fa. apply Forall_impl. intros a H. lia.
    + rewrite L. simpl. repeat constructor.
  - assert (Keep : match a_last_save_time s with
                   | Some l => Forall (fun a => a <= l) (map fst (a_saved s))
                               /\ Forall (fun t => l <= t) (map fst cards)
                   | None => a_saved s = []
                   end).
    { destruct (a_last_save_time s); auto. destruct L as [Fa Ft].
      inversion Ft; subst. auto. }
    destruct (c_is_valid c && truthy (moodle_id c)); auto.
    destruct (a_last_save_time s) as [l|] eqn:E.
    + destruct L as [Fa Ft]. inversion Ft; subst.
      destruct (AUTO_CAPTURE_DELAY <=? timedelta_seconds (t - l)) eqn:D.
      * simpl. split; auto. rewrite map_app. simpl.
        apply Forall_app. split; [|repeat constructor; lia].
        revert Fa. apply Forall_impl. intros a H. lia.
      * rewrite E. exact Keep.
    + simpl. rewrite L. simpl. split; auto. repeat constructor. lia.
Qed.

(** X24.  When the clock never goes back, the verifier's auto-save writes
    each card at least three seconds after every earlier one.  (A clock set
    back by a second makes it save at once, and a card shown a day and a
    second after the last save is not saved: the test reads the seconds
    field of the difference.) *)
Theorem auto_saves_are_apart_on_a_steady_clock :
  forall cards,
    StronglySorted Z.le (map fst cards) ->
    spaced (map fst (a_saved (auto_save_all cards a_start))).
Proof.
  intros cards M. apply auto_save_all_inv; auto; simpl; auto.
  constructor.
Qed.

(** X24 on three readings of one card, two seconds and then four seconds
    after the first. *)
Lemma auto_saves_are_apart_on_a_steady_clock_witness :
  let cards := [(seconds 100, card_JOHN); (seconds 102, card_JOHN);
                (seconds 104, card_JOHN)] in
  StronglySorted Z.le (map fst cards)
  /\ map fst (a_saved (auto_save_all cards a_start))
     = [seconds 100; seconds 104]
  /\ spaced [seconds 100; seconds 104].
Proof.
  intros cards.
  assert (M : StronglySorted Z.le (map fst cards)).
  { unfold cards, seconds. simpl.
    repeat (constructor; [|repeat constructor; lia]). constructor. }
  split; [exact M|]. split; [reflexivity|].
  exact (auto_saves_are_apart_on_a_steady_clock cards M).
Defined.

End SaverFacts.
